(** * ContractService (src/services/contract.service.ts)

    A shallow embedding of the contract service of evm-source-verification:
    the path matcher [match_], the directory and file name helpers, and the
    store operations, together with the parts of the JavaScript platform they
    call (the regular expression matcher, [parseInt], [path.join], the
    [node:fs] calls).

    Conventions of the embedding.
    - A JavaScript string is a [string]: a sequence of 8-bit character codes.
      Code units above 255 are outside the embedding; of the four line
      terminators that [.] refuses, the two below 256 (LF and CR) are
      present.
    - A synchronous call that can throw, and a promise that can reject, both
      produce a [Completion].
    - The asynchronous store operations pass the file store explicitly.
    - [match] compiles a pattern whose source holds the directory name of
      the service.  The embedding reads a directory name made of pattern
      characters, [.] and [|]; for any other directory name [match_] gives
      the marker [PatternNotEmbedded] and nothing is stated.
    - A chain id is a Number in the source; [ContractIdentity.chainId] is a
      non-negative integer, and [Number_toString] is the [toString] of the
      Number for the integers below 2^53 only. *)

From Stdlib Require Import Ascii String NArith Lia.
From stdpp Require Import base option list gmap strings pretty.

Local Open Scope N_scope.
Local Open Scope nat_scope.

(** ** Completions *)

Inductive Error :=
| ENOENT        (* node:fs, no such file or directory *)
| ENOTDIR       (* node:fs, a component of the path is not a directory *)
| EISDIR        (* node:fs, readFile of a directory *)
| SyntaxError   (* JSON.parse of a text that is not JSON *)
| TypeError     (* property access on undefined *)
| WriteError    (* the store refused a write *)
| PatternNotEmbedded.
                (* no error of the platform: the pattern source is outside
                   the part of the pattern language that the embedding
                   reads *)

Inductive Completion (A : Type) :=
| Normal (a : A)
| Throw (e : Error).
Arguments Normal {A} a.
Arguments Throw {A} e.

(** ** Strings *)

Module Str.

Fixpoint startsWith (s p : string) {struct p} : bool :=
  match p with
  | EmptyString => true
  | String c p' =>
      match s with
      | EmptyString => false
      | String d s' => Ascii.eqb d c && startsWith s' p'
      end
  end.

(** [stripPrefix p s] is what follows [p] in [s], when [s] starts with [p]. *)
Fixpoint stripPrefix (p s : string) {struct p} : option string :=
  match p with
  | EmptyString => Some s
  | String c p' =>
      match s with
      | EmptyString => None
      | String d s' => if Ascii.eqb d c then stripPrefix p' s' else None
      end
  end.

Fixpoint forallb (f : ascii → bool) (s : string) : bool :=
  match s with
  | EmptyString => true
  | String c s' => f c && forallb f s'
  end.

(** The longest prefix of [s] whose characters all satisfy [f]. *)
Fixpoint takeWhile (f : ascii → bool) (s : string) : string :=
  match s with
  | EmptyString => EmptyString
  | String c s' => if f c then String c (takeWhile f s') else EmptyString
  end.

Fixpoint dropWhile (f : ascii → bool) (s : string) : string :=
  match s with
  | EmptyString => EmptyString
  | String c s' => if f c then dropWhile f s' else s
  end.

Fixpoint take (n : nat) (s : string) : string :=
  match n, s with
  | S n', String c s' => String c (take n' s')
  | _, _ => EmptyString
  end.

Fixpoint drop (n : nat) (s : string) : string :=
  match n, s with
  | S n', String _ s' => drop n' s'
  | _, _ => s
  end.

Fixpoint map (f : ascii → ascii) (s : string) : string :=
  match s with
  | EmptyString => EmptyString
  | String c s' => String (f c) (map f s')
  end.

(** [toLowerCase] on the letters A to Z. *)
Definition toLowerCase (s : string) : string :=
  map (λ c,
         let n := N_of_ascii c in
         if (65 <=? n)%N && (n <=? 90)%N then ascii_of_N (n + 32) else c) s.

End Str.

(** ** Numbers

    [parseInt] returns a Number, an IEEE 754 binary64 value.  The values it
    can return on an unsigned text are the non-negative integers that
    binary64 represents, [Infinity] and [NaN]. *)

Inductive Number :=
| Finite (n : N)
| Infinity
| NaN.

Global Instance Number_eq_dec : EqDecision Number.
Proof. solve_decision. Defined.

Global Instance Number_countable : Countable Number.
Proof.
  refine (inj_countable'
    (λ x, match x with Finite n => inl n | Infinity => inr true | NaN => inr false end)
    (λ y, match y with inl n => Finite n | inr true => Infinity | inr false => NaN end)
    _).
  by intros [].
Defined.

(** The binary64 value nearest to the integer [n], ties to the even
    significand: integers of at most 53 bits are kept, a longer one loses its
    low bits, and one that rounds to 2^1024 or more becomes [Infinity]. *)
Definition round_binary64 (n : N) : Number :=
  let bits := N.size n in
  if (bits <=? 53)%N then Finite n
  else
    let e := (bits - 53)%N in
    let q := N.shiftr n e in
    let r := (n - N.shiftl q e)%N in
    let half := N.shiftl 1 (e - 1) in
    let q' :=
      if (r <? half)%N then q
      else if (half <? r)%N then (q + 1)%N
      else if N.even q then q else (q + 1)%N in
    let v := N.shiftl q' e in
    if (v <? 2 ^ 1024)%N then Finite v else Infinity.

(** The value of a character as a digit, letters counting from ten. *)
Definition digitValue (c : ascii) : option N :=
  let n := N_of_ascii c in
  if (48 <=? n)%N && (n <=? 57)%N then Some (n - 48)%N
  else if (97 <=? n)%N && (n <=? 122)%N then Some (n - 87)%N
  else if (65 <=? n)%N && (n <=? 90)%N then Some (n - 55)%N
  else None.

(** The value of the longest prefix of [s] made of digits of the radix;
    [acc] is the value read so far, [None] before the first digit. *)
Fixpoint parseDigits (radix : N) (s : string) (acc : option N) : option N :=
  match s with
  | EmptyString => acc
  | String c s' =>
      match digitValue c with
      | Some d =>
          if (d <? radix)%N
          then parseDigits radix s' (Some (default 0%N acc * radix + d)%N)
          else acc
      | None => acc
      end
  end.

(** [parseInt(s, radix)] for radix 10 and 16 on a text with no leading white
    space and no sign (its callers pass the text of a group of digits): with
    radix 16 a leading [0x] or [0X] is dropped, the longest run of digits is
    read, and an empty run gives [NaN].  The mathematical value is then
    rounded to a Number; the embedding rounds the exact value, where
    ECMAScript lets an implementation approximate after the 20th
    significant digit. *)
Definition parseInt (s : string) (radix : N) : Number :=
  let s' :=
    if (radix =? 16)%N then
      match s with
      | String "0" (String "x" t) => t
      | String "0" (String "X" t) => t
      | _ => s
      end
    else s in
  match parseDigits radix s' None with
  | None => NaN
  | Some v => round_binary64 v
  end.

(** ** Regular expressions

    The matcher follows the continuation semantics of ECMAScript (22.2.2):
    a matcher takes a state and a continuation, and a failed continuation
    makes it try its next choice.  Only the pattern forms that the service
    writes are present: quantifiers apply to a single-character atom and are
    greedy; there are no flags, so [^] and [$] are the ends of the input and
    [.] refuses line terminators. *)

Module RegExp.

Inductive atom :=
| PatternCharacter (c : ascii)
| Dot
| ClassRanges (rs : list (ascii * ascii)).

Inductive regex :=
| Atom (a : atom)
| Literal (s : string)       (* a run of pattern characters *)
| Quantified (a : atom) (min : nat) (max : option nat)
| Seq (r1 r2 : regex)
| Disjunction (r1 r2 : regex)
| Group (n : nat) (r : regex)
| AssertStart                (* ^ *)
| AssertEnd.                 (* $ *)

Definition isLineTerminator (c : ascii) : bool :=
  Ascii.eqb c "010" || Ascii.eqb c "013".

Definition inRange (c : ascii) (r : ascii * ascii) : bool :=
  (N_of_ascii r.1 <=? N_of_ascii c)%N && (N_of_ascii c <=? N_of_ascii r.2)%N.

Definition atomMatches (a : atom) (c : ascii) : bool :=
  match a with
  | PatternCharacter d => Ascii.eqb c d
  | Dot => negb (isLineTerminator c)
  | ClassRanges rs => existsb (inRange c) rs
  end.

(** A state: the text still to read, the index reached in the input, and
    the text captured by each group so far. *)
Record MatchState := {
  rest : string;
  endIndex : nat;
  captures : nat → option string;
}.

Definition advance (s : string) (x : MatchState) : MatchState :=
  {| rest := s; endIndex := S (endIndex x); captures := captures x |}.

Definition setCapture (n : nat) (t : string) (x : MatchState) : MatchState :=
  {| rest := rest x; endIndex := endIndex x;
     captures := λ i, if Nat.eqb i n then Some t else captures x i |}.

(** The state reached after reading [t], with [s] left. *)
Definition after (t s : string) (x : MatchState) : MatchState :=
  {| rest := s; endIndex := endIndex x + String.length t;
     captures := captures x |}.

Global Arguments after : simpl never.

(** A continuation receives the text its matcher consumed and the state
    reached. *)
Definition Continuation := string → MatchState → option MatchState.

Fixpoint literal (s : string) (x : MatchState) : option MatchState :=
  match s with
  | EmptyString => Some x
  | String c s' =>
      match rest x with
      | String d t => if Ascii.eqb d c then literal s' (advance t x) else None
      | EmptyString => None
      end
  end.

(** RepeatMatcher for an atom, greedy: one more character is tried first,
    and the continuation is tried here only when that fails and the
    minimum is reached. *)
Fixpoint repeat (a : atom) (min : nat) (max : option nat)
    (s : string) (x : MatchState) (k : Continuation) {struct s}
    : option MatchState :=
  let here := k EmptyString x in
  match max with
  | Some 0 => here
  | _ =>
      let stop := match min with 0 => here | S _ => None end in
      match s with
      | EmptyString => stop
      | String c s' =>
          if atomMatches a c then
            match repeat a (pred min) (pred <$> max) s' (advance s' x)
                    (λ t y, k (String c t) y) with
            | Some y => Some y
            | None => stop
            end
          else stop
      end
  end.

Fixpoint matcher (r : regex) (x : MatchState) (k : Continuation)
    : option MatchState :=
  match r with
  | Atom a =>
      match rest x with
      | String c s =>
          if atomMatches a c then k (String c EmptyString) (advance s x)
          else None
      | EmptyString => None
      end
  | Literal s =>
      match literal s x with
      | Some y => k s y
      | None => None
      end
  | Quantified a min max => repeat a min max (rest x) x k
  | Seq r1 r2 =>
      matcher r1 x (λ t1 y, matcher r2 y (λ t2 z, k (t1 +:+ t2) z))
  | Disjunction r1 r2 =>
      match matcher r1 x k with
      | Some y => Some y
      | None => matcher r2 x k
      end
  | Group n r => matcher r x (λ t y, k t (setCapture n t y))
  | AssertStart => if Nat.eqb (endIndex x) 0 then k EmptyString x else None
  | AssertEnd =>
      match rest x with
      | EmptyString => k EmptyString x
      | String _ _ => None
      end
  end.

(** RegExpBuiltinExec without the global and sticky flags: the pattern is
    tried at index 0, then 1, and so on up to the length of the input; the
    first success gives the match array, whose entry 0 is the whole
    match. *)
Fixpoint execFrom (r : regex) (s : string) (i : nat)
    : option (nat → option string) :=
  match matcher r {| rest := s; endIndex := i; captures := λ _, None |}
          (λ t y, Some (setCapture 0 t y)) with
  | Some y => Some (captures y)
  | None =>
      match s with
      | EmptyString => None
      | String _ s' => execFrom r s' (S i)
      end
  end.

Definition exec (r : regex) (str : string) : option (nat → option string) :=
  execFrom r str 0.

(** The groups that take part in every match of a pattern, and those that
    can take part in one. *)
Fixpoint mustCapture (r : regex) : list nat :=
  match r with
  | Seq r1 r2 => mustCapture r1 ++ mustCapture r2
  | Group n r' => n :: mustCapture r'
  | _ => []
  end.

Fixpoint mayCapture (r : regex) : list nat :=
  match r with
  | Seq r1 r2 | Disjunction r1 r2 => mayCapture r1 ++ mayCapture r2
  | Group n r' => n :: mayCapture r'
  | _ => []
  end.

(** The characters that are pattern syntax.  A text free of them, spliced
    into a pattern source, stands for itself. *)
Definition isSyntaxCharacter (c : ascii) : bool :=
  bool_decide (c ∈ ["^"; "$"; "\"; "."; "*"; "+"; "?"; "("; ")"; "[";
                    "]"; "{"; "}"; "|"]%char).

End RegExp.

(** ** Paths

    [path.join] of node:path for POSIX: the non-empty arguments are joined
    with [/] and the result is normalized, which drops empty and [.]
    segments and resolves [..] against the segment before it. *)

Module Path.

Definition isSep (c : ascii) : bool := Ascii.eqb c "/".

(** The segments of a path, the texts between its separators. *)
Fixpoint split (s : string) : list string :=
  match s with
  | EmptyString => [EmptyString]
  | String c s' =>
      if isSep c then EmptyString :: split s'
      else
        match split s' with
        | seg :: segs => String c seg :: segs
        | [] => [String c EmptyString]
        end
  end.

Fixpoint concat (segs : list string) : string :=
  match segs with
  | [] => EmptyString
  | [seg] => seg
  | seg :: segs' => seg +:+ "/" +:+ concat segs'
  end.

(** One segment met by normalizeString; [res] holds the segments kept so
    far, the last one first. *)
Definition normalizeStep (allowAboveRoot : bool) (res : list string)
    (seg : string) : list string :=
  if bool_decide (seg = "") || bool_decide (seg = ".") then res
  else if bool_decide (seg = "..") then
    match res with
    | top :: res' =>
        if bool_decide (top = "..")
        then (if allowAboveRoot then ".." :: res else res)
        else res'
    | [] => if allowAboveRoot then [".."] else []
    end
  else seg :: res.

Definition normalizeString (p : string) (allowAboveRoot : bool) : string :=
  concat (rev (fold_left (normalizeStep allowAboveRoot) (split p) [])).

Fixpoint endsWithSep (s : string) : bool :=
  match s with
  | EmptyString => false
  | String c EmptyString => isSep c
  | String _ s' => endsWithSep s'
  end.

Definition normalize (p : string) : string :=
  match p with
  | EmptyString => "."
  | String c _ =>
      let isAbsolute := isSep c in
      let trailingSeparator := endsWithSep p in
      let q := normalizeString p (negb isAbsolute) in
      match q with
      | EmptyString =>
          if isAbsolute then "/" else if trailingSeparator then "./" else "."
      | _ =>
          let q' := if trailingSeparator then q +:+ "/" else q in
          if isAbsolute then "/" +:+ q' else q'
      end
  end.

(** The arguments joined with [/], empty ones left out; [None] when there
    is nothing to join. *)
Fixpoint joined (args : list string) : option string :=
  match args with
  | [] => None
  | arg :: args' =>
      match arg, joined args' with
      | EmptyString, j => j
      | _, None => Some arg
      | _, Some j => Some (arg +:+ "/" +:+ j)
      end
  end.

Definition join (args : list string) : string :=
  match joined args with
  | None => "."
  | Some j => normalize j
  end.

(** The segments that normalization keeps of a path. *)
Definition kept (p : string) (allow : bool) : list string :=
  rev (fold_left (normalizeStep allow) (split p) []).

(** A text without separator. *)
Definition noSep (seg : string) : Prop :=
  Str.forallb (λ c, negb (isSep c)) seg = true.

(** The text after the last separator. *)
Definition lastSegment (p : string) : string := List.last (split p) "".

(** A single segment that names an entry: not empty, without separator,
    and neither [.] nor [..]. *)
Definition isName (seg : string) : bool :=
  negb (bool_decide (seg = "")) && negb (bool_decide (seg = "."))
  && negb (bool_decide (seg = "..")) && Str.forallb (λ c, negb (isSep c)) seg.

End Path.

(** ** The service *)

Record ContractServiceOptions := {
  opt_dirname : option string;
  opt_configBasename : option string;
  opt_inputBasename : option string;
  opt_metadataBasename : option string;
}.

Record ContractService := {
  dirname : string;
  configBasename : string;
  inputBasename : string;
  metadataBasename : string;
}.

Module DEFAULTS.
Definition DIRNAME : string := "contracts".
Definition CONFIG_BASENAME : string := "configs.json".
Definition INPUT_BASENAME : string := "input.json".
Definition METADATA_BASENAME : string := "metadata.json".
End DEFAULTS.

(** [options?.field ?? DEFAULT] *)
Definition new_ContractService (options : option ContractServiceOptions)
    : ContractService :=
  {| dirname := default DEFAULTS.DIRNAME (options ≫= opt_dirname);
     configBasename :=
       default DEFAULTS.CONFIG_BASENAME (options ≫= opt_configBasename);
     inputBasename :=
       default DEFAULTS.INPUT_BASENAME (options ≫= opt_inputBasename);
     metadataBasename :=
       default DEFAULTS.METADATA_BASENAME (options ≫= opt_metadataBasename) |}.

(** The identity of a contract.  [chainId] is a Number in the source; the
    embedding takes the non-negative integers. *)
Module ContractIdentity.
Record t := { chainId : N; address : string }.
End ContractIdentity.

Record ContractFileMatch := {
  original : string;
  dir : string;
  chainId : Number;
  address : string;
  subpath : string;
}.

Global Instance ContractFileMatch_eq_dec : EqDecision ContractFileMatch.
Proof. solve_decision. Defined.

(** [chainId.toString()], for the chain ids below 2^53: the decimal digits
    of the integer.  From 2^53 upward the Number nearest to an integer can
    differ from it and [toString] gives the shortest digits that read back
    as the Number, in exponent notation from 10^21; the statements that
    depend on the digits are made for chain ids below 2^53. *)
Definition Number_toString (n : N) : string := pretty n.

Import RegExp.

Definition digitRange : atom := ClassRanges [("0", "9")]%char.
Definition hexRange : atom := ClassRanges [("a", "f"); ("0", "9")]%char.

Declare Scope regex_scope.
Delimit Scope regex_scope with regex.
Infix "⋅" := Seq (at level 41, right associativity) : regex_scope.

(** The pattern of [match] is compiled from the source text
    [^(${dirname}\/([0-9]+)\/(0x[a-f0-9]{40}))(\/.*|$)], into which the
    template splices the directory name as it is: the pattern syntax that
    the name holds is read as pattern syntax. *)

(** What follows the directory name inside group 1:
    [\/([0-9]+)\/(0x[a-f0-9]{40})]. *)
Definition identityPattern : regex :=
  (Atom (PatternCharacter "/") ⋅
   Group 2 (Quantified digitRange 1 None) ⋅
   Atom (PatternCharacter "/") ⋅
   Group 3 (Literal "0x" ⋅ Quantified hexRange 40 (Some 40)))%regex.

(** The last group, [(\/.*|$)]. *)
Definition subpathPattern : regex :=
  Group 4
    (Disjunction
       (Atom (PatternCharacter "/") ⋅ Quantified Dot 0 None)
       AssertEnd)%regex.

(** The directory names whose pattern the embedding reads: every character
    is a pattern character, [.] or [|]. *)
Definition embeddedDirname (dirname : string) : bool :=
  Str.forallb
    (λ c, negb (isSyntaxCharacter c) || Ascii.eqb c "." || Ascii.eqb c "|")
    dirname.

(** The alternatives of such a source, the texts between its [|]. *)
Fixpoint alternatives (source : string) : list string :=
  match source with
  | EmptyString => [EmptyString]
  | String c source' =>
      if Ascii.eqb c "|" then EmptyString :: alternatives source'
      else
        match alternatives source' with
        | alt :: alts => String c alt :: alts
        | [] => [String c EmptyString]
        end
  end.

(** One alternative: its terms in sequence, [.] for any character that is
    not a line terminator and a pattern character for itself.  The empty
    alternative matches the empty text. *)
Fixpoint alternative (source : string) : regex :=
  match source with
  | EmptyString => Literal EmptyString
  | String c source' =>
      (Atom (if Ascii.eqb c "." then Dot else PatternCharacter c)
       ⋅ alternative source')%regex
  end.

(** The alternatives in order, the last of them continued by [r]: in the
    source the text after the directory name belongs to the last
    alternative of the name. *)
Fixpoint disjunction (alts : list string) (r : regex) : regex :=
  match alts with
  | [] => r
  | [alt] => (alternative alt ⋅ r)%regex
  | alt :: alts' => Disjunction (alternative alt) (disjunction alts' r)
  end.

(** [new RegExp(...)] on the source text of [match]; [None] for a directory
    name that the embedding does not read. *)
Definition matchPattern (dirname : string) : option regex :=
  if embeddedDirname dirname then
    Some (AssertStart ⋅
          Group 1 (disjunction (alternatives dirname) identityPattern) ⋅
          subpathPattern)%regex
  else None.

(** A directory name without pattern syntax: spliced into the pattern
    source, it stands for itself. *)
Definition plainDirname (svc : ContractService) : bool :=
  Str.forallb (λ c, negb (isSyntaxCharacter c)) (dirname svc).

(** An entry of the match array bound by the destructuring.  The entry of a
    group that took no part in the match is undefined.  Groups 1 and 4 take
    part in every match, and group 3 whenever group 2 does (lemma
    [exec_groups_defined]); [match_] reads the other entries only when that
    of group 2 is defined, so the empty text given here for undefined is
    never read. *)
Definition entry (rmatch : nat → option string) (i : nat) : string :=
  default EmptyString (rmatch i).

(** [match(str)].  [rchainId.startsWith] is a property access, which throws
    a TypeError on undefined. *)
Definition match_ (svc : ContractService) (str : string)
    : Completion (option ContractFileMatch) :=
  match matchPattern (dirname svc) with
  | None => Throw PatternNotEmbedded
  | Some regex =>
      match exec regex str with
      | None => Normal None
      | Some rmatch =>
          let rdir := entry rmatch 1 in
          let raddress := entry rmatch 3 in
          let rsubpath := entry rmatch 4 in
          match rmatch 2 with
          | None => Throw TypeError
          | Some rchainId =>
              Normal (Some
                {| original := str;
                   dir := rdir;
                   chainId :=
                     if Str.startsWith rchainId "0x"
                     then parseInt rchainId 16
                     else parseInt rchainId 10;
                   address := raddress;
                   subpath := rsubpath |})
          end
      end
  end.

Definition getChainDirname (svc : ContractService) (chainId : N) : string :=
  Path.join [dirname svc; Number_toString chainId].

Definition getAddressDirname (svc : ContractService) (options : ContractIdentity.t)
    : string :=
  Path.join [getChainDirname svc (ContractIdentity.chainId options);
             ContractIdentity.address options].

Definition getConfigFilename (svc : ContractService) (identity : ContractIdentity.t)
    : string :=
  Path.join [getAddressDirname svc identity; configBasename svc].

Definition getInputFilename (svc : ContractService) (identity : ContractIdentity.t)
    : string :=
  Path.join [getAddressDirname svc identity; inputBasename svc].

Definition getMetadataFilename (svc : ContractService) (identity : ContractIdentity.t)
    : string :=
  Path.join [getAddressDirname svc identity; metadataBasename svc].

(** ** The store

    The file store as the node:fs calls see it: what is found at each path,
    a file with its content or a directory with the names of its entries.
    The store is keyed by the paths in normal form, relative to the working
    directory or absolute: [contracts/1] for the entry [1] of the directory
    [contracts].  An asynchronous operation takes the store and gives its
    completion (the promise fulfilled or rejected) and the store it
    leaves. *)

Inductive node :=
| File (content : string)
| Directory (entries : list string).

Definition Async (A : Type) : Type :=
  gmap string node → Completion A * gmap string node.

Definition resolve {A} (a : A) : Async A := λ st, (Normal a, st).
Definition reject {A} (e : Error) : Async A := λ st, (Throw e, st).

(** [p.then(f)]: a rejection passes through. *)
Definition andThen {A B} (p : Async A) (f : A → Async B) : Async B :=
  λ st,
    match p st with
    | (Normal a, st') => f a st'
    | (Throw e, st') => (Throw e, st')
    end.

Notation "'await' x ← p ; q" := (andThen p (λ x, q))
  (at level 10, x name, p at level 100, q at level 200, only parsing).

(** A synchronous call inside an asynchronous function: what it throws
    rejects the promise. *)
Definition lift {A} (c : Completion A) : Async A := λ st, (c, st).

Module fs.

(** Path resolution, as the system calls under [readFile] and [readdir] do
    it: the components of the path are looked up one after the other, each
    in the directory that the components before it lead to.  A component
    that is missing gives ENOENT, and a component that is looked up in a
    file gives ENOTDIR.  There are no symbolic links. *)

(** The path, in the store, of the place that the components [cur] lead
    to, from the root or from the working directory. *)
Definition location (absolute : bool) (cur : list string) : string :=
  match cur with
  | [] => if absolute then "/" else "."
  | _ => if absolute then "/" +:+ Path.concat cur else Path.concat cur
  end.

Definition isUp (seg : string) : bool := bool_decide (seg = "..").

(** Looking a component up in the place reached.  The root, the working
    directory and the directories above it are directories; what any other
    place is, the store tells. *)
Definition search (st : gmap string node) (absolute : bool)
    (cur : list string) : Completion unit :=
  if forallb isUp cur then Normal tt
  else
    match st !! location absolute cur with
    | Some (Directory _) => Normal tt
    | Some (File _) => Throw ENOTDIR
    | None => Throw ENOENT
    end.

(** The directory above: the root is above itself, and above the working
    directory the components are [..]. *)
Definition parent (absolute : bool) (cur : list string) : list string :=
  match rev cur with
  | [] => if absolute then [] else [".."]
  | top :: _ => if isUp top then cur ++ [".."] else removelast cur
  end.

(** One component, looked up in the place reached: an empty component (a
    doubled or trailing separator) and [.] stay there, [..] goes up, and a
    name goes to the entry of that name, which has to be there. *)
Definition component (st : gmap string node) (absolute : bool)
    (cur : list string) (seg : string) : Completion (list string) :=
  match search st absolute cur with
  | Throw e => Throw e
  | Normal _ =>
      if bool_decide (seg = "") || bool_decide (seg = ".") then Normal cur
      else if isUp seg then Normal (parent absolute cur)
      else
        match st !! location absolute (cur ++ [seg]) with
        | None => Throw ENOENT
        | Some _ => Normal (cur ++ [seg])
        end
  end.

(** The next component, when the ones before it led somewhere. *)
Definition next (st : gmap string node) (absolute : bool)
    (reached : Completion (list string)) (seg : string)
    : Completion (list string) :=
  match reached with
  | Throw e => Throw e
  | Normal cur => component st absolute cur seg
  end.

Definition walk (st : gmap string node) (absolute : bool)
    (segs : list string) : Completion (list string) :=
  fold_left (next st absolute) segs (Normal []).

(** What the path leads to.  The empty path leads nowhere. *)
Definition find (p : string) (st : gmap string node) : Completion node :=
  match p with
  | EmptyString => Throw ENOENT
  | String c _ =>
      let absolute := Path.isSep c in
      match walk st absolute (Path.split p) with
      | Throw e => Throw e
      | Normal cur =>
          match st !! location absolute cur with
          | None => Throw ENOENT
          | Some found => Normal found
          end
      end
  end.

(** [fs.promises.readFile(p)] *)
Definition readFile (p : string) : Async string :=
  λ st,
    match find p st with
    | Throw e => (Throw e, st)
    | Normal (Directory _) => (Throw EISDIR, st)
    | Normal (File content) => (Normal content, st)
    end.

(** [fs.promises.readdir(p, { withFileTypes: true })], each entry given by
    its name. *)
Definition readdir (p : string) : Async (list string) :=
  λ st,
    match find p st with
    | Throw e => (Throw e, st)
    | Normal (File _) => (Throw ENOTDIR, st)
    | Normal (Directory entries) => (Normal entries, st)
    end.

End fs.

(** Modelled from the spec: the value type of [MatchedChains], declared in
    libs/contracts.match, which is not among the sources; [getChainContracts]
    reads its [contracts], the matches of one chain by address. *)
Record MatchedChain := { contracts : gmap string ContractFileMatch }.

(** Modelled from the spec: the step of [matchContractFiles] for a name
    that resolves; the match is filed under its chain id and then its
    address. *)
Definition fileMatch (chains : gmap Number MatchedChain) (m : ContractFileMatch)
    : gmap Number MatchedChain :=
  let old := default ∅ (contracts <$> chains !! chainId m) in
  <[chainId m := {| contracts := <[address m := m]> old |}]> chains.

(** Modelled from the spec: the loop of [matchContractFiles] over the file
    names.  Each is resolved through [match] of the service, and a name
    that does not resolve is skipped. *)
Fixpoint matchContractFilesFrom (svc : ContractService) (filenames : list string)
    (chains : gmap Number MatchedChain)
    : Completion (gmap Number MatchedChain) :=
  match filenames with
  | [] => Normal chains
  | filename :: filenames' =>
      match match_ svc filename with
      | Throw e => Throw e
      | Normal None => matchContractFilesFrom svc filenames' chains
      | Normal (Some m) =>
          matchContractFilesFrom svc filenames' (fileMatch chains m)
      end
  end.

(** Modelled from the spec: [matchContractFiles] of libs/contracts.match,
    which is not among the sources: the matches of the file names, by chain
    id and address, starting from nothing (the third argument of the calls
    is the empty object). *)
Definition matchContractFiles (filenames : list string) (svc : ContractService)
    : Completion (gmap Number MatchedChain) :=
  matchContractFilesFrom svc filenames ∅.

(** [m'] is filed in [chains] under chain id [n] and address [addr]. *)
Definition filed (chains : gmap Number MatchedChain) (n : Number)
    (addr : string) (m' : ContractFileMatch) : Prop :=
  ∃ mc, chains !! n = Some mc ∧ contracts mc !! addr = Some m'.

(** Modelled from the spec: [fexists] of libs/utils, which is not among the
    sources: an existence check, which reads no content and changes
    nothing. *)
Definition fexists (filename : string) : Async bool :=
  λ st, (Normal (bool_decide (is_Some (st !! filename))), st).

Section Store.

(** The values of JSON, with [JSON.parse] and [JSON.stringify(v, null, 2)]
    of the platform. *)
Variable JSONValue : Type.
Variable JSON_parse : string → option JSONValue.
Variable JSON_stringify_pretty : JSONValue → string.

(** [buf.toString('utf-8')] *)
Variable Buffer_toString : string → string.

(** [fabs] of libs/utils, which is not among the sources: the absolute
    name of a file. *)
Variable fabs : string → string.

(** Modelled from the spec: [writeJsonFile] of libs/utils, which is not
    among the sources.  It writes the value as pretty-printed JSON,
    replacing what the file held; on a failure of the underlying storage
    ([fault]) it fails with WriteError and the write does not happen. *)
Definition writeJsonFile (fault : bool) (filename : string) (value : JSONValue)
    : Async unit :=
  λ st,
    if fault then (Throw WriteError, st)
    else (Normal tt, <[filename := File (JSON_stringify_pretty value)]> st).

Definition parseJSON (text : string) : Async JSONValue :=
  match JSON_parse text with
  | Some v => resolve v
  | None => reject SyntaxError
  end.

Definition getChainContracts (svc : ContractService) (chainId : N)
    : Async (gmap string ContractFileMatch) :=
  let chainDir := getChainDirname svc chainId in
  await dirs ← fs.readdir chainDir;
  let dirnames := (λ name, Path.join [chainDir; name]) <$> dirs in
  await matches ← lift (matchContractFiles dirnames svc);
  resolve (default ∅ (contracts <$> matches !! Finite chainId)).

(** [fault] tells whether the underlying storage fails this write. *)
Definition saveMetadata (fault : bool) (svc : ContractService)
    (identity : ContractIdentity.t) (metadata : JSONValue) : Async unit :=
  writeJsonFile fault (getMetadataFilename svc identity) metadata.

Definition hasMetadata (svc : ContractService) (identity : ContractIdentity.t)
    : Async bool :=
  fexists (getMetadataFilename svc identity).

Definition getConfig (svc : ContractService) (identity : ContractIdentity.t)
    : Async JSONValue :=
  let configFilename := getConfigFilename svc identity in
  await buf ← fs.readFile (fabs configFilename);
  await text ← resolve (Buffer_toString buf);
  parseJSON text.

Definition getInput (svc : ContractService) (identity : ContractIdentity.t)
    : Async JSONValue :=
  let inputFilename := getInputFilename svc identity in
  await buf ← fs.readFile (fabs inputFilename);
  await text ← resolve (Buffer_toString buf);
  parseJSON text.

End Store.

Arguments writeJsonFile {JSONValue} JSON_stringify_pretty fault filename value.
Arguments parseJSON {JSONValue} JSON_parse text.
Arguments saveMetadata {JSONValue} JSON_stringify_pretty fault svc identity
  metadata.
Arguments getConfig {JSONValue} JSON_parse Buffer_toString fabs svc identity.
Arguments getInput {JSONValue} JSON_parse Buffer_toString fabs svc identity.

(** ** The accepted shape, in the words of the specification

    [<rootDirName>/<chainIdSegment>/<addressSegment>[/<anything>]], where the
    chain id segment is a decimal or a 0x-prefixed hexadecimal integer and
    the address segment is 0x followed by 40 lowercase hexadecimal digits. *)

Module Shape.

Definition isDecimalDigit (c : ascii) : bool :=
  (48 <=? N_of_ascii c)%N && (N_of_ascii c <=? 57)%N.

Definition isLowerHexDigit (c : ascii) : bool :=
  isDecimalDigit c || (97 <=? N_of_ascii c)%N && (N_of_ascii c <=? 102)%N.

Definition isHexDigit (c : ascii) : bool :=
  isLowerHexDigit c || (65 <=? N_of_ascii c)%N && (N_of_ascii c <=? 70)%N.

Definition nonEmpty (s : string) : bool :=
  match s with EmptyString => false | String _ _ => true end.

Definition isDecimalInteger (seg : string) : bool :=
  nonEmpty seg && Str.forallb isDecimalDigit seg.

Definition isHexInteger (seg : string) : bool :=
  match seg with
  | String "0" (String "x" h) => nonEmpty h && Str.forallb isHexDigit h
  | _ => false
  end.

Definition isAddressSegment (seg : string) : bool :=
  match seg with
  | String "0" (String "x" h) =>
      Nat.eqb (String.length h) 40 && Str.forallb isLowerHexDigit h
  | _ => false
  end.

Definition notSep (c : ascii) : bool := negb (Path.isSep c).

(** A segment ends at the next [/] or at the end of the text, so what
    follows the address segment is nothing or [/] and anything. *)
Definition accepted (rootDirName s : string) : bool :=
  match Str.stripPrefix rootDirName s with
  | Some (String "/" s2) =>
      let chainIdSegment := Str.takeWhile notSep s2 in
      match Str.dropWhile notSep s2 with
      | String "/" s4 =>
          let addressSegment := Str.takeWhile notSep s4 in
          (isDecimalInteger chainIdSegment || isHexInteger chainIdSegment)
          && isAddressSegment addressSegment
      | _ => false
      end
  | _ => false
  end.

End Shape.

(** ** What the pattern reads, written directly

    For a directory name [d] without pattern syntax the pattern is
    [plainPattern d], in which the name is a run of pattern characters.
    [pathParts d str] reads [str] the way that pattern does, without the
    matcher: after [d] and a [/], the longest run of digits, a [/], [0x] and
    exactly 40 characters of [a-f0-9], then the end of the text or a [/].
    It gives the digits, the 40 characters and what follows them. *)

Definition plainPattern (d : string) : regex :=
  (AssertStart ⋅ Group 1 (Literal d ⋅ identityPattern) ⋅ subpathPattern)%regex.

Definition pathParts (d str : string) : option (string * string * string) :=
  s1 ← Str.stripPrefix d str;
  s2 ← Str.stripPrefix "/" s1;
  let ds := Str.takeWhile (atomMatches digitRange) s2 in
  if Shape.nonEmpty ds then
    s4 ← Str.stripPrefix "/" (Str.dropWhile (atomMatches digitRange) s2);
    s5 ← Str.stripPrefix "0x" s4;
    let hx := Str.take 40 s5 in
    let after := Str.drop 40 s5 in
    if Nat.eqb (String.length hx) 40 && Str.forallb (atomMatches hexRange) hx
    then
      match after with
      | EmptyString => Some (ds, hx, after)
      | String c _ => if Path.isSep c then Some (ds, hx, after) else None
      end
    else None
  else None.

(** The text before the first line terminator. *)
Definition upToLineTerminator (s : string) : string :=
  Str.takeWhile (λ c, negb (isLineTerminator c)) s.

Definition matchOfParts (d str : string) (p : string * string * string)
    : ContractFileMatch :=
  let '(ds, hx, after) := p in
  {| original := str;
     dir := d +:+ "/" +:+ ds +:+ "/" +:+ "0x" +:+ hx;
     chainId := parseInt ds 10;
     address := "0x" +:+ hx;
     subpath := upToLineTerminator after |}.

(** The value of a text of decimal digits, the most significant first. *)
Fixpoint decimalValueFrom (acc : N) (ds : string) : N :=
  match ds with
  | EmptyString => acc
  | String c ds' => decimalValueFrom (acc * 10 + (N_of_ascii c - 48))%N ds'
  end.

Definition decimalValue (ds : string) : N := decimalValueFrom 0 ds.

(** ** Sample data *)

Module Sample.

(** The service built with no options: [new ContractService()]. *)
Definition service : ContractService := new_ContractService None.

Definition address : string := "0xdeadbeefdeadbeefdeadbeefdeadbeefdeadbeef".

Definition ADDRESS : string := "0xDEADBEEFDEADBEEFDEADBEEFDEADBEEFDEADBEEF".

Definition LF : string := String "010" EmptyString.
Definition CR : string := String "013" EmptyString.

Definition identity : ContractIdentity.t :=
  {| ContractIdentity.chainId := 1; ContractIdentity.address := address |}.

(** The same identity with the address in upper case. *)
Definition IDENTITY : ContractIdentity.t :=
  {| ContractIdentity.chainId := 1; ContractIdentity.address := ADDRESS |}.

(** A JSON parser that knows the empty object only. *)
Definition parse (text : string) : option unit :=
  if decide (text = "{}") then Some tt else None.

(** A store whose config file for [identity] is not JSON. *)
Definition configStore : gmap string node :=
  {[ "contracts" := Directory ["1"];
     "contracts/1" :=
       Directory ["0xdeadbeefdeadbeefdeadbeefdeadbeefdeadbeef"];
     "contracts/1/0xdeadbeefdeadbeefdeadbeefdeadbeefdeadbeef" :=
       Directory ["configs.json"];
     "contracts/1/0xdeadbeefdeadbeefdeadbeefdeadbeefdeadbeef/configs.json"
     := File "{" ]}.

(** A store that holds the metadata of [identity] and no other file. *)
Definition store : gmap string node :=
  {[ "contracts" := Directory ["1"];
     "contracts/1" :=
       Directory ["0xdeadbeefdeadbeefdeadbeefdeadbeefdeadbeef"];
     "contracts/1/0xdeadbeefdeadbeefdeadbeefdeadbeefdeadbeef" :=
       Directory ["metadata.json"];
     "contracts/1/0xdeadbeefdeadbeefdeadbeefdeadbeefdeadbeef/metadata.json"
     := File "{}" ]}.

End Sample.

(** ** [getContracts]

    [Promise.all] of the promises made from the entries of the root
    directory.  The promises run against the store in the order of the list
    (those made here only read it).  The result is fulfilled with all the
    values when every promise is fulfilled, and is rejected otherwise with
    the error of the rejected promise that settles first: [settled] gives
    the indices of the promises in the order in which they settle. *)

Fixpoint runAll {A} (ps : list (Async A)) (st : gmap string node)
    : list (Completion A) * gmap string node :=
  match ps with
  | [] => ([], st)
  | p :: ps' =>
      let '(r, st1) := p st in
      let '(rs, st2) := runAll ps' st1 in
      (r :: rs, st2)
  end.

Definition rejection {A} (r : Completion A) : option Error :=
  match r with Throw e => Some e | Normal _ => None end.

Definition fulfilment {A} (r : Completion A) : option A :=
  match r with Normal a => Some a | Throw _ => None end.

Definition firstRejection {A} (settled : list nat) (rs : list (Completion A))
    : option Error :=
  match omap (λ i, rs !! i ≫= rejection) settled with
  | e :: _ => Some e
  | [] => head (omap rejection rs)
  end.

Definition Promise_all {A} (settled : list nat) (ps : list (Async A))
    : Async (list A) :=
  λ st,
    let '(rs, st') := runAll ps st in
    match firstRejection settled rs with
    | Some e => (Throw e, st')
    | None => (Normal (omap fulfilment rs), st')
    end.

(** The function mapped over the chain entries: the paths of the entries
    of one chain directory. *)
Definition addrDirnamesOf (rootdir : string) (chainDir : string)
    : Async (list string) :=
  let chainDirname := Path.join [rootdir; chainDir] in
  await addrDirs ← fs.readdir chainDirname;
  let addrDirnames :=
    (λ addrDir, Path.join [chainDirname; addrDir]) <$> addrDirs in
  resolve addrDirnames.

Definition getContracts (settled : list nat) (svc : ContractService)
    : Async (gmap Number MatchedChain) :=
  let rootdir := dirname svc in
  await chainDirs ← fs.readdir rootdir;
  await chainAddrDirnames ←
    Promise_all settled (addrDirnamesOf rootdir <$> chainDirs);
  let addressDirnames := mjoin chainAddrDirnames in
  lift (matchContractFiles addressDirnames svc).

(** ** Vocabulary of the further properties *)

(** A path that normalization leaves as it is: names joined by [/], after
    an optional leading [/]. *)
Definition isNormalPath (p : string) : bool :=
  match Path.split p with
  | EmptyString :: seg :: segs => forallb Path.isName (seg :: segs)
  | segs => forallb Path.isName segs
  end.

(** The segment that stands for the root in the segments of an absolute
    path, and whether normalization may keep [..] at the start (it may in a
    relative path). *)
Definition rootMarker (a : string) : list string :=
  match a with
  | EmptyString => [EmptyString]
  | String c _ => if Path.isSep c then [EmptyString] else []
  end.

Definition allowAbove (a : string) : bool :=
  match a with
  | EmptyString => false
  | String c _ => negb (Path.isSep c)
  end.

Definition noLineTerminator (s : string) : bool :=
  Str.forallb (λ c, negb (isLineTerminator c)) s.

(** ** Further sample data *)

Module Sample2.

(** A service whose directory name ends with a separator. *)
Definition slashService : ContractService :=
  new_ContractService
    (Some {| opt_dirname := Some "contracts/";
             opt_configBasename := None;
             opt_inputBasename := None;
             opt_metadataBasename := None |}).

(** A store with the root directory, one chain directory that holds an
    address directory, an address directory in upper case and a file, and a
    file beside the chain directory. *)
Definition tree : gmap string node :=
  {[ "contracts" := Directory ["1"; "README"];
     "contracts/1" :=
       Directory ["0xdeadbeefdeadbeefdeadbeefdeadbeefdeadbeef";
                  "0xDEADBEEFDEADBEEFDEADBEEFDEADBEEFDEADBEEF";
                  "notes.txt"];
     "contracts/1/0xdeadbeefdeadbeefdeadbeefdeadbeefdeadbeef" := Directory [];
     "contracts/1/0xDEADBEEFDEADBEEFDEADBEEFDEADBEEFDEADBEEF" := Directory [];
     "contracts/1/notes.txt" := File "";
     "contracts/README" := File "contracts by chain id" ]}.

(** A store in which the name of the root directory is that of a file. *)
Definition fileRoot : gmap string node :=
  {[ "contracts" := File "" ]}.

(** A store with an empty root directory. *)
Definition emptyRoot : gmap string node :=
  {[ "contracts" := Directory [] ]}.

(** The absolute name of a file, for a working directory [/srv]. *)
Definition fabs (p : string) : string := "/srv/" +:+ p.

(** A store under [/srv]: chain 1 holds the config (which is not JSON) and
    the input of [Sample.identity], and the name of chain 2 is that of a
    file. *)
Definition served : gmap string node :=
  {[ "/srv" := Directory ["contracts"];
     "/srv/contracts" := Directory ["1"; "2"];
     "/srv/contracts/1" :=
       Directory ["0xdeadbeefdeadbeefdeadbeefdeadbeefdeadbeef"];
     "/srv/contracts/1/0xdeadbeefdeadbeefdeadbeefdeadbeefdeadbeef" :=
       Directory ["configs.json"; "input.json"];
     "/srv/contracts/1/0xdeadbeefdeadbeefdeadbeefdeadbeefdeadbeef/configs.json"
     := File "{";
     "/srv/contracts/1/0xdeadbeefdeadbeefdeadbeefdeadbeefdeadbeef/input.json"
     := File "{}";
     "/srv/contracts/2" := File "" ]}.

(** The identities of [Sample.address] on chains 2 and 3. *)
Definition identity2 : ContractIdentity.t :=
  {| ContractIdentity.chainId := 2;
     ContractIdentity.address := Sample.address |}.

Definition identity3 : ContractIdentity.t :=
  {| ContractIdentity.chainId := 3;
     ContractIdentity.address := Sample.address |}.

(** Services whose directory name holds pattern syntax. *)
Definition serviceOf (dirname : string) : ContractService :=
  new_ContractService
    (Some {| opt_dirname := Some dirname;
             opt_configBasename := None;
             opt_inputBasename := None;
             opt_metadataBasename := None |}).

Definition dotService : ContractService := serviceOf "a.b".

Definition barService : ContractService := serviceOf "a|b".

(** A service whose root directory is the entry [y|.|z] of the directory
    [x], and a store in which chain 1 of that root holds one address
    directory. *)
Definition altService : ContractService := serviceOf "x/y|.|z".

Definition altTree : gmap string node :=
  {[ "x" := Directory ["y|.|z"];
     "x/y|.|z" := Directory ["1"];
     "x/y|.|z/1" :=
       Directory ["0xdeadbeefdeadbeefdeadbeefdeadbeefdeadbeef"];
     "x/y|.|z/1/0xdeadbeefdeadbeefdeadbeefdeadbeefdeadbeef" := Directory [] ]}.

End Sample2.

(** * Properties *)

(** ** Strings *)

Module StrFacts.
Import Str.

Lemma app_nil_l (s : string) : "" +:+ s = s.
Proof. reflexivity. Qed.

Lemma app_cons (c : ascii) (s t : string) :
  String c s +:+ t = String c (s +:+ t).
Proof. reflexivity. Qed.

Lemma app_nil_r (s : string) : s +:+ "" = s.
Proof. induction s as [|c s IH]; [done|]. by rewrite app_cons, IH. Qed.

Lemma app_assoc (s t u : string) : (s +:+ t) +:+ u = s +:+ t +:+ u.
Proof. induction s as [|c s IH]; [done|]. by rewrite !app_cons, IH. Qed.

Lemma length_app (s t : string) :
  String.length (s +:+ t) = String.length s + String.length t.
Proof. induction s as [|c s IH]; [done|]. rewrite app_cons. simpl. by rewrite IH. Qed.

Lemma app_inv_head (s t u : string) : s +:+ t = s +:+ u → t = u.
Proof.
  induction s as [|c s IH]; [done|]. rewrite !app_cons. intros [= H]. auto.
Qed.

Lemma stripPrefix_app (p r : string) : stripPrefix p (p +:+ r) = Some r.
Proof.
  induction p as [|c p IH]; [done|].
  rewrite app_cons. simpl. by rewrite Ascii.eqb_refl.
Qed.

Lemma stripPrefix_Some (p s r : string) :
  stripPrefix p s = Some r → s = p +:+ r.
Proof.
  revert s. induction p as [|c p IH]; intros s; simpl.
  - by intros [= ->].
  - destruct s as [|d s]; [done|].
    destruct (Ascii.eqb_spec d c) as [->|]; [|done].
    intros H. rewrite app_cons. f_equal. auto.
Qed.

Lemma startsWith_stripPrefix (s p : string) :
  startsWith s p = bool_decide (is_Some (stripPrefix p s)).
Proof.
  revert s. induction p as [|c p IH]; intros s; simpl.
  - done.
  - destruct s as [|d s]; [done|].
    destruct (Ascii.eqb d c); simpl; [apply IH|done].
Qed.

Lemma takeWhile_dropWhile (f : ascii → bool) (s : string) :
  takeWhile f s +:+ dropWhile f s = s.
Proof.
  induction s as [|c s IH]; [done|]. simpl.
  destruct (f c); [|done]. by rewrite app_cons, IH.
Qed.

Lemma forallb_takeWhile (f : ascii → bool) (s : string) :
  forallb f (takeWhile f s) = true.
Proof.
  induction s as [|c s IH]; [done|]. simpl.
  destruct (f c) eqn:E; [|done]. simpl. by rewrite E.
Qed.

Lemma dropWhile_head (f : ascii → bool) (s : string) (c : ascii) (t : string) :
  dropWhile f s = String c t → f c = false.
Proof.
  induction s as [|d s IH]; [done|]. simpl.
  destruct (f d) eqn:E; [done|]. by intros [= <- _].
Qed.

Lemma takeWhile_app (f : ascii → bool) (s : string) (c : ascii) (t : string) :
  forallb f s = true → f c = false →
  takeWhile f (s +:+ String c t) = s ∧ dropWhile f (s +:+ String c t) = String c t.
Proof.
  intros Hs Hc. induction s as [|d s IH].
  - rewrite app_nil_l. simpl. by rewrite Hc.
  - simpl in Hs. apply andb_prop in Hs as [Hd Hs].
    rewrite app_cons. simpl. rewrite Hd.
    destruct (IH Hs) as [-> ->]. done.
Qed.

Lemma takeWhile_all (f : ascii → bool) (s : string) :
  forallb f s = true → takeWhile f s = s ∧ dropWhile f s = "".
Proof.
  induction s as [|d s IH]; [done|]. simpl.
  intros [Hd Hs]%andb_prop. rewrite Hd.
  destruct (IH Hs) as [-> ->]. done.
Qed.

Lemma forallb_impl (f g : ascii → bool) (s : string) :
  (∀ c, f c = true → g c = true) → forallb f s = true → forallb g s = true.
Proof.
  intros Hfg. induction s as [|c s IH]; [done|]. simpl.
  intros [Hc Hs]%andb_prop. by rewrite (Hfg c Hc), IH.
Qed.

Lemma take_drop (n : nat) (s : string) : take n s +:+ drop n s = s.
Proof.
  revert s. induction n as [|n IH]; intros [|c s]; try done.
  simpl. by rewrite app_cons, IH.
Qed.

Lemma take_app_length (s t : string) : take (String.length s) (s +:+ t) = s.
Proof.
  induction s as [|c s IH]; [done|].
  rewrite app_cons. simpl. by rewrite IH.
Qed.

Lemma drop_app_length (s t : string) : drop (String.length s) (s +:+ t) = t.
Proof.
  induction s as [|c s IH]; [done|].
  rewrite app_cons. simpl. by rewrite IH.
Qed.

End StrFacts.

(** ** The matcher *)

Module RegExpFacts.
Import Str StrFacts.

Lemma after_nil (s : string) (x : MatchState) :
  rest x = s → after "" s x = x.
Proof.
  intros <-. destruct x as [s i c]. unfold after. simpl. f_equal. lia.
Qed.

Lemma after_advance (c : ascii) (t s s' : string) (x : MatchState) :
  after t s (advance s' x) = after (String c t) s x.
Proof. unfold after, advance. simpl. f_equal. lia. Qed.

Lemma literal_spec (s : string) (x : MatchState) :
  literal s x = (λ t, after s t x) <$> stripPrefix s (rest x).
Proof.
  revert x. induction s as [|c s IH]; intros x; simpl.
  - by rewrite after_nil.
  - destruct (rest x) as [|d t] eqn:E; [done|].
    destruct (Ascii.eqb d c); [|done].
    rewrite IH. simpl. destruct (stripPrefix s t); [|done].
    simpl. by rewrite (after_advance c).
Qed.

(** A greedy quantifier without maximum in front of a continuation that
    refuses every state whose next character the atom accepts: only the
    longest run can succeed. *)
Lemma repeat_longest (a : atom) (min : nat) (s : string) (x : MatchState)
    (k : Continuation) :
  rest x = s →
  (∀ t y c r, rest y = String c r → atomMatches a c = true → k t y = None) →
  repeat a min None s x k =
    let ds := takeWhile (atomMatches a) s in
    if min <=? String.length ds
    then k ds (after ds (dropWhile (atomMatches a) s) x)
    else None.
Proof.
  revert min x k. induction s as [|c s IH]; intros min x k Hx Hk.
  - simpl. destruct min; [|done]. simpl. by rewrite after_nil.
  - simpl. destruct (atomMatches a c) eqn:Hc.
    + rewrite IH; [|done|]; last first.
      { intros t y c' r Hy Hc'. by apply (Hk _ y c' r). }
      simpl. rewrite (after_advance c).
      assert (Hstop : match min with 0 => k "" x | S _ => None end = None).
      { destruct min; [|done]. by apply (Hk _ x c s). }
      rewrite Hstop.
      replace (Nat.pred min <=? String.length (takeWhile (atomMatches a) s))
        with (min <=? S (String.length (takeWhile (atomMatches a) s))).
      2:{ by destruct min. }
      destruct (min <=? _); [|done]. by destruct (k (String c _) _).
    + simpl. destruct min; [|done]. simpl. by rewrite after_nil.
Qed.

(** A greedy quantifier without maximum in front of a continuation that
    accepts every state: the longest run is taken. *)
Lemma repeat_all (a : atom) (s : string) (x : MatchState) (k : Continuation) :
  rest x = s →
  (∀ t y, is_Some (k t y)) →
  repeat a 0 None s x k =
    let ds := takeWhile (atomMatches a) s in
    k ds (after ds (dropWhile (atomMatches a) s) x).
Proof.
  revert x k. induction s as [|c s IH]; intros x k Hx Hk.
  - simpl. by rewrite after_nil.
  - simpl. destruct (atomMatches a c) eqn:Hc.
    + rewrite IH; [|done|by intros; apply Hk].
      simpl. rewrite (after_advance c).
      by destruct (Hk (String c (takeWhile (atomMatches a) s))
        (after (String c (takeWhile (atomMatches a) s))
           (dropWhile (atomMatches a) s) x)) as [y ->].
    + simpl. by rewrite after_nil.
Qed.

(** A quantifier [{n}]: exactly [n] characters, all accepted. *)
Lemma repeat_exact (a : atom) (n : nat) (s : string) (x : MatchState)
    (k : Continuation) :
  rest x = s →
  repeat a n (Some n) s x k =
    if Nat.eqb (String.length (take n s)) n && forallb (atomMatches a) (take n s)
    then k (take n s) (after (take n s) (drop n s) x)
    else None.
Proof.
  revert s x k. induction n as [|n IH]; intros s x k Hx.
  - destruct s; simpl; by rewrite after_nil.
  - destruct s as [|c s]; [done|]. simpl.
    destruct (atomMatches a c) eqn:Hc; [|by rewrite andb_false_r].
    rewrite IH; [|done]. simpl. rewrite (after_advance c).
    destruct (_ && _); [|done]. by destruct (k (String c _) _).
Qed.

(** Captures along a match: a matcher that succeeds has called its
    continuation on a state in which the captures of the groups outside the
    pattern are as they were, no capture is lost, and every group that
    takes part in every match of the pattern is captured. *)
Lemma repeat_captures (a : atom) (min : nat) (max : option nat) (s : string)
    (x : MatchState) (k : Continuation) (y : MatchState) :
  repeat a min max s x k = Some y →
  ∃ t y', captures y' = captures x ∧ k t y' = Some y.
Proof.
  revert min max x k. induction s as [|c s IH]; intros min max x k H.
  - simpl in H. destruct max as [[|m]|], min; try done; eauto.
  - assert (Hmore :
      match repeat a (pred min) (pred <$> max) s (advance s x)
              (λ t y, k (String c t) y) with
      | Some y0 => Some y0
      | None => match min with 0 => k "" x | S _ => None end
      end = Some y →
      ∃ t y', captures y' = captures x ∧ k t y' = Some y).
    { destruct (repeat a (pred min) (pred <$> max) s (advance s x) _) eqn:E.
      - intros [= ->]. apply IH in E as (t & y' & Hc & Hk). eauto.
      - destruct min; [eauto|done]. }
    simpl in H.
    destruct max as [[|m]|]; [eauto| |];
      (destruct (atomMatches a c); [by apply Hmore|]);
      destruct min; try done; eauto.
Qed.

Lemma literal_captures (s : string) (x y : MatchState) :
  literal s x = Some y → captures y = captures x.
Proof.
  rewrite literal_spec. destruct (stripPrefix s (rest x)); [|done].
  by intros [= <-].
Qed.

Lemma matcher_captures (r : regex) (x : MatchState) (k : Continuation)
    (y : MatchState) :
  matcher r x k = Some y →
  ∃ t y',
    k t y' = Some y
    ∧ (∀ i, is_Some (captures x i) → is_Some (captures y' i))
    ∧ (∀ i, i ∈ mustCapture r → is_Some (captures y' i))
    ∧ (∀ i, i ∉ mayCapture r → captures y' i = captures x i).
Proof.
  revert x k y.
  induction r as [a|s|a min max|r1 IH1 r2 IH2|r1 IH1 r2 IH2|n r IH| |];
    intros x k y; cbn [matcher mustCapture mayCapture].
  - destruct (rest x) as [|c s]; [done|].
    destruct (atomMatches a c); [|done]. intros H.
    exists (String c ""), (advance s x).
    split; [done|]. split; [done|]. split; [|done].
    intros i Hi. by apply elem_of_nil in Hi.
  - destruct (literal s x) as [y0|] eqn:E; [|done]. intros H.
    apply literal_captures in E. exists s, y0. rewrite E.
    split; [done|]. split; [done|]. split; [|done].
    intros i Hi. by apply elem_of_nil in Hi.
  - intros (t & y' & Hc & Hk)%repeat_captures. exists t, y'. rewrite Hc.
    split; [done|]. split; [done|]. split; [|done].
    intros i Hi. by apply elem_of_nil in Hi.
  - intros (t1 & y1 & Hk1 & Hmono1 & Hmust1 & Hmay1)%IH1.
    apply IH2 in Hk1 as (t2 & y2 & Hk2 & Hmono2 & Hmust2 & Hmay2).
    exists (t1 +:+ t2), y2. split; [done|]. split; [by auto|]. split.
    + intros i [Hi|Hi]%elem_of_app; auto.
    + intros i [Hi1 Hi2]%not_elem_of_app. by rewrite Hmay2, Hmay1.
  - destruct (matcher r1 x k) as [y0|] eqn:E.
    + intros [= ->].
      apply IH1 in E as (t & y' & Hk & Hmono & _ & Hmay).
      exists t, y'. split; [done|]. split; [done|]. split.
      * intros i Hi. by apply elem_of_nil in Hi.
      * intros i [Hi _]%not_elem_of_app. auto.
    + intros (t & y' & Hk & Hmono & _ & Hmay)%IH2.
      exists t, y'. split; [done|]. split; [done|]. split.
      * intros i Hi. by apply elem_of_nil in Hi.
      * intros i [_ Hi]%not_elem_of_app. auto.
  - intros (t & y1 & Hk & Hmono & Hmust & Hmay)%IH.
    exists t, (setCapture n t y1). split; [done|].
    unfold setCapture. cbn [captures]. split; [|split].
    + intros i Hi. destruct (Nat.eqb i n); [by eexists|auto].
    + intros i [->|Hi]%elem_of_cons.
      * rewrite Nat.eqb_refl. by eexists.
      * destruct (Nat.eqb i n); [by eexists|auto].
    + intros i [Hn Hi]%not_elem_of_cons.
      apply Nat.eqb_neq in Hn. rewrite Hn. auto.
  - destruct (Nat.eqb (endIndex x) 0); [|done]. intros H.
    exists "", x. split; [done|]. split; [done|]. split; [|done].
    intros i Hi. by apply elem_of_nil in Hi.
  - destruct (rest x); [|done]. intros H.
    exists "", x. split; [done|]. split; [done|]. split; [|done].
    intros i Hi. by apply elem_of_nil in Hi.
Qed.

(** A pattern that starts with [^] matches at index 0 or nowhere. *)
Lemma execFrom_AssertStart (r : regex) (s : string) (i : nat) :
  execFrom (Seq AssertStart r) s (S i) = None.
Proof.
  revert i. induction s as [|c s IH]; intros i; simpl; [done|]. apply IH.
Qed.

End RegExpFacts.

Module MatchFacts.
Import Str StrFacts RegExpFacts.

Lemma exec_AssertStart (r : regex) (str : string) :
  exec (Seq AssertStart r) str =
    captures <$>
      matcher r {| rest := str; endIndex := 0; captures := λ _, None |}
        (λ t y, Some (setCapture 0 t y)).
Proof.
  unfold exec. destruct str as [|c s]; simpl.
  - by destruct (matcher r _ _).
  - rewrite execFrom_AssertStart. by destruct (matcher r _ _).
Qed.

Lemma digit_not_sep (c : ascii) :
  atomMatches digitRange c = true → Ascii.eqb c "/" = false.
Proof. destruct (Ascii.eqb_spec c "/") as [->|]; [discriminate|done]. Qed.

Lemma stripPrefix_sep (c : ascii) (s : string) :
  stripPrefix "/" (String c s) = if Ascii.eqb c "/" then Some s else None.
Proof. reflexivity. Qed.

Ltac state_simpl :=
  unfold after, advance, setCapture; cbn [rest captures endIndex].

Lemma exec_plainPattern (d str : string) :
  match pathParts d str with
  | None => exec (plainPattern d) str = None
  | Some (ds, hx, aft) =>
      ∃ rmatch,
        exec (plainPattern d) str = Some rmatch
        ∧ rmatch 1 = Some (d +:+ "/" +:+ ds +:+ "/" +:+ "0x" +:+ hx)
        ∧ rmatch 2 = Some ds
        ∧ rmatch 3 = Some ("0x" +:+ hx)
        ∧ rmatch 4 = Some (upToLineTerminator aft)
  end.
Proof.
  unfold plainPattern, identityPattern, subpathPattern.
  rewrite exec_AssertStart.
  unfold pathParts.
  cbn [matcher]. rewrite literal_spec. cbn [rest].
  destruct (stripPrefix d str) as [s1|] eqn:E1; [|reflexivity].
  cbn [fmap option_fmap option_map mbind option_bind]. state_simpl.
  destruct s1 as [|c s2]; [reflexivity|].
  rewrite stripPrefix_sep. cbn [atomMatches].
  destruct (Ascii.eqb_spec c "/") as [->|_]; [|reflexivity].
  cbn [mbind option_bind].
  rewrite repeat_longest; [|done|]; last first.
  { intros t y c r Hy Hc. rewrite Hy. by rewrite (digit_not_sep c Hc). }
  cbv zeta.
  destruct (takeWhile (atomMatches digitRange) s2) as [|c1 ds] eqn:Eds;
    [reflexivity|].
  cbn [String.length Nat.leb Shape.nonEmpty]. state_simpl.
  destruct (dropWhile (atomMatches digitRange) s2) as [|c0 s4] eqn:Es3;
    [reflexivity|].
  rewrite stripPrefix_sep.
  destruct (Ascii.eqb_spec c0 "/") as [->|_]; [|reflexivity].
  cbn [mbind option_bind].
  rewrite literal_spec. cbn [rest].
  destruct (stripPrefix "0x" s4) as [s5|] eqn:E5; [|reflexivity].
  cbn [fmap option_fmap option_map mbind option_bind].
  rewrite repeat_exact; [|done].
  destruct (_ && _); [|reflexivity]. state_simpl.
  destruct (drop 40 s5) as [|c2 aft] eqn:Eaft.
  - eexists. split; [reflexivity|]. done.
  - destruct (Ascii.eqb_spec c2 "/") as [->|Hne].
    + rewrite repeat_all; [|done|by eauto].
      eexists. split; [reflexivity|]. done.
    + unfold Path.isSep. destruct (Ascii.eqb_spec c2 "/"); [done|]. reflexivity.
Qed.

Lemma digitRange_spec (c : ascii) :
  atomMatches digitRange c = Shape.isDecimalDigit c.
Proof. unfold Shape.isDecimalDigit. simpl. apply orb_false_r. Qed.

Lemma hexRange_spec (c : ascii) :
  atomMatches hexRange c = Shape.isLowerHexDigit c.
Proof.
  unfold Shape.isLowerHexDigit, Shape.isDecimalDigit. simpl.
  rewrite orb_false_r. apply orb_comm.
Qed.

Lemma nonEmpty_spec (s : string) : Shape.nonEmpty s = true ↔ s ≠ "".
Proof. by destruct s. Qed.

(** What [pathParts] finds, as a decomposition of the text. *)
Lemma pathParts_Some (d str ds hx aft : string) :
  pathParts d str = Some (ds, hx, aft) →
  str = d +:+ "/" +:+ ds +:+ "/" +:+ "0x" +:+ hx +:+ aft
  ∧ ds ≠ ""
  ∧ forallb (atomMatches digitRange) ds = true
  ∧ String.length hx = 40
  ∧ forallb (atomMatches hexRange) hx = true
  ∧ (aft = "" ∨ ∃ t, aft = String "/" t).
Proof.
  unfold pathParts. intros H.
  destruct (stripPrefix d str) as [s1|] eqn:E1; [|done].
  apply stripPrefix_Some in E1 as ->. cbn [mbind option_bind] in H.
  destruct s1 as [|c s2]; [done|]. rewrite stripPrefix_sep in H.
  destruct (Ascii.eqb_spec c "/") as [->|]; [|done].
  cbn [mbind option_bind] in H.
  pose proof (forallb_takeWhile (atomMatches digitRange) s2) as Hds.
  pose proof (takeWhile_dropWhile (atomMatches digitRange) s2) as Hs2.
  destruct (Shape.nonEmpty _) eqn:Hne; [|done].
  destruct (dropWhile (atomMatches digitRange) s2) as [|c0 s4]; [done|].
  rewrite stripPrefix_sep in H.
  destruct (Ascii.eqb_spec c0 "/") as [->|]; [|done].
  cbn [mbind option_bind] in H.
  destruct (stripPrefix "0x" s4) as [s5|] eqn:E5; [|done].
  apply stripPrefix_Some in E5 as ->. cbn [mbind option_bind] in H.
  pose proof (take_drop 40 s5) as Hs5.
  remember (take 40 s5) as hx' eqn:Ehx.
  remember (drop 40 s5) as aft' eqn:Eaft.
  remember (takeWhile (atomMatches digitRange) s2) as ds' eqn:Eds.
  clear Ehx Eaft Eds.
  destruct (_ && _) eqn:Hhx; [|done].
  apply andb_prop in Hhx as [Hlen Hhex]. apply Nat.eqb_eq in Hlen.
  assert (ds' = ds ∧ hx' = hx ∧ aft' = aft
          ∧ (aft' = "" ∨ ∃ t, aft' = String "/" t)) as (-> & -> & -> & Haft).
  { destruct aft' as [|c2 t]; [by injection H as -> -> <-; auto|].
    unfold Path.isSep in H.
    destruct (Ascii.eqb_spec c2 "/") as [->|]; [|done].
    injection H as -> -> <-. eauto 10. }
  repeat split; try done.
  - rewrite <- Hs2, <- Hs5. reflexivity.
  - by apply nonEmpty_spec.
Qed.

(** Conversely, a text of that form is read that way. *)
Lemma pathParts_intro (d ds hx aft : string) :
  ds ≠ "" →
  forallb (atomMatches digitRange) ds = true →
  String.length hx = 40 →
  forallb (atomMatches hexRange) hx = true →
  (aft = "" ∨ ∃ t, aft = String "/" t) →
  pathParts d (d +:+ "/" +:+ ds +:+ "/" +:+ "0x" +:+ hx +:+ aft)
    = Some (ds, hx, aft).
Proof.
  intros Hne Hds Hlen Hhx Haft. unfold pathParts.
  rewrite stripPrefix_app. cbn [mbind option_bind].
  rewrite !app_cons, !app_nil_l, stripPrefix_sep. cbn [mbind option_bind].
  change (if ("/" =? "/")%char then Some ?x else None) with (Some x).
  cbn [mbind option_bind].
  destruct (takeWhile_app (atomMatches digitRange) ds "/"
              (String "0" (String "x" (hx +:+ aft))) Hds eq_refl) as [-> ->].
  apply nonEmpty_spec in Hne. rewrite Hne.
  rewrite stripPrefix_sep. cbn -[take drop].
  rewrite <- Hlen, take_app_length, drop_app_length, Nat.eqb_refl, Hhx.
  destruct Haft as [->|[t ->]]; done.
Qed.

Lemma digits_not_0x (ds : string) :
  forallb (atomMatches digitRange) ds = true → startsWith ds "0x" = false.
Proof.
  destruct ds as [|a [|b ds]]; simpl; try done.
  - by rewrite andb_false_r.
  - intros [_ [Hb _]%andb_prop]%andb_prop.
    destruct (Ascii.eqb_spec b "x") as [->|]; [discriminate|].
    by rewrite andb_false_r.
Qed.

(** A directory name without pattern syntax is read as a run of pattern
    characters. *)
Lemma plain_character (c : ascii) :
  negb (isSyntaxCharacter c) = true →
  Ascii.eqb c "." = false ∧ Ascii.eqb c "|" = false.
Proof.
  intros H.
  destruct (Ascii.eqb_spec c ".") as [->|_]; [by vm_compute in H|].
  destruct (Ascii.eqb_spec c "|") as [->|_]; [by vm_compute in H|done].
Qed.

Lemma plain_embedded (d : string) :
  forallb (λ c, negb (isSyntaxCharacter c)) d = true →
  embeddedDirname d = true.
Proof.
  unfold embeddedDirname. apply forallb_impl. by intros c ->.
Qed.

Lemma alternatives_plain (d : string) :
  forallb (λ c, negb (isSyntaxCharacter c)) d = true →
  alternatives d = [d].
Proof.
  induction d as [|c d IH]; [done|]. cbn [forallb alternatives].
  intros [Hc Hd]%andb_prop. apply plain_character in Hc as [_ ->].
  by rewrite IH.
Qed.

Lemma alternative_plain (d : string) :
  forallb (λ c, negb (isSyntaxCharacter c)) d = true →
  ∀ x k, matcher (alternative d) x k = matcher (Literal d) x k.
Proof.
  induction d as [|c d IH]; [done|]. cbn [forallb].
  intros [Hc Hd]%andb_prop x k. apply plain_character in Hc as [Hc _].
  cbn [alternative matcher literal]. rewrite Hc.
  destruct (rest x) as [|c0 s]; [done|]. cbn [atomMatches].
  destruct (Ascii.eqb_spec c0 c) as [->|_]; [|done].
  rewrite (IH Hd). cbn [matcher].
  by destruct (literal d (advance s x)).
Qed.

Lemma matchPattern_plain (d str : string) :
  forallb (λ c, negb (isSyntaxCharacter c)) d = true →
  ∃ regex,
    matchPattern d = Some regex ∧ exec regex str = exec (plainPattern d) str.
Proof.
  intros Hd. unfold matchPattern.
  rewrite (plain_embedded d Hd), (alternatives_plain d Hd).
  eexists. split; [reflexivity|]. unfold plainPattern.
  rewrite !exec_AssertStart. cbn [disjunction matcher].
  by rewrite (alternative_plain d Hd).
Qed.

Lemma mayCapture_alternative (source : string) :
  mayCapture (alternative source) = [].
Proof. induction source as [|c source IH]; [done|]. exact IH. Qed.

(** A match of the part of group 1 written by the directory name and the
    identity: either an alternative of the name alone, which captures
    nothing, or the last alternative, which captures groups 2 and 3. *)
Lemma disjunction_captures (alts : list string) (x : MatchState)
    (k : Continuation) (y : MatchState) :
  matcher (disjunction alts identityPattern) x k = Some y →
  ∃ t y',
    k t y' = Some y
    ∧ ((∀ i, captures y' i = captures x i)
       ∨ (is_Some (captures y' 2) ∧ is_Some (captures y' 3))).
Proof.
  assert (Hlast : ∀ r x k y,
    matcher (Seq r identityPattern) x k = Some y →
    ∃ t y', k t y' = Some y
            ∧ (is_Some (captures y' 2) ∧ is_Some (captures y' 3))).
  { intros r x0 k0 y0 (t & y' & Hk & _ & Hmust & _)%matcher_captures.
    exists t, y'. split; [done|].
    split; apply Hmust; cbn [mustCapture]; apply elem_of_app; right;
      [apply list_elem_of_here
      |apply list_elem_of_further, list_elem_of_here]. }
  revert x k y. induction alts as [|alt alts IH]; intros x k y.
  - cbn [disjunction]. intros (t & y' & Hk & _ & Hmust & _)%matcher_captures.
    exists t, y'. split; [done|]. right.
    split; apply Hmust;
      [apply list_elem_of_here
      |apply list_elem_of_further, list_elem_of_here].
  - destruct alts as [|alt' alts].
    + cbn [disjunction].
      intros (t & y' & Hk & H)%Hlast.
      exists t, y'. auto.
    + change (disjunction (alt :: alt' :: alts) identityPattern)
        with (Disjunction (alternative alt)
                (disjunction (alt' :: alts) identityPattern)).
      cbn [matcher].
      destruct (matcher (alternative alt) x k) as [y0|] eqn:E; [|apply IH].
      intros [= ->].
      apply matcher_captures in E as (t & y' & Hk & _ & _ & Hmay).
      exists t, y'. split; [done|]. left. intros i. apply Hmay.
      rewrite mayCapture_alternative. apply not_elem_of_nil.
Qed.

(** Groups 1 and 4 take part in every match, and group 3 whenever group 2
    does. *)
Lemma exec_groups_defined (d str : string) (regex : regex)
    (rmatch : nat → option string) :
  matchPattern d = Some regex →
  exec regex str = Some rmatch →
  is_Some (rmatch 1) ∧ is_Some (rmatch 4)
  ∧ (is_Some (rmatch 2) → is_Some (rmatch 3)).
Proof.
  unfold matchPattern. destruct (embeddedDirname d); [|done].
  intros [= <-]. rewrite exec_AssertStart.
  destruct (matcher _ _ _) as [y|] eqn:E; [|done]. intros [= <-].
  cbn [matcher] in E.
  apply disjunction_captures in E as (t1 & y1 & E & H23).
  apply matcher_captures in E as (t4 & y4 & [= <-] & Hmono & Hmust & Hmay).
  cbn [captures setCapture Nat.eqb].
  split; [|split].
  - apply Hmono. cbn [captures setCapture Nat.eqb]. by eexists.
  - apply Hmust. apply list_elem_of_here.
  - assert (Hout : ∀ i, i ≠ 4 → i ∉ mayCapture subpathPattern).
    { intros i Hi. by intros ?%list_elem_of_singleton. }
    assert (H2 : captures y4 2 = captures y1 2).
    { by rewrite Hmay by (by apply Hout). }
    assert (H3 : captures y4 3 = captures y1 3).
    { by rewrite Hmay by (by apply Hout). }
    rewrite H2, H3.
    destruct H23 as [Hsame|[_ H3']]; [|done].
    rewrite Hsame. cbn [captures]. by intros [? ?].
Qed.

(** For a directory name without pattern syntax, [match] gives what
    [pathParts] reads, and does not throw. *)
Lemma match_parts (svc : ContractService) (str : string) :
  plainDirname svc = true →
  match_ svc str =
    Normal (matchOfParts (dirname svc) str <$> pathParts (dirname svc) str).
Proof.
  intros Hplain. unfold match_.
  destruct (matchPattern_plain (dirname svc) str Hplain) as (regex & -> & ->).
  pose proof (exec_plainPattern (dirname svc) str) as H.
  destruct (pathParts (dirname svc) str) as [[[ds hx] aft]|] eqn:E.
  - destruct H as (rmatch & -> & H1 & H2 & H3 & H4).
    apply pathParts_Some in E as (_ & _ & Hds & _).
    unfold entry. rewrite H1, H2, H3, H4, (digits_not_0x ds Hds).
    reflexivity.
  - by rewrite H.
Qed.

End MatchFacts.

(** ** [match] *)

Section Match.
Import Str StrFacts MatchFacts.

Lemma notSep_of_digit (c : ascii) :
  atomMatches digitRange c = true → Shape.notSep c = true.
Proof. intros H. unfold Shape.notSep, Path.isSep. by rewrite digit_not_sep. Qed.

Lemma notSep_of_hex (c : ascii) :
  atomMatches hexRange c = true → Shape.notSep c = true.
Proof.
  unfold Shape.notSep, Path.isSep.
  destruct (Ascii.eqb_spec c "/") as [->|]; [discriminate|done].
Qed.

Lemma takeWhile_segment (f : ascii → bool) (seg aft : string) :
  forallb f seg = true →
  (aft = "" ∨ ∃ c t, aft = String c t ∧ f c = false) →
  takeWhile f (seg +:+ aft) = seg ∧ dropWhile f (seg +:+ aft) = aft.
Proof.
  intros Hseg [->|(c & t & -> & Hc)].
  - rewrite app_nil_r. by apply takeWhile_all.
  - by apply takeWhile_app.
Qed.

(** What the pattern reads has the shape that the specification accepts. *)
Lemma pathParts_accepted (d str : string) (p : string * string * string) :
  pathParts d str = Some p → Shape.accepted d str = true.
Proof.
  destruct p as [[ds hx] aft].
  intros (-> & Hne & Hds & Hlen & Hhx & Haft)%pathParts_Some.
  unfold Shape.accepted. rewrite stripPrefix_app.
  change ("/" +:+ ds +:+ "/" +:+ "0x" +:+ hx +:+ aft)
    with (String "/" (ds +:+ String "/" (("0x" +:+ hx) +:+ aft))).
  destruct (takeWhile_app Shape.notSep ds "/" (("0x" +:+ hx) +:+ aft))
    as [-> ->]; [by eapply forallb_impl, Hds; apply notSep_of_digit|done|].
  destruct (takeWhile_segment Shape.notSep ("0x" +:+ hx) aft) as [-> _].
  { change (forallb Shape.notSep hx = true).
    by eapply forallb_impl, Hhx; apply notSep_of_hex. }
  { destruct Haft as [->|[t ->]]; eauto 10. }
  apply andb_true_intro. split.
  - apply orb_true_intro. left. unfold Shape.isDecimalInteger.
    apply andb_true_intro. split; [by apply nonEmpty_spec|].
    eapply forallb_impl, Hds. intros c. by rewrite digitRange_spec.
  - change (Shape.isAddressSegment ("0x" +:+ hx))
      with (Nat.eqb (String.length hx) 40 && forallb Shape.isLowerHexDigit hx).
    rewrite Hlen. simpl.
    eapply forallb_impl, Hhx. intros c. by rewrite hexRange_spec.
Qed.

Lemma decimalValueFrom_parseDigits (ds : string) (acc : N) :
  forallb (atomMatches digitRange) ds = true →
  parseDigits 10 ds (Some acc) = Some (decimalValueFrom acc ds).
Proof.
  revert acc. induction ds as [|c ds IH]; intros acc; [done|].
  intros H. cbn [forallb] in H. apply andb_prop in H as [Hc Hds].
  rewrite digitRange_spec in Hc.
  unfold Shape.isDecimalDigit in Hc. cbn [parseDigits]. unfold digitValue.
  rewrite Hc. apply andb_prop in Hc as [H1 H2].
  apply N.leb_le in H1, H2.
  replace (N_of_ascii c - 48 <? 10)%N with true
    by (symmetry; apply N.ltb_lt; lia).
  by rewrite IH.
Qed.

Lemma parseInt_decimal (ds : string) :
  ds ≠ "" → forallb (atomMatches digitRange) ds = true →
  parseInt ds 10 = round_binary64 (decimalValue ds).
Proof.
  intros Hne Hds. destruct ds as [|c ds]; [done|].
  unfold parseInt, decimalValue. cbn [forallb] in Hds.
  apply andb_prop in Hds as [Hc Hds]. rewrite digitRange_spec in Hc.
  unfold Shape.isDecimalDigit in Hc.
  change (10 =? 16)%N with false. cbn [parseDigits decimalValueFrom default].
  unfold digitValue. rewrite Hc.
  apply andb_prop in Hc as [H1 H2]. apply N.leb_le in H1, H2.
  replace (N_of_ascii c - 48 <? 10)%N with true
    by (symmetry; apply N.ltb_lt; lia).
  by rewrite decimalValueFrom_parseDigits.
Qed.

Lemma round_binary64_exact (n : N) :
  (n < 2 ^ 53)%N → round_binary64 n = Finite n.
Proof.
  intros Hn. unfold round_binary64.
  replace (N.size n <=? 53)%N with true; [done|].
  symmetry. apply N.leb_le.
  destruct (N.eq_dec n 0%N) as [->|Hn0]; [done|].
  rewrite N.size_log2 by done.
  apply N.le_succ_l, N.log2_lt_pow2; lia.
Qed.

(** For a directory name without pattern syntax and a chain id segment of
    decimal digits, the chain id is the Number nearest to the value of the
    segment, and the value itself below 2^53. *)
Lemma match_decimal_chainId (svc : ContractService) (ds hx aft : string) :
  plainDirname svc = true →
  ds ≠ "" →
  forallb (atomMatches digitRange) ds = true →
  String.length hx = 40 →
  forallb (atomMatches hexRange) hx = true →
  (aft = "" ∨ ∃ t, aft = String "/" t) →
  ∃ m,
    match_ svc (dirname svc +:+ "/" +:+ ds +:+ "/" +:+ "0x" +:+ hx +:+ aft)
      = Normal (Some m)
    ∧ chainId m = round_binary64 (decimalValue ds)
    ∧ ((decimalValue ds < 2 ^ 53)%N → chainId m = Finite (decimalValue ds)).
Proof.
  intros Hplain Hne Hds Hlen Hhx Haft.
  rewrite match_parts, pathParts_intro by done.
  eexists. split; [reflexivity|]. simpl.
  rewrite parseInt_decimal by done.
  split; [done|]. apply round_binary64_exact.
Qed.

Example match_decimal_chainId_rounds :
  match_ Sample.service ("contracts/9007199254740993/" +:+ Sample.address) =
    Normal (Some
      {| original := "contracts/9007199254740993/" +:+ Sample.address;
         dir := "contracts/9007199254740993/" +:+ Sample.address;
         chainId := Finite 9007199254740992;
         address := Sample.address;
         subpath := "" |}).
Proof. vm_compute. reflexivity. Qed.

End Match.

(** C1. The claim: a path whose chain id segment is a 0x-prefixed
    hexadecimal integer is matched, with the hexadecimal value as chain id.
    The code does otherwise: group 2 of the pattern is [[0-9]+], so the [x]
    ends the run of digits where the pattern wants a [/], and [match]
    returns null on every path whose chain id segment starts with 0x.  The
    branch [rchainId.startsWith('0x') ? parseInt(rchainId, 16)] is never
    taken. *)
Theorem match_hex_chainId_null (svc : ContractService) (rest : string) :
  plainDirname svc = true →
  match_ svc (dirname svc +:+ "/0x" +:+ rest) = Normal None.
Proof.
  intros Hplain. rewrite MatchFacts.match_parts by done. unfold pathParts.
  rewrite StrFacts.stripPrefix_app. reflexivity.
Qed.

Lemma match_hex_chainId_null_witness :
  plainDirname Sample.service = true
  ∧ match_ Sample.service ("contracts/0x1f/" +:+ Sample.address +:+ "/sub/path")
    = Normal None.
Proof.
  split; [reflexivity|].
  apply (match_hex_chainId_null Sample.service
           ("1f/" +:+ Sample.address +:+ "/sub/path")).
  reflexivity.
Defined.

(** C5. The claim: a text that does not have the accepted shape
    [<rootDirName>/<chainIdSegment>/<addressSegment>[/<anything>]] from its
    start gives null, without exception and without fuzzy matching.  The
    code does otherwise for a service whose directory name holds pattern
    syntax: the name is spliced into the pattern source as it is, so the [.]
    of the directory name [a.b] matches any character, and [aXb/1/0x…],
    which does not start with the directory name, is matched.  The helpers
    that make the names use the directory name as it is written: the
    address directory of the same service starts with [a.b/]. *)
Theorem match_dirname_read_as_pattern :
  Shape.accepted (dirname Sample2.dotService) ("aXb/1/" +:+ Sample.address)
  = false
  ∧ match_ Sample2.dotService ("aXb/1/" +:+ Sample.address)
    = Normal (Some
        {| original := "aXb/1/" +:+ Sample.address;
           dir := "aXb/1/" +:+ Sample.address;
           chainId := Finite 1;
           address := Sample.address;
           subpath := "" |})
  ∧ getAddressDirname Sample2.dotService Sample.identity
    = "a.b/1/" +:+ Sample.address.
Proof.
  split; [reflexivity|]. split; vm_compute; reflexivity.
Qed.

(** C6. The claim: the subpath is everything after the address segment.
    The code does otherwise on a text with a line terminator after the
    address segment: the last group is [(\/.*|$)], and [.] refuses line
    terminators, so the subpath ends before the first of them and the rest
    of the text is dropped.  A line terminator right after the address
    segment is not passed over that way: there the text is not matched at
    all. *)
Theorem match_subpath_not_remainder :
  match_ Sample.service
    ("contracts/1/" +:+ Sample.address +:+ "/a" +:+ Sample.LF +:+ "b")
  = Normal (Some
      {| original :=
           "contracts/1/" +:+ Sample.address +:+ "/a" +:+ Sample.LF +:+ "b";
         dir := "contracts/1/" +:+ Sample.address;
         chainId := Finite 1;
         address := Sample.address;
         subpath := "/a" |})
  ∧ "/a" ≠ "/a" +:+ Sample.LF +:+ "b"
  ∧ match_ Sample.service
      ("contracts/1/" +:+ Sample.address +:+ Sample.LF +:+ "b")
    = Normal None.
Proof.
  split; [vm_compute; reflexivity|].
  split; [discriminate|vm_compute; reflexivity].
Qed.

(** C9. The claim: [match] throws on no input.  The code does otherwise for
    a service whose directory name holds pattern syntax, which is spliced
    into the pattern source as it is: with the directory name [a|b] the
    first alternative of group 1 is [a] alone, so the text [a] is matched
    with no part taken by group 2, and [rchainId.startsWith] is read on
    undefined, which throws a TypeError. *)
Theorem match_throws_on_alternation :
  match_ Sample2.barService "a" = Throw TypeError.
Proof. vm_compute. reflexivity. Qed.

(** C10. The claim: [dir] followed by [subpath] is the whole text.  The
    code does otherwise on a text with a line terminator after the address
    segment, for the reason given at C6: the subpath stops before the line
    terminator, and what comes after it is in neither [dir] nor
    [subpath]. *)
Theorem match_dir_subpath_not_input :
  match_ Sample.service
    ("contracts/1/" +:+ Sample.address +:+ "/a" +:+ Sample.CR +:+ "b")
  = Normal (Some
      {| original :=
           "contracts/1/" +:+ Sample.address +:+ "/a" +:+ Sample.CR +:+ "b";
         dir := "contracts/1/" +:+ Sample.address;
         chainId := Finite 1;
         address := Sample.address;
         subpath := "/a" |})
  ∧ ("contracts/1/" +:+ Sample.address) +:+ "/a"
    ≠ "contracts/1/" +:+ Sample.address +:+ "/a" +:+ Sample.CR +:+ "b".
Proof. split; [vm_compute; reflexivity|vm_compute; discriminate]. Qed.

(** ** Paths *)

Module PathFacts.
Import Str StrFacts Path.

Lemma split_nonempty (s : string) : split s ≠ [].
Proof.
  induction s as [|c s IH]; [done|]. simpl.
  destruct (isSep c); [done|]. by destruct (split s).
Qed.

Lemma split_app_sep (a b : string) :
  split (a +:+ String "/" b) = split a ++ split b.
Proof.
  induction a as [|c a IH]; [done|].
  rewrite app_cons. simpl. rewrite IH.
  destruct (isSep c); [done|].
  pose proof (split_nonempty a). by destruct (split a).
Qed.

Lemma split_noSep (b : string) : noSep b → split b = [b].
Proof.
  unfold noSep. induction b as [|c b IH]; [done|]. simpl.
  intros [Hc Hb]%andb_prop. destruct (isSep c); [done|]. by rewrite IH.
Qed.

Lemma split_segments (s : string) : Forall noSep (split s).
Proof.
  induction s as [|c s IH]; simpl.
  - by constructor.
  - destruct (isSep c) eqn:Hc; [by constructor|].
    destruct (split s) as [|seg segs]; [by constructor; [unfold noSep; simpl; rewrite Hc|]|].
    inversion IH as [|? ? Hseg Hsegs]; subst. constructor; [|done].
    unfold noSep in *. simpl. by rewrite Hc.
Qed.

Lemma concat_snoc (l : list string) (b : string) :
  l ≠ [] → concat (l ++ [b]) = concat l +:+ String "/" b.
Proof.
  induction l as [|x l IH]; [done|]. intros _.
  destruct l as [|y l]; [done|].
  change (concat ((x :: y :: l) ++ [b]))
    with (x +:+ "/" +:+ concat ((y :: l) ++ [b])).
  rewrite IH by done.
  change (concat (x :: y :: l)) with (x +:+ "/" +:+ concat (y :: l)).
  by rewrite !app_assoc.
Qed.

Lemma split_concat (l : list string) :
  l ≠ [] → Forall noSep l → split (concat l) = l.
Proof.
  induction l as [|x l IH]; [done|]. intros _ Hl.
  inversion Hl as [|? ? Hx Hl']; subst.
  destruct l as [|y l]; [by apply split_noSep|].
  change (concat (x :: y :: l)) with (x +:+ String "/" (concat (y :: l))).
  rewrite split_app_sep, IH, split_noSep; done.
Qed.

Lemma isName_spec (seg : string) :
  isName seg = true ↔ seg ≠ "" ∧ seg ≠ "." ∧ seg ≠ ".." ∧ noSep seg.
Proof.
  unfold isName, noSep.
  rewrite !andb_true_iff, !negb_true_iff, !bool_decide_eq_false. tauto.
Qed.

Lemma normalizeStep_name (allow : bool) (res : list string) (seg : string) :
  isName seg = true → normalizeStep allow res seg = seg :: res.
Proof.
  intros (H1 & H2 & H3 & _)%isName_spec. unfold normalizeStep.
  by rewrite !bool_decide_eq_false_2.
Qed.

Lemma normalizeStep_noSep (allow : bool) (res : list string) (seg : string) :
  noSep seg → Forall noSep res → Forall noSep (normalizeStep allow res seg).
Proof.
  intros Hseg Hres. unfold normalizeStep.
  repeat case_match; try done; try (by constructor).
  by inversion Hres.
Qed.

Lemma fold_normalizeStep_noSep (allow : bool) (segs res : list string) :
  Forall noSep segs → Forall noSep res →
  Forall noSep (fold_left (normalizeStep allow) segs res).
Proof.
  revert res. induction segs as [|seg segs IH]; intros res Hsegs Hres; [done|].
  inversion Hsegs; subst. simpl. apply IH; [done|].
  by apply normalizeStep_noSep.
Qed.

Lemma endsWithSep_app (a b : string) :
  b ≠ "" → endsWithSep (a +:+ b) = endsWithSep b.
Proof.
  intros Hb. induction a as [|c a IH]; [done|].
  rewrite app_cons. simpl. rewrite IH.
  destruct (a +:+ b) eqn:E; [|done].
  destruct a; [|done]. by rewrite app_nil_l in E.
Qed.

Lemma endsWithSep_noSep (b : string) : noSep b → endsWithSep b = false.
Proof.
  unfold noSep. induction b as [|c b IH]; [done|]. simpl.
  intros [Hc Hb]%andb_prop. destruct b; [by destruct (isSep c)|auto].
Qed.

Lemma kept_noSep (p : string) (allow : bool) : Forall noSep (kept p allow).
Proof.
  unfold kept. apply Forall_rev, fold_normalizeStep_noSep;
    [apply split_segments|constructor].
Qed.

(** Normalizing a path that ends with a name: the name stays last, after
    what normalization keeps of the path before it. *)
Lemma normalize_name (a b : string) :
  isName b = true →
  split (normalize (a +:+ String "/" b)) =
    match a with
    | EmptyString => [EmptyString]
    | String c _ => if isSep c then [EmptyString] else []
    end
    ++ kept a (match a with
               | EmptyString => false
               | String c _ => negb (isSep c)
               end) ++ [b].
Proof.
  intros Hb. pose proof Hb as (Hb1 & _ & _ & Hb4)%isName_spec.
  assert (Hkept : ∀ allow,
    normalizeString (a +:+ String "/" b) allow = concat (kept a allow ++ [b])).
  { intros allow. unfold normalizeString, kept.
    rewrite split_app_sep, (split_noSep b), fold_left_app by done. simpl.
    by rewrite normalizeStep_name. }
  assert (Hne : ∀ l, concat (l ++ [b]) ≠ "").
  { intros l. destruct (decide (l = [])) as [->|Hl]; [done|].
    rewrite concat_snoc by done. by destruct (concat l). }
  assert (Hsplit : ∀ l, Forall noSep l → split (concat (l ++ [b])) = l ++ [b]).
  { intros l Hl. apply split_concat; [by destruct l|].
    apply Forall_app. split; [done|]. by constructor. }
  assert (Htrail : endsWithSep (a +:+ String "/" b) = false).
  { rewrite endsWithSep_app by done.
    change (endsWithSep (String "/" b)) with
      (match b with "" => true | _ => endsWithSep b end).
    destruct b; [done|]. by apply endsWithSep_noSep. }
  unfold normalize.
  destruct (a +:+ String "/" b) as [|c p] eqn:Ep; [by destruct a|].
  rewrite Htrail, Hkept.
  assert (Hc : isSep c = match a with
                         | EmptyString => true
                         | String c' _ => isSep c'
                         end).
  { destruct a as [|c' a']; [by injection Ep as <- _|].
    rewrite app_cons in Ep. by injection Ep as <- _. }
  assert (Hallow : negb (isSep c) = match a with
                                    | EmptyString => false
                                    | String c' _ => negb (isSep c')
                                    end).
  { rewrite Hc. by destruct a. }
  rewrite Hallow.
  set (allow := match a with "" => false | String c' _ => negb (isSep c') end).
  pose proof (Hne (kept a allow)) as Hq.
  pose proof (Hsplit (kept a allow) (kept_noSep a allow)) as Hs.
  destruct (concat (kept a allow ++ [b])) as [|c1 q] eqn:Eq; [done|].
  rewrite Hc. destruct a as [|c' a'].
  - change (split ("/" +:+ String c1 q)) with ("" :: split (String c1 q)).
    by rewrite Hs.
  - destruct (isSep c'); [|done].
    change (split ("/" +:+ String c1 q)) with ("" :: split (String c1 q)).
    by rewrite Hs.
Qed.

Lemma normalize_single_name (b : string) :
  isName b = true → split (normalize b) = [b].
Proof.
  intros Hb. pose proof Hb as (Hb1 & _ & _ & Hb4)%isName_spec.
  unfold normalize. destruct b as [|c b'] eqn:E; [done|]. rewrite <- E in *.
  assert (Hc : isSep c = false).
  { rewrite E in Hb4. unfold noSep in Hb4. simpl in Hb4.
    apply andb_prop in Hb4 as [Hc _]. by destruct (isSep c). }
  assert (Hn : normalizeString b (negb false) = b).
  { unfold normalizeString. rewrite (split_noSep b) by done. simpl.
    by rewrite normalizeStep_name. }
  rewrite Hc, endsWithSep_noSep, Hn by done.
  rewrite E at 1. by apply split_noSep.
Qed.

Lemma joined_name (a b : string) :
  b ≠ "" →
  joined [a; b] =
    Some (match a with "" => b | String _ _ => a +:+ String "/" b end).
Proof. intros Hb. by destruct a, b. Qed.

(** [path.join(a, b)] for a name [b]: the segments of the result end with
    [b], and with [x; b] when those of [a] end with a name [x]. *)
Lemma join_name (a b : string) :
  isName b = true →
  ∃ pre,
    split (join [a; b]) = pre ++ [b]
    ∧ ∀ P x, split a = P ++ [x] → isName x = true → ∃ pre', pre = pre' ++ [x].
Proof.
  intros Hb. pose proof Hb as (Hb1 & _)%isName_spec.
  unfold join. rewrite joined_name by done.
  destruct a as [|c a'] eqn:Ea.
  - exists []. split; [by apply normalize_single_name|].
    intros [|? [|? ?]] x [=]. by intros (? & _)%isName_spec.
  - rewrite <- Ea. rewrite normalize_name by done.
    rewrite (assoc_L (++)). eexists. split; [done|].
    intros P x HP Hx. unfold kept.
    rewrite HP, fold_left_app. simpl. rewrite normalizeStep_name by done.
    simpl. rewrite (assoc_L (++)). eauto.
Qed.

Lemma app_snoc_inj {A} (l1 l2 : list A) (x1 x2 : A) :
  l1 ++ [x1] = l2 ++ [x2] → l1 = l2 ∧ x1 = x2.
Proof. intros H. by apply app_inj_tail in H. Qed.

End PathFacts.

(** ** [match] and the shape of a path *)

Module MatchMore.
Import Str StrFacts MatchFacts.

Lemma digits_of_shape (ds : string) :
  forallb Shape.isDecimalDigit ds = true →
  forallb (atomMatches digitRange) ds = true.
Proof. apply forallb_impl. intros c. by rewrite digitRange_spec. Qed.

Lemma hex_of_shape (hx : string) :
  forallb Shape.isLowerHexDigit hx = true →
  forallb (atomMatches hexRange) hx = true.
Proof. apply forallb_impl. intros c. by rewrite hexRange_spec. Qed.

Lemma shape_of_digits (ds : string) :
  forallb (atomMatches digitRange) ds = true →
  forallb Shape.isDecimalDigit ds = true.
Proof. apply forallb_impl. intros c. by rewrite digitRange_spec. Qed.

Lemma shape_of_hex (hx : string) :
  forallb (atomMatches hexRange) hx = true →
  forallb Shape.isLowerHexDigit hx = true.
Proof. apply forallb_impl. intros c. by rewrite hexRange_spec. Qed.

Lemma isDecimalInteger_spec (ds : string) :
  Shape.isDecimalInteger ds = true ↔
    ds ≠ "" ∧ forallb Shape.isDecimalDigit ds = true.
Proof.
  unfold Shape.isDecimalInteger. rewrite andb_true_iff, nonEmpty_spec. tauto.
Qed.

Lemma upToLineTerminator_noLineTerminator (s : string) :
  noLineTerminator (upToLineTerminator s) = true.
Proof. apply forallb_takeWhile. Qed.

Lemma upToLineTerminator_id (s : string) :
  noLineTerminator s = true → upToLineTerminator s = s.
Proof. intros H. by apply takeWhile_all. Qed.

(** The match of a text of the accepted form with a decimal chain id. *)
Lemma match_intro (svc : ContractService) (ds hx aft : string) :
  plainDirname svc = true →
  Shape.isDecimalInteger ds = true →
  String.length hx = 40 →
  forallb Shape.isLowerHexDigit hx = true →
  (aft = "" ∨ ∃ t, aft = String "/" t) →
  match_ svc (dirname svc +:+ "/" +:+ ds +:+ "/" +:+ "0x" +:+ hx +:+ aft)
  = Normal (Some
      {| original := dirname svc +:+ "/" +:+ ds +:+ "/" +:+ "0x" +:+ hx +:+ aft;
         dir := dirname svc +:+ "/" +:+ ds +:+ "/" +:+ "0x" +:+ hx;
         chainId := round_binary64 (decimalValue ds);
         address := "0x" +:+ hx;
         subpath := upToLineTerminator aft |}).
Proof.
  intros Hplain [Hne Hds]%isDecimalInteger_spec Hlen Hhx Haft.
  apply digits_of_shape in Hds. apply hex_of_shape in Hhx.
  rewrite match_parts, pathParts_intro by done.
  simpl. by rewrite parseInt_decimal.
Qed.

Lemma round_binary64_not_NaN (n : N) : round_binary64 n ≠ NaN.
Proof. unfold round_binary64. by repeat case_match. Qed.

End MatchMore.

(** ** Directory and file names *)

Module PathMore.
Import Str StrFacts Path PathFacts.

Lemma isSep_eq (c : ascii) : isSep c = true → c = "/"%char.
Proof. unfold isSep. by intros ?%Ascii.eqb_eq. Qed.

Lemma concat_cons (seg : string) (segs : list string) :
  segs ≠ [] → concat (seg :: segs) = seg +:+ String "/" (concat segs).
Proof. by destruct segs. Qed.

(** Joining the segments of a path with [/] gives the path back. *)
Lemma concat_split (s : string) : concat (split s) = s.
Proof.
  induction s as [|c s IH]; [done|]. simpl.
  pose proof (split_nonempty s) as Hne.
  destruct (isSep c) eqn:Hc.
  - rewrite concat_cons, IH by done. by rewrite (isSep_eq c Hc).
  - destruct (split s) as [|seg segs]; [done|].
    destruct segs as [|seg' segs].
    + simpl in *. by rewrite IH.
    + rewrite concat_cons by done. rewrite concat_cons in IH by done.
      rewrite app_cons. by rewrite IH.
Qed.

Lemma split_inj (x y : string) : split x = split y → x = y.
Proof.
  intros H. rewrite <- (concat_split x), <- (concat_split y). by rewrite H.
Qed.

Lemma fold_names (allow : bool) (segs acc : list string) :
  List.forallb isName segs = true →
  fold_left (normalizeStep allow) segs acc = rev segs ++ acc.
Proof.
  revert acc. induction segs as [|seg segs IH]; intros acc; [done|].
  simpl. intros [Hseg Hsegs]%andb_prop.
  rewrite normalizeStep_name, IH by done.
  by rewrite <- (assoc_L (++)).
Qed.

Lemma normalizeStep_empty (allow : bool) (res : list string) :
  normalizeStep allow res "" = res.
Proof. done. Qed.

Lemma normalize_name' (a b : string) :
  isName b = true →
  split (normalize (a +:+ String "/" b)) =
    rootMarker a ++ kept a (allowAbove a) ++ [b].
Proof. apply normalize_name. Qed.

(** Normalization keeps the segments of a normal path. *)
Lemma kept_normal (d : string) :
  isNormalPath d = true → rootMarker d ++ kept d (allowAbove d) = split d.
Proof.
  unfold isNormalPath, kept. destruct d as [|c d]; [done|].
  simpl. pose proof (split_nonempty d) as Hne.
  destruct (isSep c) eqn:Hc; simpl.
  - destruct (split d) as [|seg segs] eqn:E; [done|].
    intros H. rewrite normalizeStep_empty.
    rewrite fold_names by done. by rewrite (right_id_L [] (++)), rev_involutive.
  - destruct (split d) as [|seg segs] eqn:E; [done|].
    intros H. rewrite fold_names by done.
    by rewrite (right_id_L [] (++)), rev_involutive.
Qed.

Lemma isNormalPath_nonempty (d : string) : isNormalPath d = true → d ≠ "".
Proof. by intros H ->. Qed.

Lemma isNormalPath_snoc (d b : string) :
  isNormalPath d = true → isName b = true →
  isNormalPath (d +:+ String "/" b) = true.
Proof.
  intros Hd Hb. pose proof Hb as (_ & _ & _ & Hb4)%isName_spec.
  unfold isNormalPath in *.
  rewrite split_app_sep, (split_noSep b) by done.
  pose proof (split_nonempty d) as Hne.
  destruct (split d) as [|[|a s1] [|s2 segs]] eqn:E; [done|..];
    cbn [app List.forallb] in *;
    rewrite ?List.forallb_app in *; cbn [List.forallb] in *;
    rewrite ?andb_true_iff in *; try done; intuition.
Qed.

(** [path.join] of a normal path, with or without a [/] at its end, and a
    name: nothing is rewritten. *)
Lemma join_normal (d b : string) :
  isNormalPath d = true → isName b = true →
  join [d; b] = d +:+ String "/" b.
Proof.
  intros Hd Hb. pose proof (isNormalPath_nonempty d Hd) as Hne.
  pose proof Hb as (Hb1 & _ & _ & Hb4)%isName_spec.
  unfold join. rewrite joined_name by done.
  destruct d as [|c d'] eqn:Ed; [done|]. rewrite <- Ed in *.
  apply split_inj. rewrite normalize_name' by done.
  rewrite (assoc_L (++)), kept_normal by done.
  by rewrite split_app_sep, (split_noSep b) by done.
Qed.

Lemma join_normal_trailing (d b : string) :
  isNormalPath d = true → isName b = true →
  join [d +:+ "/"; b] = d +:+ String "/" b.
Proof.
  intros Hd Hb. pose proof (isNormalPath_nonempty d Hd) as Hne.
  pose proof Hb as (Hb1 & _ & _ & Hb4)%isName_spec.
  unfold join. rewrite joined_name by done.
  destruct (d +:+ "/") as [|c d'] eqn:Ed; [by destruct d|]. rewrite <- Ed.
  apply split_inj. rewrite normalize_name' by done.
  assert (Hm : rootMarker (d +:+ "/") = rootMarker d) by (by destruct d).
  assert (Ha : allowAbove (d +:+ "/") = allowAbove d) by (by destruct d).
  assert (Hk : ∀ allow, kept (d +:+ "/") allow = kept d allow).
  { intros allow. unfold kept.
    change (d +:+ "/") with (d +:+ String "/" "").
    by rewrite split_app_sep, fold_left_app. }
  rewrite Hm, Ha, Hk, (assoc_L (++)), kept_normal by done.
  by rewrite split_app_sep, (split_noSep b) by done.
Qed.

(** The decimal digits of a number. *)
Lemma pretty_N_char_digit (x : N) : Shape.isDecimalDigit (pretty_N_char x) = true.
Proof. unfold pretty_N_char. by repeat case_match. Qed.

Lemma pretty_N_char_value (x : N) :
  (x < 10)%N → (N_of_ascii (pretty_N_char x) - 48)%N = x.
Proof.
  intros Hx. unfold pretty_N_char.
  repeat case_match; subst; try done; simpl; lia.
Qed.

Lemma pretty_N_go_digits (x : N) (s : string) :
  forallb Shape.isDecimalDigit s = true →
  forallb Shape.isDecimalDigit (pretty_N_go x s) = true.
Proof.
  revert s. induction (N.lt_wf_0 x) as [x _ IH]; intros s Hs.
  destruct (decide (0 < x)%N) as [Hx|Hx].
  - rewrite pretty_N_go_step by done.
    apply IH; [by apply N.div_lt|].
    cbn [forallb]. by rewrite pretty_N_char_digit, Hs.
  - assert (x = 0%N) as -> by lia. by rewrite pretty_N_go_0.
Qed.

Lemma pretty_N_go_nonempty (x : N) (s : string) :
  (0 < x)%N ∨ s ≠ "" → pretty_N_go x s ≠ "".
Proof.
  revert s. induction (N.lt_wf_0 x) as [x _ IH]; intros s Hs.
  destruct (decide (0 < x)%N) as [Hx|Hx].
  - rewrite pretty_N_go_step by done.
    apply IH; [by apply N.div_lt|]. by right.
  - assert (x = 0%N) as -> by lia. rewrite pretty_N_go_0.
    destruct Hs as [?|?]; [lia|done].
Qed.

Lemma decimalValueFrom_shift (acc : N) (s : string) :
  decimalValueFrom acc s
  = (acc * 10 ^ N.of_nat (String.length s) + decimalValueFrom 0 s)%N.
Proof.
  revert acc. induction s as [|c s IH]; intros acc.
  - simpl. lia.
  - cbn [decimalValueFrom String.length].
    rewrite IH, (IH (0 * 10 + _)%N).
    rewrite Nat2N.inj_succ, N.pow_succ_r'. lia.
Qed.

Lemma pretty_N_go_value (x : N) (s : string) :
  decimalValue (pretty_N_go x s)
  = (x * 10 ^ N.of_nat (String.length s) + decimalValue s)%N.
Proof.
  revert s. induction (N.lt_wf_0 x) as [x _ IH]; intros s.
  destruct (decide (0 < x)%N) as [Hx|Hx].
  - rewrite pretty_N_go_step by done.
    rewrite IH by (by apply N.div_lt).
    unfold decimalValue. cbn [decimalValueFrom String.length].
    rewrite (decimalValueFrom_shift (0 * 10 + _)%N).
    rewrite pretty_N_char_value by (apply N.mod_lt; lia).
    rewrite Nat2N.inj_succ, N.pow_succ_r'.
    pose proof (N.div_mod x 10 ltac:(lia)) as Hdm.
    set (p := (10 ^ N.of_nat (String.length s))%N) in *.
    set (v := decimalValueFrom 0 s) in *.
    rewrite Hdm at 3. lia.
  - assert (x = 0%N) as -> by lia. rewrite pretty_N_go_0. lia.
Qed.

Lemma toString_digits (n : N) :
  Shape.isDecimalInteger (Number_toString n) = true.
Proof.
  apply MatchMore.isDecimalInteger_spec.
  unfold Number_toString, pretty, pretty_N.
  destruct (decide (n = 0%N)) as [->|Hn]; [done|]. split.
  - apply pretty_N_go_nonempty. left. lia.
  - by apply pretty_N_go_digits.
Qed.

Lemma toString_value (n : N) : decimalValue (Number_toString n) = n.
Proof.
  unfold Number_toString, pretty, pretty_N.
  destruct (decide (n = 0%N)) as [->|Hn]; [done|].
  rewrite pretty_N_go_value. unfold decimalValue. simpl. lia.
Qed.

Lemma isName_of_noSep (s : string) :
  s ≠ "" → s ≠ "." → s ≠ ".." → noSep s → isName s = true.
Proof. intros. by apply isName_spec. Qed.

Lemma digit_noSep (ds : string) :
  forallb Shape.isDecimalDigit ds = true → noSep ds.
Proof.
  unfold noSep. apply forallb_impl. intros c Hc.
  rewrite <- MatchFacts.digitRange_spec in Hc.
  by apply notSep_of_digit in Hc.
Qed.

Lemma lowerHex_noSep (hx : string) :
  forallb Shape.isLowerHexDigit hx = true → noSep hx.
Proof.
  unfold noSep. apply forallb_impl. intros c Hc.
  rewrite <- MatchFacts.hexRange_spec in Hc.
  by apply notSep_of_hex in Hc.
Qed.

Lemma isName_digits (ds : string) :
  Shape.isDecimalInteger ds = true → isName ds = true.
Proof.
  intros [Hne Hds]%MatchMore.isDecimalInteger_spec.
  apply isName_of_noSep; [done| | |by apply digit_noSep].
  - intros ->. done.
  - intros ->. done.
Qed.

Lemma isAddressSegment_inv (a : string) :
  Shape.isAddressSegment a = true →
  ∃ hx, a = "0x" +:+ hx ∧ String.length hx = 40
        ∧ forallb Shape.isLowerHexDigit hx = true.
Proof.
  destruct a as [|c0 [|c1 hx]]; [done| |].
  - by destruct c0 as [[] [] [] [] [] [] [] []].
  - destruct c0 as [[] [] [] [] [] [] [] []]; try done.
    destruct c1 as [[] [] [] [] [] [] [] []]; try done.
    unfold Shape.isAddressSegment. intros [Hlen Hhx]%andb_prop.
    apply Nat.eqb_eq in Hlen. by exists hx.
Qed.

Lemma isName_address (a : string) :
  Shape.isAddressSegment a = true → isName a = true.
Proof.
  intros (hx & -> & Hlen & Hhx)%isAddressSegment_inv.
  apply isName_of_noSep; try done.
  unfold noSep. change (forallb (λ c, negb (isSep c)) hx = true).
  by apply lowerHex_noSep.
Qed.

End PathMore.

Module NamesMore.
Import Str StrFacts Path PathFacts PathMore.

(** [path.join(a, b)] for a name [b] keeps the names that end [a]. *)
Lemma join_suffix (a b : string) (P names : list string) :
  isName b = true →
  split a = P ++ names →
  List.forallb isName names = true →
  ∃ pre, split (join [a; b]) = pre ++ names ++ [b].
Proof.
  intros Hb Ha Hnames. pose proof Hb as (Hb1 & _)%isName_spec.
  unfold join. rewrite joined_name by done.
  destruct a as [|c a'] eqn:Ea.
  - assert (names = []) as ->.
    { destruct names as [|x names] using rev_ind; [done|].
      rewrite (assoc_L (++)) in Ha.
      change (split "") with ([] ++ [""]) in Ha.
      apply app_snoc_inj in Ha as [_ <-].
      rewrite List.forallb_app in Hnames. simpl in Hnames.
      by rewrite andb_false_r in Hnames. }
    exists []. by apply normalize_single_name.
  - rewrite <- Ea in *. rewrite normalize_name' by done.
    unfold kept. rewrite Ha, fold_left_app, fold_names by done.
    rewrite rev_app_distr, rev_involutive.
    eexists. by rewrite !(assoc_L (++)).
Qed.

Lemma toString_isName (n : N) : isName (Number_toString n) = true.
Proof. apply isName_digits, toString_digits. Qed.

Lemma toString_inj (n1 n2 : N) :
  Number_toString n1 = Number_toString n2 → n1 = n2.
Proof.
  intros H. rewrite <- (toString_value n1), <- (toString_value n2).
  by rewrite H.
Qed.

(** The segments of an address directory end with the decimal chain id and
    the address; those of a file in it with the basename after them. *)
Lemma getAddressDirname_segments (svc : ContractService)
    (i : ContractIdentity.t) :
  isName (ContractIdentity.address i) = true →
  ∃ pre,
    split (getAddressDirname svc i)
    = pre ++ [Number_toString (ContractIdentity.chainId i);
              ContractIdentity.address i].
Proof.
  intros Haddr.
  destruct (join_name (dirname svc) (Number_toString (ContractIdentity.chainId i))
              (toString_isName _)) as (p & Hp & _).
  fold (getChainDirname svc (ContractIdentity.chainId i)) in Hp.
  destruct (join_suffix (getChainDirname svc (ContractIdentity.chainId i))
              (ContractIdentity.address i) p
              [Number_toString (ContractIdentity.chainId i)] Haddr Hp)
    as (pre & Hpre).
  { simpl. by rewrite toString_isName. }
  exists pre. unfold getAddressDirname. by rewrite Hpre.
Qed.

Lemma file_segments (svc : ContractService) (i : ContractIdentity.t)
    (base : string) :
  isName (ContractIdentity.address i) = true →
  isName base = true →
  ∃ pre,
    split (join [getAddressDirname svc i; base])
    = pre ++ [Number_toString (ContractIdentity.chainId i);
              ContractIdentity.address i; base].
Proof.
  intros Haddr Hbase.
  destruct (getAddressDirname_segments svc i Haddr) as (p & Hp).
  destruct (join_suffix _ base _ _ Hbase Hp) as (pre & Hpre).
  { simpl. by rewrite toString_isName, Haddr. }
  exists pre. by rewrite Hpre.
Qed.

Lemma identity_eq (i1 i2 : ContractIdentity.t) :
  Number_toString (ContractIdentity.chainId i1)
  = Number_toString (ContractIdentity.chainId i2) →
  ContractIdentity.address i1 = ContractIdentity.address i2 →
  i1 = i2.
Proof.
  destruct i1, i2. simpl. intros ?%toString_inj ?. by subst.
Qed.

Lemma file_inj (svc : ContractService) (i1 i2 : ContractIdentity.t)
    (base : string) :
  isName (ContractIdentity.address i1) = true →
  isName (ContractIdentity.address i2) = true →
  isName base = true →
  join [getAddressDirname svc i1; base] = join [getAddressDirname svc i2; base] →
  i1 = i2.
Proof.
  intros H1 H2 Hbase Heq.
  destruct (file_segments svc i1 base H1 Hbase) as (p1 & Hp1).
  destruct (file_segments svc i2 base H2 Hbase) as (p2 & Hp2).
  rewrite Heq, Hp2 in Hp1.
  change (p2 ++ [?a; ?b; ?c]) with (p2 ++ [a; b] ++ [c]) in Hp1.
  change (p1 ++ [?a; ?b; ?c]) with (p1 ++ [a; b] ++ [c]) in Hp1.
  rewrite !(assoc_L (++)) in Hp1.
  apply app_snoc_inj in Hp1 as [Hp1 _].
  change (p2 ++ [?a; ?b]) with (p2 ++ [a] ++ [b]) in Hp1.
  change (p1 ++ [?a; ?b]) with (p1 ++ [a] ++ [b]) in Hp1.
  rewrite !(assoc_L (++)) in Hp1.
  apply app_snoc_inj in Hp1 as [Hp1 Haddr].
  apply app_snoc_inj in Hp1 as [_ Hn].
  by apply identity_eq.
Qed.

(** The names written out, for a normal directory name. *)
Lemma getChainDirname_normal (svc : ContractService) (n : N) :
  isNormalPath (dirname svc) = true →
  getChainDirname svc n = dirname svc +:+ String "/" (Number_toString n).
Proof. intros Hd. apply join_normal; [done|apply toString_isName]. Qed.

Lemma getAddressDirname_normal (svc : ContractService)
    (i : ContractIdentity.t) :
  isNormalPath (dirname svc) = true →
  isName (ContractIdentity.address i) = true →
  getAddressDirname svc i
  = dirname svc +:+ "/" +:+ Number_toString (ContractIdentity.chainId i)
    +:+ "/" +:+ ContractIdentity.address i
  ∧ isNormalPath (getAddressDirname svc i) = true.
Proof.
  intros Hd Haddr. unfold getAddressDirname.
  rewrite getChainDirname_normal by done.
  assert (Hc : isNormalPath
                 (dirname svc
                  +:+ String "/" (Number_toString (ContractIdentity.chainId i)))
               = true).
  { apply isNormalPath_snoc; [done|apply toString_isName]. }
  rewrite join_normal by done. split.
  - by rewrite app_assoc.
  - by apply isNormalPath_snoc.
Qed.

Lemma file_normal (svc : ContractService) (i : ContractIdentity.t)
    (base : string) :
  isNormalPath (dirname svc) = true →
  isName (ContractIdentity.address i) = true →
  isName base = true →
  join [getAddressDirname svc i; base]
  = (dirname svc +:+ "/" +:+ Number_toString (ContractIdentity.chainId i)
     +:+ "/" +:+ ContractIdentity.address i) +:+ "/" +:+ base.
Proof.
  intros Hd Haddr Hbase.
  destruct (getAddressDirname_normal svc i Hd Haddr) as [Ha Hn].
  rewrite join_normal by done. by rewrite Ha.
Qed.

Lemma file_last (svc : ContractService) (i1 i2 : ContractIdentity.t)
    (base1 base2 : string) :
  isName (ContractIdentity.address i1) = true →
  isName (ContractIdentity.address i2) = true →
  isName base1 = true →
  isName base2 = true →
  join [getAddressDirname svc i1; base1] = join [getAddressDirname svc i2; base2] →
  base1 = base2.
Proof.
  intros H1 H2 Hb1 Hb2 Heq.
  destruct (file_segments svc i1 base1 H1 Hb1) as (p1 & Hp1).
  destruct (file_segments svc i2 base2 H2 Hb2) as (p2 & Hp2).
  rewrite Heq, Hp2 in Hp1.
  change (p2 ++ [?a; ?b; ?c]) with (p2 ++ [a; b] ++ [c]) in Hp1.
  change (p1 ++ [?a; ?b; ?c]) with (p1 ++ [a; b] ++ [c]) in Hp1.
  rewrite !(assoc_L (++)) in Hp1.
  by apply app_snoc_inj in Hp1 as [_ Hp1].
Qed.

End NamesMore.

(** ** Identities and file names *)

(** C2, as claimed, fails: the address goes into the directory and file
    names as it is given, so two identities that differ only in the letter
    case of the address get different names, and the metadata saved for one
    is not found for the other. *)
Lemma address_case_not_normalized :
  ContractIdentity.chainId Sample.IDENTITY = ContractIdentity.chainId Sample.identity
  ∧ Str.toLowerCase (ContractIdentity.address Sample.IDENTITY)
    = ContractIdentity.address Sample.identity
  ∧ getAddressDirname Sample.service Sample.IDENTITY
    ≠ getAddressDirname Sample.service Sample.identity
  ∧ getMetadataFilename Sample.service Sample.IDENTITY
    ≠ getMetadataFilename Sample.service Sample.identity
  ∧ hasMetadata Sample.service Sample.identity Sample.store
    = (Normal true, Sample.store)
  ∧ hasMetadata Sample.service Sample.IDENTITY Sample.store
    = (Normal false, Sample.store).
Proof.
  split; [reflexivity|]. split; [vm_compute; reflexivity|].
  split; [vm_compute; discriminate|]. split; [vm_compute; discriminate|].
  split; reflexivity.
Qed.

(** C2, amended.  The service does not normalize the letter case of an
    address.  For identities whose address is a single path segment, the
    address as given is the last segment of the address directory and the
    segment before the basename of the config, input and metadata file
    names (the basenames being single segments too); so two identities get
    the same directory or the same file only when their address texts are
    identical, letter case included. *)
Theorem address_used_verbatim (svc : ContractService)
    (i1 i2 : ContractIdentity.t) :
  Path.isName (ContractIdentity.address i1) = true →
  Path.isName (ContractIdentity.address i2) = true →
  Path.lastSegment (getAddressDirname svc i1) = ContractIdentity.address i1
  ∧ (getAddressDirname svc i1 = getAddressDirname svc i2 →
     ContractIdentity.address i1 = ContractIdentity.address i2)
  ∧ (Path.isName (configBasename svc) = true →
     getConfigFilename svc i1 = getConfigFilename svc i2 →
     ContractIdentity.address i1 = ContractIdentity.address i2)
  ∧ (Path.isName (inputBasename svc) = true →
     getInputFilename svc i1 = getInputFilename svc i2 →
     ContractIdentity.address i1 = ContractIdentity.address i2)
  ∧ (Path.isName (metadataBasename svc) = true →
     getMetadataFilename svc i1 = getMetadataFilename svc i2 →
     ContractIdentity.address i1 = ContractIdentity.address i2).
Proof.
  intros H1 H2.
  destruct (PathFacts.join_name
              (getChainDirname svc (ContractIdentity.chainId i1))
              (ContractIdentity.address i1) H1) as (p1 & Hd1 & _).
  destruct (PathFacts.join_name
              (getChainDirname svc (ContractIdentity.chainId i2))
              (ContractIdentity.address i2) H2) as (p2 & Hd2 & _).
  fold (getAddressDirname svc i1) in Hd1. fold (getAddressDirname svc i2) in Hd2.
  assert (Hfile : ∀ base,
    Path.isName base = true →
    Path.join [getAddressDirname svc i1; base]
    = Path.join [getAddressDirname svc i2; base] →
    ContractIdentity.address i1 = ContractIdentity.address i2).
  { intros base Hbase Heq.
    destruct (PathFacts.join_name (getAddressDirname svc i1) base Hbase)
      as (q1 & Hf1 & Hq1).
    destruct (PathFacts.join_name (getAddressDirname svc i2) base Hbase)
      as (q2 & Hf2 & Hq2).
    destruct (Hq1 _ _ Hd1 H1) as [q1' ->].
    destruct (Hq2 _ _ Hd2 H2) as [q2' ->].
    rewrite Heq, Hf2 in Hf1.
    apply PathFacts.app_snoc_inj in Hf1 as [Hf1 _].
    by apply PathFacts.app_snoc_inj in Hf1 as [_ Hf1]. }
  split; [|split; [|repeat split; intros Hb Heq; exact (Hfile _ Hb Heq)]].
  - unfold Path.lastSegment. rewrite Hd1. apply last_last.
  - intros Heq. rewrite Heq, Hd2 in Hd1.
    by apply PathFacts.app_snoc_inj in Hd1 as [_ Hd1].
Qed.

Lemma address_used_verbatim_witness :
  Path.isName (ContractIdentity.address Sample.identity) = true
  ∧ Path.isName (ContractIdentity.address Sample.IDENTITY) = true
  ∧ Path.lastSegment (getAddressDirname Sample.service Sample.identity)
    = ContractIdentity.address Sample.identity
  ∧ (getAddressDirname Sample.service Sample.identity
     = getAddressDirname Sample.service Sample.IDENTITY →
     ContractIdentity.address Sample.identity
     = ContractIdentity.address Sample.IDENTITY)
  ∧ (Path.isName (configBasename Sample.service) = true →
     getConfigFilename Sample.service Sample.identity
     = getConfigFilename Sample.service Sample.IDENTITY →
     ContractIdentity.address Sample.identity
     = ContractIdentity.address Sample.IDENTITY)
  ∧ (Path.isName (inputBasename Sample.service) = true →
     getInputFilename Sample.service Sample.identity
     = getInputFilename Sample.service Sample.IDENTITY →
     ContractIdentity.address Sample.identity
     = ContractIdentity.address Sample.IDENTITY)
  ∧ (Path.isName (metadataBasename Sample.service) = true →
     getMetadataFilename Sample.service Sample.identity
     = getMetadataFilename Sample.service Sample.IDENTITY →
     ContractIdentity.address Sample.identity
     = ContractIdentity.address Sample.IDENTITY).
Proof.
  split; [reflexivity|]. split; [reflexivity|].
  apply (address_used_verbatim Sample.service Sample.identity Sample.IDENTITY);
    reflexivity.
Defined.

(** ** Path resolution *)

Module FsFacts.
Import Str StrFacts Path PathFacts PathMore.

Lemma next_Throw (st : gmap string node) (absolute : bool)
    (segs : list string) (e : Error) :
  fold_left (fs.next st absolute) segs (Throw e) = Throw e.
Proof. by induction segs. Qed.

Lemma component_errors (st : gmap string node) (absolute : bool)
    (cur : list string) (seg : string) (e : Error) :
  fs.component st absolute cur seg = Throw e → e = ENOENT ∨ e = ENOTDIR.
Proof.
  unfold fs.component, fs.search.
  repeat case_match; intros; simplify_eq; auto.
Qed.

Lemma walk_errors (st : gmap string node) (absolute : bool)
    (segs : list string) (reached : Completion (list string)) (e : Error) :
  (∀ e', reached = Throw e' → e' = ENOENT ∨ e' = ENOTDIR) →
  fold_left (fs.next st absolute) segs reached = Throw e →
  e = ENOENT ∨ e = ENOTDIR.
Proof.
  revert reached. induction segs as [|seg segs IH]; intros reached Hr; simpl.
  - apply Hr.
  - apply IH. destruct reached as [cur|e0]; simpl; [|exact Hr].
    intros e'. apply component_errors.
Qed.

(** Path resolution fails with ENOENT or ENOTDIR only. *)
Lemma find_errors (p : string) (st : gmap string node) (e : Error) :
  fs.find p st = Throw e → e = ENOENT ∨ e = ENOTDIR.
Proof.
  unfold fs.find. destruct p as [|c p]; [intros [= <-]; by left|].
  destruct (fs.walk _ _ _) as [cur|e0] eqn:E.
  - destruct (st !! _); [done|]. intros [= <-]. by left.
  - intros [= <-]. eapply walk_errors, E. done.
Qed.

Lemma isName_not_up (seg : string) : isName seg = true → fs.isUp seg = false.
Proof.
  intros (_ & _ & H & _)%isName_spec. by apply bool_decide_eq_false_2.
Qed.

Lemma component_name (st : gmap string node) (absolute : bool)
    (cur : list string) (seg : string) :
  isName seg = true →
  fs.component st absolute cur seg =
    match fs.search st absolute cur with
    | Throw e => Throw e
    | Normal _ =>
        match st !! fs.location absolute (cur ++ [seg]) with
        | None => Throw ENOENT
        | Some _ => Normal (cur ++ [seg])
        end
    end.
Proof.
  intros Hseg. unfold fs.component.
  rewrite (isName_not_up seg Hseg).
  apply isName_spec in Hseg as (H1 & H2 & _).
  by rewrite !bool_decide_eq_false_2.
Qed.

(** Names lead, one after the other, to the place they spell. *)
Lemma walk_names (st : gmap string node) (absolute : bool)
    (names cur0 cur : list string) :
  List.forallb isName names = true →
  fold_left (fs.next st absolute) names (Normal cur0) = Normal cur →
  cur = cur0 ++ names.
Proof.
  revert cur0. induction names as [|name names IH]; intros cur0; simpl.
  - intros _ [= <-]. by rewrite (right_id_L [] (++)).
  - intros [Hname Hnames]%andb_prop. rewrite component_name by done.
    destruct (fs.search st absolute cur0); [|by rewrite next_Throw].
    destruct (st !! _); [|by rewrite next_Throw].
    intros H. rewrite (IH _ Hnames H). by rewrite <- (assoc_L (++)).
Qed.

Lemma location_snoc (absolute : bool) (cur : list string) (seg : string) :
  cur ≠ [] →
  fs.location absolute (cur ++ [seg])
  = fs.location absolute cur +:+ String "/" seg.
Proof.
  intros Hcur. unfold fs.location.
  destruct cur as [|c0 cur]; [done|]. cbn [app].
  change (c0 :: cur ++ [seg]) with ((c0 :: cur) ++ [seg]).
  rewrite concat_snoc by done.
  destruct absolute; [|done]. by rewrite app_assoc.
Qed.

Lemma names_not_up (names : list string) :
  names ≠ [] → List.forallb isName names = true →
  List.forallb fs.isUp names = false.
Proof.
  destruct names as [|name names]; [done|]. intros _. simpl.
  intros [Hname _]%andb_prop. by rewrite (isName_not_up name Hname).
Qed.

(** The components of a normal path, when they lead somewhere, lead to
    the path itself. *)
Lemma walk_normal (st : gmap string node) (c : ascii) (d : string)
    (cur : list string) :
  isNormalPath (String c d) = true →
  fs.walk st (isSep c) (split (String c d)) = Normal cur →
  fs.location (isSep c) cur = String c d
  ∧ cur ≠ []
  ∧ List.forallb fs.isUp cur = false.
Proof.
  unfold isNormalPath, fs.walk.
  pose proof (concat_split (String c d)) as Hcs. revert Hcs.
  cbn [split]. destruct (isSep c) eqn:Hc.
  - pose proof (split_nonempty d) as Hne.
    destruct (split d) as [|seg segs] eqn:E; [done|].
    intros Hcs Hnames. remember (seg :: segs) as names eqn:En.
    cbn [fold_left fs.next].
    change (fs.component st true [] "") with (Normal (A:=list string) []).
    intros ->%walk_names; [|done]. cbn [app].
    assert (Hnn : names ≠ []) by (by subst names).
    split; [|split; [done|by apply names_not_up]].
    unfold fs.location. rewrite <- Hcs.
    rewrite concat_cons by done. by destruct names.
  - destruct (split d) as [|seg segs] eqn:E.
    + intros Hcs Hnames ->%walk_names; [|done]. cbn [app].
      split; [|split; [done|by apply names_not_up]]. exact Hcs.
    + intros Hcs Hnames ->%walk_names; [|done]. cbn [app].
      split; [|split; [done|by apply names_not_up]]. exact Hcs.
Qed.

(** Resolving a name in a normal path: the path has to lead to a
    directory, and the name has to be in the store there. *)
Lemma find_snoc (st : gmap string node) (d b : string) :
  isNormalPath d = true → isName b = true →
  fs.find (d +:+ String "/" b) st =
    match fs.find d st with
    | Throw e => Throw e
    | Normal (File _) => Throw ENOTDIR
    | Normal (Directory _) =>
        match st !! (d +:+ String "/" b) with
        | None => Throw ENOENT
        | Some found => Normal found
        end
    end.
Proof.
  intros Hd Hb. destruct d as [|c d]; [done|].
  rewrite app_cons. unfold fs.find. rewrite <- app_cons.
  rewrite split_app_sep.
  rewrite (split_noSep b) by (by apply isName_spec in Hb as (_ & _ & _ & ?)).
  unfold fs.walk at 1. rewrite fold_left_app.
  fold (fs.walk st (isSep c) (split (String c d))).
  destruct (fs.walk st (isSep c) (split (String c d))) as [cur|e] eqn:E;
    [|done].
  destruct (walk_normal st c d cur Hd E) as (Hloc & Hne & Hup).
  cbn [fold_left fs.next]. rewrite component_name by done.
  unfold fs.search. rewrite Hup, location_snoc, Hloc by done.
  destruct (st !! String c d) as [[content|entries]|]; try done.
  destruct (st !! (String c d +:+ String "/" b)) as [found|] eqn:Ef; [|done].
  by rewrite location_snoc, Hloc, Ef.
Qed.

Lemma readdir_find (p : string) (st : gmap string node) :
  fs.readdir p st =
    (match fs.find p st with
     | Throw e => Throw e
     | Normal (File _) => Throw ENOTDIR
     | Normal (Directory entries) => Normal entries
     end, st).
Proof. unfold fs.readdir. by destruct (fs.find p st) as [[]|]. Qed.

Lemma readFile_find (p : string) (st : gmap string node) :
  fs.readFile p st =
    (match fs.find p st with
     | Throw e => Throw e
     | Normal (Directory _) => Throw EISDIR
     | Normal (File content) => Normal content
     end, st).
Proof. unfold fs.readFile. by destruct (fs.find p st) as [[]|]. Qed.

End FsFacts.

(** ** The store operations *)

Module ChainsFacts.

Lemma filed_empty n addr m' : ¬ filed ∅ n addr m'.
Proof. intros (mc & H & _). by rewrite lookup_empty in H. Qed.

Lemma filed_fileMatch chains m n addr m' :
  filed (fileMatch chains m) n addr m' ↔
    (n = chainId m ∧ addr = address m ∧ m' = m)
    ∨ (¬ (n = chainId m ∧ addr = address m) ∧ filed chains n addr m').
Proof.
  unfold filed, fileMatch. split.
  - intros (mc & Hmc & Hm').
    destruct (decide (chainId m = n)) as [<-|Hn].
    + rewrite lookup_insert_eq in Hmc. injection Hmc as <-. simpl in Hm'.
      destruct (decide (address m = addr)) as [<-|Haddr].
      * rewrite lookup_insert_eq in Hm'. injection Hm' as <-. by left.
      * rewrite lookup_insert_ne in Hm' by done. right.
        split; [by intros [_ ->]|].
        destruct (chains !! chainId m) as [mc|] eqn:E; simpl in Hm'.
        -- eauto.
        -- by rewrite lookup_empty in Hm'.
    + rewrite lookup_insert_ne in Hmc by done. right.
      split; [by intros [-> _]|eauto].
  - intros [(-> & -> & ->)|(Hne & mc & Hmc & Hm')].
    + eexists. rewrite lookup_insert_eq. split; [done|]. simpl.
      by rewrite lookup_insert_eq.
    + destruct (decide (chainId m = n)) as [<-|Hn].
      * eexists. rewrite lookup_insert_eq. split; [done|]. simpl.
        rewrite lookup_insert_ne by (by intros <-; apply Hne).
        by rewrite Hmc.
      * exists mc. by rewrite lookup_insert_ne.
Qed.

(** For a directory name without pattern syntax, [matchContractFiles] does
    not throw and files exactly matches of the names it is given:
    every match it files comes from a name or was filed before, and the
    address of every name that matches is filed under its chain id. *)
Lemma matchContractFilesFrom_spec (svc : ContractService)
    (filenames : list string) (chains : gmap Number MatchedChain) :
  plainDirname svc = true →
  ∃ chains',
    matchContractFilesFrom svc filenames chains = Normal chains'
    ∧ (∀ n addr m', filed chains' n addr m' →
         filed chains n addr m'
         ∨ (address m' = addr ∧ chainId m' = n
            ∧ ∃ name, name ∈ filenames
                      ∧ match_ svc name = Normal (Some m')))
    ∧ (∀ n addr m', filed chains n addr m' → ∃ m'', filed chains' n addr m'')
    ∧ (∀ name m, name ∈ filenames → match_ svc name = Normal (Some m) →
         ∃ m'', filed chains' (chainId m) (address m) m'').
Proof.
  intros Hplain.
  revert chains. induction filenames as [|name names IH]; intros chains.
  - exists chains. split; [done|]. split; [by auto|]. split; [by eauto|].
    intros name m Hin. by apply elem_of_nil in Hin.
  - simpl. rewrite MatchFacts.match_parts by done.
    destruct (pathParts (dirname svc) name) as [p|] eqn:E; simpl.
    + destruct (IH (fileMatch chains (matchOfParts (dirname svc) name p)))
        as (chains' & -> & Hsound & Hmono & Hcompl).
      exists chains'. split; [done|].
      assert (Hm : match_ svc name
                   = Normal (Some (matchOfParts (dirname svc) name p))).
      { by rewrite MatchFacts.match_parts, E by done. }
      split; [|split].
      * intros n addr m' Hf.
        destruct (Hsound _ _ _ Hf) as [Hold|(? & ? & name' & Hin & Hm')].
        -- apply filed_fileMatch in Hold as [(-> & -> & ->)|[_ Hold]];
             [|by left].
           right. split; [done|]. split; [done|].
           exists name. split; [apply list_elem_of_here|done].
        -- right. split; [done|]. split; [done|].
           exists name'. split; [by apply list_elem_of_further|done].
      * intros n addr m' Hf.
        destruct (decide (n = chainId (matchOfParts (dirname svc) name p)
                          ∧ addr = address (matchOfParts (dirname svc) name p)))
          as [[-> ->]|Hne].
        -- eapply Hmono, filed_fileMatch. by left.
        -- eapply Hmono, filed_fileMatch. right. eauto.
      * intros name' m Hin Hm'.
        apply elem_of_cons in Hin as [->|Hin]; [|by eauto].
        rewrite Hm in Hm'. injection Hm' as <-.
        eapply Hmono, filed_fileMatch. by left.
    + destruct (IH chains) as (chains' & -> & Hsound & Hmono & Hcompl).
      exists chains'. split; [done|]. split; [|split; [done|]].
      * intros n addr m' Hf.
        destruct (Hsound _ _ _ Hf) as [Hold|(? & ? & name' & Hin & Hm')];
          [by left|].
        right. split; [done|]. split; [done|].
        exists name'. split; [by apply list_elem_of_further|done].
      * intros name' m Hin Hm'.
        apply elem_of_cons in Hin as [->|Hin]; [|by eauto].
        rewrite MatchFacts.match_parts, E in Hm' by done. done.
Qed.

End ChainsFacts.

(** C4. The claim: when the chain directory exists, [getChainContracts]
    returns the mapping of its contracts.  The code does otherwise for a
    service whose directory name holds pattern syntax, which [match] splices
    into its pattern source as it is (C5, C9): with the root directory
    [x/y|.|z] the chain directory [x/y|.|z/1] is there and lists an address
    directory, but on the path of that entry the alternative [.] of the
    pattern matches the [x] alone, group 2 takes no part in the match,
    [match] throws a TypeError, and the promise is rejected with it. *)
Theorem getChainContracts_rejects_existing :
  fs.find (getChainDirname Sample2.altService 1) Sample2.altTree
  = Normal (Directory ["0xdeadbeefdeadbeefdeadbeefdeadbeefdeadbeef"])
  ∧ match_ Sample2.altService
      (Path.join [getChainDirname Sample2.altService 1; Sample.address])
    = Throw TypeError
  ∧ getChainContracts Sample2.altService 1 Sample2.altTree
    = (Throw TypeError, Sample2.altTree).
Proof. repeat split; vm_compute; reflexivity. Qed.

(** C8. [hasMetadata] resolves with a boolean, true exactly when something
    exists at the metadata file name, and leaves the store unchanged; it
    does not depend on the content: in any store where the file exists
    alike, whatever it holds, the answer is the same. *)
Theorem hasMetadata_existence_only (svc : ContractService)
    (identity : ContractIdentity.t) (st : gmap string node) :
  ∃ b : bool,
    hasMetadata svc identity st = (Normal b, st)
    ∧ (b = true ↔ is_Some (st !! getMetadataFilename svc identity))
    ∧ ∀ st' : gmap string node,
        (is_Some (st' !! getMetadataFilename svc identity)
         ↔ is_Some (st !! getMetadataFilename svc identity)) →
        hasMetadata svc identity st' = (Normal b, st').
Proof.
  unfold hasMetadata, fexists. eexists. split; [done|]. split.
  - apply bool_decide_eq_true.
  - intros st' Hiff. f_equal. f_equal. by apply bool_decide_ext.
Qed.

Section StoreFacts.

Variable JSONValue : Type.
Variable JSON_parse : string → option JSONValue.
Variable JSON_stringify_pretty : JSONValue → string.
Variable Buffer_toString : string → string.
Variable fabs : string → string.

(** C3. [getConfig] rejects when the config file is absent, with the error
    of the path resolution: ENOENT when a component of its absolute name is
    missing and ENOTDIR when one is a file (the specification's
    NotFoundError); and it rejects with the SyntaxError of [JSON.parse]
    (its ParseError) when the file holds a text that is not JSON.  When
    the file holds JSON, it resolves with the parsed value.  The store is
    unchanged.  The config file is the entry named by the config basename
    in the address directory of the identity (for a directory name in
    normal form, a chain id below 2^53, and an address and a basename that
    are single names). *)
Theorem getConfig_spec (svc : ContractService)
    (identity : ContractIdentity.t) (st : gmap string node) :
  (∀ e, fs.find (fabs (getConfigFilename svc identity)) st = Throw e →
     getConfig JSON_parse Buffer_toString fabs svc identity st = (Throw e, st)
     ∧ (e = ENOENT ∨ e = ENOTDIR))
  ∧ (∀ content,
       fs.find (fabs (getConfigFilename svc identity)) st
       = Normal (File content) →
       JSON_parse (Buffer_toString content) = None →
       getConfig JSON_parse Buffer_toString fabs svc identity st
       = (Throw SyntaxError, st))
  ∧ (∀ content config,
       fs.find (fabs (getConfigFilename svc identity)) st
       = Normal (File content) →
       JSON_parse (Buffer_toString content) = Some config →
       getConfig JSON_parse Buffer_toString fabs svc identity st
       = (Normal config, st))
  ∧ (isNormalPath (dirname svc) = true →
     (ContractIdentity.chainId identity < 2 ^ 53)%N →
     Path.isName (ContractIdentity.address identity) = true →
     Path.isName (configBasename svc) = true →
     getConfigFilename svc identity
     = (dirname svc +:+ "/"
        +:+ Number_toString (ContractIdentity.chainId identity)
        +:+ "/" +:+ ContractIdentity.address identity)
       +:+ "/" +:+ configBasename svc).
Proof.
  unfold getConfig, andThen. rewrite FsFacts.readFile_find.
  unfold resolve, parseJSON. split; [|split; [|split]].
  - intros e He. rewrite He. split; [done|]. by eapply FsFacts.find_errors.
  - by intros content -> ->.
  - by intros content config -> ->.
  - intros Hd _ Haddr Hbase. by apply NamesMore.file_normal.
Qed.

(** C7. Saving the same metadata for the same identity twice leaves the
    store as saving it once does.  This holds whichever of the two writes
    the storage fails: the store after both calls is the store after one
    call that fails only if both did. *)
Theorem saveMetadata_idempotent (svc : ContractService)
    (identity : ContractIdentity.t) (metadata : JSONValue)
    (st : gmap string node) :
  (saveMetadata JSON_stringify_pretty false svc identity metadata
     (saveMetadata JSON_stringify_pretty false svc identity
        metadata st).2).2
  = (saveMetadata JSON_stringify_pretty false svc identity
       metadata st).2
  ∧ ∀ fault1 fault2 : bool,
      (saveMetadata JSON_stringify_pretty fault2 svc identity
         metadata
         (saveMetadata JSON_stringify_pretty fault1 svc identity
            metadata st).2).2
      = (saveMetadata JSON_stringify_pretty (fault1 && fault2)
           svc identity metadata st).2.
Proof.
  unfold saveMetadata, writeJsonFile. split.
  - simpl. apply insert_insert_eq.
  - intros [] []; simpl; try done. apply insert_insert_eq.
Qed.

End StoreFacts.

Lemma getConfig_spec_witness :
  (fs.find (Sample2.fabs (getConfigFilename Sample.service Sample2.identity3))
     Sample2.served = Throw ENOENT
   ∧ getConfig Sample.parse id Sample2.fabs Sample.service Sample2.identity3
       Sample2.served
     = (Throw ENOENT, Sample2.served))
  ∧ (fs.find (Sample2.fabs (getConfigFilename Sample.service Sample2.identity2))
       Sample2.served = Throw ENOTDIR
     ∧ getConfig Sample.parse id Sample2.fabs Sample.service Sample2.identity2
         Sample2.served
       = (Throw ENOTDIR, Sample2.served))
  ∧ fs.find (Sample2.fabs (getConfigFilename Sample.service Sample.identity))
      Sample2.served = Normal (File "{")
  ∧ Sample.parse (id "{") = None
  ∧ getConfig Sample.parse id Sample2.fabs Sample.service Sample.identity
      Sample2.served
    = (Throw SyntaxError, Sample2.served)
  ∧ getConfigFilename Sample.service Sample.identity
    = ("contracts" +:+ "/" +:+ Number_toString 1 +:+ "/" +:+ Sample.address)
      +:+ "/" +:+ "configs.json".
Proof.
  assert (H3 : fs.find
                 (Sample2.fabs (getConfigFilename Sample.service Sample2.identity3))
                 Sample2.served = Throw ENOENT) by (vm_compute; reflexivity).
  assert (H2 : fs.find
                 (Sample2.fabs (getConfigFilename Sample.service Sample2.identity2))
                 Sample2.served = Throw ENOTDIR) by (vm_compute; reflexivity).
  assert (H1 : fs.find
                 (Sample2.fabs (getConfigFilename Sample.service Sample.identity))
                 Sample2.served = Normal (File "{")) by (vm_compute; reflexivity).
  split; [split; [exact H3|]|].
  { exact (proj1 (proj1 (getConfig_spec unit Sample.parse id Sample2.fabs
                           Sample.service Sample2.identity3 Sample2.served)
                    ENOENT H3)). }
  split; [split; [exact H2|]|].
  { exact (proj1 (proj1 (getConfig_spec unit Sample.parse id Sample2.fabs
                           Sample.service Sample2.identity2 Sample2.served)
                    ENOTDIR H2)). }
  split; [exact H1|]. split; [reflexivity|]. split.
  { exact (proj1 (proj2 (getConfig_spec unit Sample.parse id Sample2.fabs
                           Sample.service Sample.identity Sample2.served))
             "{" H1 eq_refl). }
  exact (proj2 (proj2 (proj2 (getConfig_spec unit Sample.parse id Sample2.fabs
                                Sample.service Sample.identity Sample2.served)))
           eq_refl eq_refl eq_refl eq_refl).
Defined.

(** * Further properties *)

(** ** [match] on the texts it accepts *)

(** X1. Every text made of the directory name of the service, a chain id
    segment of decimal digits and an address segment of 0x and 40 lowercase
    hexadecimal digits, followed by nothing or by a [/] and anything, is
    matched: [dir] is the text up to the address, the chain id is the
    Number nearest to the decimal value, and the subpath is what follows up
    to its first line terminator. *)
Theorem match_accepts (svc : ContractService) (ds hx aft : string) :
  plainDirname svc = true →
  Shape.isDecimalInteger ds = true →
  String.length hx = 40 →
  Str.forallb Shape.isLowerHexDigit hx = true →
  (aft = "" ∨ ∃ t, aft = String "/" t) →
  match_ svc (dirname svc +:+ "/" +:+ ds +:+ "/" +:+ "0x" +:+ hx +:+ aft)
  = Normal (Some
      {| original := dirname svc +:+ "/" +:+ ds +:+ "/" +:+ "0x" +:+ hx +:+ aft;
         dir := dirname svc +:+ "/" +:+ ds +:+ "/" +:+ "0x" +:+ hx;
         chainId := round_binary64 (decimalValue ds);
         address := "0x" +:+ hx;
         subpath := upToLineTerminator aft |}).
Proof.
  intros Hplain [Hne Hds]%MatchMore.isDecimalInteger_spec Hlen Hhx Haft.
  apply MatchMore.digits_of_shape in Hds.
  apply MatchMore.hex_of_shape in Hhx.
  rewrite MatchFacts.match_parts, MatchFacts.pathParts_intro by done.
  cbn [fmap option_fmap option_map matchOfParts].
  by rewrite parseInt_decimal.
Qed.

Lemma match_accepts_witness :
  plainDirname Sample.service = true
  ∧ Shape.isDecimalInteger "123" = true
  ∧ String.length "deadbeefdeadbeefdeadbeefdeadbeefdeadbeef" = 40
  ∧ Str.forallb Shape.isLowerHexDigit "deadbeefdeadbeefdeadbeefdeadbeefdeadbeef"
    = true
  ∧ match_ Sample.service
      ("contracts/123/0xdeadbeefdeadbeefdeadbeefdeadbeefdeadbeef/sub"
       +:+ Sample.LF +:+ "path")
    = Normal (Some
        {| original :=
             "contracts/123/0xdeadbeefdeadbeefdeadbeefdeadbeefdeadbeef/sub"
             +:+ Sample.LF +:+ "path";
           dir := "contracts/123/0xdeadbeefdeadbeefdeadbeefdeadbeefdeadbeef";
           chainId := Finite 123;
           address := "0xdeadbeefdeadbeefdeadbeefdeadbeefdeadbeef";
           subpath := "/sub" |}).
Proof.
  split; [reflexivity|]. split; [reflexivity|]. split; [reflexivity|].
  split; [reflexivity|].
  apply (match_accepts Sample.service "123"
           "deadbeefdeadbeefdeadbeefdeadbeefdeadbeef"
           ("/sub" +:+ Sample.LF +:+ "path")); try reflexivity.
  right. by eexists.
Defined.

(** X2. What a match holds, for a service whose directory name has no
    pattern syntax.  Whenever [match] succeeds, the text is
    [<dirname>/<digits>/<address>] followed by nothing or by a [/] and
    more, where the digits are decimal and the address is 0x and 40
    lowercase hexadecimal digits, 42 characters.  [original] is the text,
    [dir] is the text up to the end of the address, the chain id is the
    Number nearest to the value of the digits, so it is never NaN, and the
    subpath is what follows the address up to its first line terminator:
    it has no line terminator, it is empty or starts with [/], and when
    nothing after the address is a line terminator it is all that follows,
    so that [dir] and the subpath make up the text. *)
Theorem match_result_wellformed (svc : ContractService) (str : string)
    (m : ContractFileMatch) :
  plainDirname svc = true →
  match_ svc str = Normal (Some m) →
  ∃ digits after,
    Shape.isDecimalInteger digits = true
    ∧ Shape.isAddressSegment (address m) = true
    ∧ (after = "" ∨ ∃ t, after = String "/" t)
    ∧ str = dirname svc +:+ "/" +:+ digits +:+ "/" +:+ address m +:+ after
    ∧ original m = str
    ∧ dir m = dirname svc +:+ "/" +:+ digits +:+ "/" +:+ address m
    ∧ chainId m = round_binary64 (decimalValue digits)
    ∧ subpath m = upToLineTerminator after
    ∧ String.length (address m) = 42
    ∧ chainId m ≠ NaN
    ∧ noLineTerminator (subpath m) = true
    ∧ (subpath m = "" ∨ ∃ t, subpath m = String "/" t)
    ∧ (noLineTerminator after = true →
       subpath m = after ∧ str = dir m +:+ subpath m).
Proof.
  intros Hplain. rewrite MatchFacts.match_parts by done.
  destruct (pathParts (dirname svc) str) as [[[ds hx] aft]|] eqn:E; [|done].
  intros [= <-].
  apply MatchFacts.pathParts_Some in E as (-> & Hne & Hds & Hlen & Hhx & Haft).
  cbn [matchOfParts original address dir chainId subpath].
  rewrite parseInt_decimal by done.
  exists ds, aft.
  split.
  { apply MatchMore.isDecimalInteger_spec.
    split; [done|]. by apply MatchMore.shape_of_digits. }
  split.
  { change (Nat.eqb (String.length hx) 40
            && Str.forallb Shape.isLowerHexDigit hx = true).
    rewrite Hlen. by apply MatchMore.shape_of_hex. }
  split; [done|].
  split; [by rewrite !StrFacts.app_assoc|].
  split; [done|]. split; [done|]. split; [done|]. split; [done|].
  split; [change (S (S (String.length hx)) = 42); by rewrite Hlen|].
  split; [apply MatchMore.round_binary64_not_NaN|].
  split; [apply MatchMore.upToLineTerminator_noLineTerminator|].
  split.
  { destruct Haft as [->|[t ->]]; [by left|right]. by eexists. }
  intros Hlt. rewrite (MatchMore.upToLineTerminator_id aft Hlt).
  split; [done|]. by rewrite !StrFacts.app_assoc.
Qed.

Lemma match_result_wellformed_witness :
  plainDirname Sample.service = true
  ∧ match_ Sample.service ("contracts/123/" +:+ Sample.address +:+ "/sub/path")
    = Normal (Some
        {| original := "contracts/123/" +:+ Sample.address +:+ "/sub/path";
           dir := "contracts/123/" +:+ Sample.address;
           chainId := Finite 123;
           address := Sample.address;
           subpath := "/sub/path" |})
  ∧ ∃ digits after,
      Shape.isDecimalInteger digits = true
      ∧ Shape.isAddressSegment Sample.address = true
      ∧ (after = "" ∨ ∃ t, after = String "/" t)
      ∧ "contracts/123/" +:+ Sample.address +:+ "/sub/path"
        = "contracts" +:+ "/" +:+ digits +:+ "/" +:+ Sample.address +:+ after
      ∧ "contracts/123/" +:+ Sample.address +:+ "/sub/path"
        = "contracts/123/" +:+ Sample.address +:+ "/sub/path"
      ∧ "contracts/123/" +:+ Sample.address
        = "contracts" +:+ "/" +:+ digits +:+ "/" +:+ Sample.address
      ∧ Finite 123 = round_binary64 (decimalValue digits)
      ∧ "/sub/path" = upToLineTerminator after
      ∧ String.length Sample.address = 42
      ∧ Finite 123 ≠ NaN
      ∧ noLineTerminator "/sub/path" = true
      ∧ ("/sub/path" = "" ∨ ∃ t, "/sub/path" = String "/" t)
      ∧ (noLineTerminator after = true →
         "/sub/path" = after
         ∧ "contracts/123/" +:+ Sample.address +:+ "/sub/path"
           = ("contracts/123/" +:+ Sample.address) +:+ "/sub/path").
Proof.
  split; [reflexivity|]. split; [vm_compute; reflexivity|].
  apply (match_result_wellformed Sample.service
           ("contracts/123/" +:+ Sample.address +:+ "/sub/path")
           {| original := "contracts/123/" +:+ Sample.address +:+ "/sub/path";
              dir := "contracts/123/" +:+ Sample.address;
              chainId := Finite 123;
              address := Sample.address;
              subpath := "/sub/path" |}).
  - reflexivity.
  - vm_compute; reflexivity.
Defined.

(** X3. For a service whose directory name has no pattern syntax, the
    [dir] of a match is itself matched, to the same chain id and address,
    with itself as [dir] and an empty subpath. *)
Theorem match_dir_matches (svc : ContractService) (str : string)
    (m : ContractFileMatch) :
  plainDirname svc = true →
  match_ svc str = Normal (Some m) →
  match_ svc (dir m)
  = Normal (Some
      {| original := dir m;
         dir := dir m;
         chainId := chainId m;
         address := address m;
         subpath := "" |}).
Proof.
  intros Hplain. rewrite !MatchFacts.match_parts by done.
  destruct (pathParts (dirname svc) str) as [[[ds hx] aft]|] eqn:E; [|done].
  intros [= <-].
  apply MatchFacts.pathParts_Some in E as (-> & Hne & Hds & Hlen & Hhx & Haft).
  cbn [matchOfParts address dir chainId subpath].
  pose proof (MatchFacts.pathParts_intro (dirname svc) ds hx "" Hne Hds Hlen Hhx
                (or_introl eq_refl)) as Hp.
  rewrite StrFacts.app_nil_r in Hp. by rewrite Hp.
Qed.

Lemma match_dir_matches_witness :
  plainDirname Sample.service = true
  ∧ match_ Sample.service ("contracts/123/" +:+ Sample.address +:+ "/sub/path")
    = Normal (Some
        {| original := "contracts/123/" +:+ Sample.address +:+ "/sub/path";
           dir := "contracts/123/" +:+ Sample.address;
           chainId := Finite 123;
           address := Sample.address;
           subpath := "/sub/path" |})
  ∧ match_ Sample.service ("contracts/123/" +:+ Sample.address)
    = Normal (Some
        {| original := "contracts/123/" +:+ Sample.address;
           dir := "contracts/123/" +:+ Sample.address;
           chainId := Finite 123;
           address := Sample.address;
           subpath := "" |}).
Proof.
  split; [reflexivity|]. split; [vm_compute; reflexivity|].
  apply (match_dir_matches Sample.service
           ("contracts/123/" +:+ Sample.address +:+ "/sub/path")
           {| original := "contracts/123/" +:+ Sample.address +:+ "/sub/path";
              dir := "contracts/123/" +:+ Sample.address;
              chainId := Finite 123;
              address := Sample.address;
              subpath := "/sub/path" |}).
  - reflexivity.
  - vm_compute; reflexivity.
Defined.

(** X4. For a service whose directory name has no pattern syntax, leading
    zeros of the chain id segment are accepted and do not change the chain
    id: a path and the same path with a zero put before its chain id
    segment match to the same chain id, address and subpath, with
    different [dir]s. *)
Theorem match_leading_zero (svc : ContractService) (ds hx aft : string) :
  plainDirname svc = true →
  Shape.isDecimalInteger ds = true →
  String.length hx = 40 →
  Str.forallb Shape.isLowerHexDigit hx = true →
  (aft = "" ∨ ∃ t, aft = String "/" t) →
  ∃ m m0,
    match_ svc (dirname svc +:+ "/" +:+ ds +:+ "/" +:+ "0x" +:+ hx +:+ aft)
    = Normal (Some m)
    ∧ match_ svc
        (dirname svc +:+ "/" +:+ String "0" ds +:+ "/" +:+ "0x" +:+ hx +:+ aft)
      = Normal (Some m0)
    ∧ chainId m0 = chainId m
    ∧ address m0 = address m
    ∧ subpath m0 = subpath m
    ∧ dir m0 ≠ dir m.
Proof.
  intros Hplain Hds Hlen Hhx Haft.
  assert (Hds0 : Shape.isDecimalInteger (String "0" ds) = true).
  { apply MatchMore.isDecimalInteger_spec in Hds as [_ Hds].
    apply MatchMore.isDecimalInteger_spec. split; [done|].
    cbn [Str.forallb]. by rewrite Hds. }
  eexists _, _.
  split; [by apply MatchMore.match_intro|].
  split; [by apply MatchMore.match_intro|].
  cbn [chainId address subpath dir].
  split; [reflexivity|]. split; [done|]. split; [done|].
  intros Heq. apply StrFacts.app_inv_head in Heq.
  apply (f_equal String.length) in Heq.
  change ("/" +:+ String "0" ds +:+ "/" +:+ "0x" +:+ hx)
    with (String "/" (String "0" (ds +:+ "/" +:+ "0x" +:+ hx))) in Heq.
  change ("/" +:+ ds +:+ "/" +:+ "0x" +:+ hx)
    with (String "/" (ds +:+ "/" +:+ "0x" +:+ hx)) in Heq.
  simpl in Heq. lia.
Qed.

Lemma match_leading_zero_witness :
  plainDirname Sample.service = true
  ∧ Shape.isDecimalInteger "1" = true
  ∧ ∃ m m0,
      match_ Sample.service ("contracts/1/" +:+ Sample.address) = Normal (Some m)
      ∧ match_ Sample.service ("contracts/01/" +:+ Sample.address)
        = Normal (Some m0)
      ∧ chainId m0 = chainId m
      ∧ address m0 = address m
      ∧ subpath m0 = subpath m
      ∧ dir m0 ≠ dir m.
Proof.
  split; [reflexivity|]. split; [reflexivity|].
  apply (match_leading_zero Sample.service "1"
           "deadbeefdeadbeefdeadbeefdeadbeefdeadbeef" ""); try reflexivity.
  by left.
Defined.

(** X17. For a service whose directory name has no pattern syntax, every
    text that does not have the accepted shape
    [<dirname>/<chainIdSegment>/<addressSegment>[/<anything>]] from its
    start gives null. *)
Theorem match_rejects_unaccepted (svc : ContractService) (str : string) :
  plainDirname svc = true →
  Shape.accepted (dirname svc) str = false →
  match_ svc str = Normal None.
Proof.
  intros Hplain Hshape. rewrite MatchFacts.match_parts by done.
  destruct (pathParts (dirname svc) str) as [p|] eqn:E; [|done].
  apply pathParts_accepted in E. congruence.
Qed.

Lemma match_rejects_unaccepted_witness :
  plainDirname Sample.service = true
  ∧ Shape.accepted (dirname Sample.service)
      ("contracts/1/" +:+ Sample.ADDRESS +:+ "/sub") = false
  ∧ match_ Sample.service ("contracts/1/" +:+ Sample.ADDRESS +:+ "/sub")
    = Normal None.
Proof.
  split; [reflexivity|]. split; [reflexivity|].
  apply (match_rejects_unaccepted Sample.service
           ("contracts/1/" +:+ Sample.ADDRESS +:+ "/sub")); reflexivity.
Defined.

(** X18. For a service whose directory name has no pattern syntax, [match]
    throws on no text: it gives a match or null, and it gives a match
    exactly on the texts [<dirname>/<digits>/0x<40 lowercase hexadecimal
    digits>] followed by nothing or by a [/] and more. *)
Theorem match_total (svc : ContractService) (str : string) :
  plainDirname svc = true →
  ∃ result,
    match_ svc str = Normal result
    ∧ (is_Some result ↔
       ∃ digits hx after,
         Shape.isDecimalInteger digits = true
         ∧ String.length hx = 40
         ∧ Str.forallb Shape.isLowerHexDigit hx = true
         ∧ (after = "" ∨ ∃ t, after = String "/" t)
         ∧ str = dirname svc +:+ "/" +:+ digits +:+ "/" +:+ "0x" +:+ hx
                 +:+ after).
Proof.
  intros Hplain. rewrite MatchFacts.match_parts by done.
  eexists. split; [reflexivity|]. split.
  - intros [m Hm]. apply fmap_Some in Hm as ([[ds hx] aft] & E & _).
    apply MatchFacts.pathParts_Some in E as (-> & Hne & Hds & Hlen & Hhx & Haft).
    exists ds, hx, aft. split.
    { apply MatchMore.isDecimalInteger_spec.
      split; [done|]. by apply MatchMore.shape_of_digits. }
    split; [done|]. split; [by apply MatchMore.shape_of_hex|done].
  - intros (ds & hx & aft & [Hne Hds]%MatchMore.isDecimalInteger_spec
            & Hlen & Hhx & Haft & ->).
    apply MatchMore.digits_of_shape in Hds.
    apply MatchMore.hex_of_shape in Hhx.
    rewrite MatchFacts.pathParts_intro by done. by eexists.
Qed.

Lemma match_total_witness :
  plainDirname Sample.service = true
  ∧ ∃ result,
      match_ Sample.service "contracts/1/not-an-address" = Normal result
      ∧ (is_Some result ↔
         ∃ digits hx after,
           Shape.isDecimalInteger digits = true
           ∧ String.length hx = 40
           ∧ Str.forallb Shape.isLowerHexDigit hx = true
           ∧ (after = "" ∨ ∃ t, after = String "/" t)
           ∧ "contracts/1/not-an-address"
             = dirname Sample.service +:+ "/" +:+ digits +:+ "/" +:+ "0x"
               +:+ hx +:+ after).
Proof.
  split; [reflexivity|].
  apply (match_total Sample.service "contracts/1/not-an-address").
  reflexivity.
Defined.

(** ** Directory and file names *)



(** X5. The layout of the store.  For a service whose directory name is a
    normal path (names joined by [/], not rewritten by [path.join]), a
    chain id below 2^53, an address that is a single name and basenames
    that are single names, the chain directory is
    [<dirname>/<chainId in decimal>], the address directory is
    [<dirname>/<chainId>/<address>], and the config, input and metadata
    files are the basenames in that directory. *)
Theorem filenames_layout (svc : ContractService)
    (identity : ContractIdentity.t) :
  isNormalPath (dirname svc) = true →
  (ContractIdentity.chainId identity < 2 ^ 53)%N →
  Path.isName (ContractIdentity.address identity) = true →
  let chainDir :=
    dirname svc +:+ "/"
    +:+ Number_toString (ContractIdentity.chainId identity) in
  let addressDir := chainDir +:+ "/" +:+ ContractIdentity.address identity in
  Shape.isDecimalInteger
    (Number_toString (ContractIdentity.chainId identity)) = true
  ∧ decimalValue (Number_toString (ContractIdentity.chainId identity))
    = ContractIdentity.chainId identity
  ∧ getChainDirname svc (ContractIdentity.chainId identity) = chainDir
  ∧ getAddressDirname svc identity = addressDir
  ∧ (Path.isName (configBasename svc) = true →
     getConfigFilename svc identity = addressDir +:+ "/" +:+ configBasename svc)
  ∧ (Path.isName (inputBasename svc) = true →
     getInputFilename svc identity = addressDir +:+ "/" +:+ inputBasename svc)
  ∧ (Path.isName (metadataBasename svc) = true →
     getMetadataFilename svc identity
     = addressDir +:+ "/" +:+ metadataBasename svc).
Proof.
  intros Hd _ Haddr chainDir addressDir.
  destruct (NamesMore.getAddressDirname_normal svc identity Hd Haddr)
    as [Ha Hn].
  assert (Hfile : ∀ base, Path.isName base = true →
            Path.join [getAddressDirname svc identity; base]
            = addressDir +:+ "/" +:+ base).
  { intros base Hbase. rewrite PathMore.join_normal by done.
    rewrite Ha. unfold addressDir, chainDir.
    by rewrite !StrFacts.app_assoc. }
  split; [apply PathMore.toString_digits|].
  split; [apply PathMore.toString_value|].
  split; [by apply NamesMore.getChainDirname_normal|].
  split; [rewrite Ha; unfold addressDir, chainDir;
          by rewrite !StrFacts.app_assoc|].
  repeat split; intros Hb; by apply Hfile.
Qed.

Lemma filenames_layout_witness :
  isNormalPath (dirname Sample.service) = true
  ∧ (ContractIdentity.chainId Sample.identity < 2 ^ 53)%N
  ∧ Path.isName (ContractIdentity.address Sample.identity) = true
  ∧ Path.isName (metadataBasename Sample.service) = true
  ∧ getMetadataFilename Sample.service Sample.identity
    = (("contracts" +:+ "/" +:+ Number_toString 1) +:+ "/" +:+ Sample.address)
      +:+ "/" +:+ "metadata.json".
Proof.
  split; [reflexivity|]. split; [reflexivity|]. split; [reflexivity|].
  split; [reflexivity|].
  apply (filenames_layout Sample.service Sample.identity); reflexivity.
Defined.

(** X6. Different identities never share a directory or a file: for
    addresses that are single names (and a basename that is a single name),
    the address directory, and each of the config, input and metadata file
    names, determines the chain id and the address. *)
Theorem filenames_injective (svc : ContractService)
    (i1 i2 : ContractIdentity.t) :
  Path.isName (ContractIdentity.address i1) = true →
  Path.isName (ContractIdentity.address i2) = true →
  (getAddressDirname svc i1 = getAddressDirname svc i2 → i1 = i2)
  ∧ (Path.isName (configBasename svc) = true →
     getConfigFilename svc i1 = getConfigFilename svc i2 → i1 = i2)
  ∧ (Path.isName (inputBasename svc) = true →
     getInputFilename svc i1 = getInputFilename svc i2 → i1 = i2)
  ∧ (Path.isName (metadataBasename svc) = true →
     getMetadataFilename svc i1 = getMetadataFilename svc i2 → i1 = i2).
Proof.
  intros H1 H2. split.
  - intros Heq.
    destruct (NamesMore.getAddressDirname_segments svc i1 H1) as (p1 & Hp1).
    destruct (NamesMore.getAddressDirname_segments svc i2 H2) as (p2 & Hp2).
    rewrite Heq, Hp2 in Hp1.
    change (p2 ++ [?a; ?b]) with (p2 ++ [a] ++ [b]) in Hp1.
    change (p1 ++ [?a; ?b]) with (p1 ++ [a] ++ [b]) in Hp1.
    rewrite !(assoc_L (++)) in Hp1.
    apply PathFacts.app_snoc_inj in Hp1 as [Hp1 Haddr].
    apply PathFacts.app_snoc_inj in Hp1 as [_ Hn].
    by apply NamesMore.identity_eq.
  - repeat split; intros Hb Heq; by eapply NamesMore.file_inj.
Qed.

Lemma filenames_injective_witness :
  Path.isName (ContractIdentity.address Sample.identity) = true
  ∧ Path.isName (ContractIdentity.address Sample.IDENTITY) = true
  ∧ (getAddressDirname Sample.service Sample.identity
     = getAddressDirname Sample.service Sample.IDENTITY →
     Sample.identity = Sample.IDENTITY).
Proof.
  split; [reflexivity|]. split; [reflexivity|].
  apply (filenames_injective Sample.service Sample.identity Sample.IDENTITY);
    reflexivity.
Defined.

(** ** [match] on the names the service makes *)

Module RoundTrip.
Import Str StrFacts Path PathFacts PathMore.

Lemma match_directory (svc : ContractService) (n : N) (hx : string) :
  plainDirname svc = true →
  (n < 2 ^ 53)%N →
  String.length hx = 40 →
  forallb Shape.isLowerHexDigit hx = true →
  ∀ aft, (aft = "" ∨ ∃ t, aft = String "/" t) →
  match_ svc
    (dirname svc +:+ "/" +:+ Number_toString n +:+ "/" +:+ "0x" +:+ hx +:+ aft)
  = Normal (Some
      {| original :=
           dirname svc +:+ "/" +:+ Number_toString n +:+ "/" +:+ "0x" +:+ hx
           +:+ aft;
         dir := dirname svc +:+ "/" +:+ Number_toString n +:+ "/" +:+ "0x" +:+ hx;
         chainId := Finite n;
         address := "0x" +:+ hx;
         subpath := upToLineTerminator aft |}).
Proof.
  intros Hplain Hn Hlen Hhx aft Haft.
  rewrite MatchMore.match_intro by (done || apply toString_digits).
  by rewrite toString_value, round_binary64_exact.
Qed.

Lemma match_file (svc : ContractService) (i : ContractIdentity.t)
    (base : string) :
  plainDirname svc = true →
  isNormalPath (dirname svc) = true →
  (ContractIdentity.chainId i < 2 ^ 53)%N →
  Shape.isAddressSegment (ContractIdentity.address i) = true →
  isName base = true →
  noLineTerminator base = true →
  match_ svc (join [getAddressDirname svc i; base])
  = Normal (Some
      {| original := join [getAddressDirname svc i; base];
         dir := getAddressDirname svc i;
         chainId := Finite (ContractIdentity.chainId i);
         address := ContractIdentity.address i;
         subpath := "/" +:+ base |}).
Proof.
  intros Hplain Hd Hn Haddr Hbase Hlt.
  pose proof (isName_address _ Haddr) as Hname.
  destruct (NamesMore.getAddressDirname_normal svc i Hd Hname) as [Ha Hnorm].
  rewrite join_normal by done. rewrite Ha.
  apply isAddressSegment_inv in Haddr as (hx & Hx & Hlen & Hhx).
  rewrite Hx.
  pose proof (match_directory svc _ hx Hplain Hn Hlen Hhx
                (String "/" base) (or_intror (ex_intro _ base eq_refl))) as H.
  rewrite !app_assoc. rewrite H. do 3 f_equal.
  change (upToLineTerminator (String "/" base))
    with (String "/" (upToLineTerminator base)).
  by rewrite MatchMore.upToLineTerminator_id.
Qed.

End RoundTrip.

(** X7. [match] reads back the directory that [getAddressDirname] makes:
    for a service whose directory name is a normal path, a chain id below
    2^53 and an address of 0x and 40 lowercase hexadecimal digits, the match
    of the address directory has that chain id and address, the directory
    as [dir], and an empty subpath. *)
Theorem match_getAddressDirname (svc : ContractService)
    (identity : ContractIdentity.t) :
  plainDirname svc = true →
  isNormalPath (dirname svc) = true →
  (ContractIdentity.chainId identity < 2 ^ 53)%N →
  Shape.isAddressSegment (ContractIdentity.address identity) = true →
  match_ svc (getAddressDirname svc identity)
  = Normal (Some
      {| original := getAddressDirname svc identity;
         dir := getAddressDirname svc identity;
         chainId := Finite (ContractIdentity.chainId identity);
         address := ContractIdentity.address identity;
         subpath := "" |}).
Proof.
  intros Hplain Hd Hn Haddr.
  pose proof (PathMore.isName_address _ Haddr) as Hname.
  destruct (NamesMore.getAddressDirname_normal svc identity Hd Hname) as [-> _].
  apply PathMore.isAddressSegment_inv in Haddr as (hx & -> & Hlen & Hhx).
  pose proof (RoundTrip.match_directory svc _ hx Hplain Hn Hlen Hhx ""
                (or_introl eq_refl)) as H.
  rewrite StrFacts.app_nil_r in H. exact H.
Qed.

Lemma match_getAddressDirname_witness :
  plainDirname Sample.service = true
  ∧ isNormalPath (dirname Sample.service) = true
  ∧ (ContractIdentity.chainId Sample.identity < 2 ^ 53)%N
  ∧ Shape.isAddressSegment (ContractIdentity.address Sample.identity) = true
  ∧ match_ Sample.service (getAddressDirname Sample.service Sample.identity)
    = Normal (Some
        {| original := getAddressDirname Sample.service Sample.identity;
           dir := getAddressDirname Sample.service Sample.identity;
           chainId := Finite 1;
           address := Sample.address;
           subpath := "" |}).
Proof.
  split; [reflexivity|]. split; [reflexivity|]. split; [reflexivity|].
  split; [reflexivity|].
  apply (match_getAddressDirname Sample.service Sample.identity); reflexivity.
Defined.

(** X8. [match] reads an identity back from the name of each of its files:
    under the conditions of X7 and for basenames that are single names
    without line terminator, the match of the config, input and metadata
    file names has the chain id and address of the identity, the address
    directory as [dir], and [/] and the basename as subpath. *)
Theorem match_filenames (svc : ContractService)
    (identity : ContractIdentity.t) :
  plainDirname svc = true →
  isNormalPath (dirname svc) = true →
  (ContractIdentity.chainId identity < 2 ^ 53)%N →
  Shape.isAddressSegment (ContractIdentity.address identity) = true →
  let found (filename basename : string) :=
    match_ svc filename
    = Normal (Some
        {| original := filename;
           dir := getAddressDirname svc identity;
           chainId := Finite (ContractIdentity.chainId identity);
           address := ContractIdentity.address identity;
           subpath := "/" +:+ basename |}) in
  (Path.isName (configBasename svc) = true →
   noLineTerminator (configBasename svc) = true →
   found (getConfigFilename svc identity) (configBasename svc))
  ∧ (Path.isName (inputBasename svc) = true →
     noLineTerminator (inputBasename svc) = true →
     found (getInputFilename svc identity) (inputBasename svc))
  ∧ (Path.isName (metadataBasename svc) = true →
     noLineTerminator (metadataBasename svc) = true →
     found (getMetadataFilename svc identity) (metadataBasename svc)).
Proof.
  intros Hplain Hd Hn Haddr found.
  repeat split; intros Hb Hlt; by apply RoundTrip.match_file.
Qed.

Lemma match_filenames_witness :
  plainDirname Sample.service = true
  ∧ isNormalPath (dirname Sample.service) = true
  ∧ (ContractIdentity.chainId Sample.identity < 2 ^ 53)%N
  ∧ Shape.isAddressSegment (ContractIdentity.address Sample.identity) = true
  ∧ Path.isName (metadataBasename Sample.service) = true
  ∧ noLineTerminator (metadataBasename Sample.service) = true
  ∧ match_ Sample.service (getMetadataFilename Sample.service Sample.identity)
    = Normal (Some
        {| original := getMetadataFilename Sample.service Sample.identity;
           dir := getAddressDirname Sample.service Sample.identity;
           chainId := Finite 1;
           address := Sample.address;
           subpath := "/metadata.json" |}).
Proof.
  split; [reflexivity|]. split; [reflexivity|]. split; [reflexivity|].
  split; [reflexivity|]. split; [reflexivity|]. split; [reflexivity|].
  apply (match_filenames Sample.service Sample.identity); reflexivity.
Defined.

(** X9. A directory name that ends with [/] breaks the link between the
    names and [match].  For a directory name [<d>/] without pattern syntax,
    where [<d>] is a normal path, a chain id below 2^53 and an address that
    is a single name: [path.join] drops the doubled separator, so the
    address directory is [<d>/<chainId>/<address>], while the pattern asks
    for [<d>//] before the chain id; [match] then returns null on the
    address directory. *)
Theorem match_trailing_separator (svc : ContractService) (d : string)
    (identity : ContractIdentity.t) :
  plainDirname svc = true →
  dirname svc = d +:+ "/" →
  isNormalPath d = true →
  (ContractIdentity.chainId identity < 2 ^ 53)%N →
  Path.isName (ContractIdentity.address identity) = true →
  getAddressDirname svc identity
  = d +:+ "/" +:+ Number_toString (ContractIdentity.chainId identity)
    +:+ "/" +:+ ContractIdentity.address identity
  ∧ match_ svc (getAddressDirname svc identity) = Normal None.
Proof.
  intros Hplain Hsvc Hd _ Haddr.
  assert (Ha : getAddressDirname svc identity
               = d +:+ "/" +:+ Number_toString (ContractIdentity.chainId identity)
                 +:+ "/" +:+ ContractIdentity.address identity).
  { unfold getAddressDirname, getChainDirname. rewrite Hsvc.
    rewrite PathMore.join_normal_trailing
      by (done || apply NamesMore.toString_isName).
    rewrite PathMore.join_normal; [by rewrite StrFacts.app_assoc| |done].
    apply PathMore.isNormalPath_snoc; [done|apply NamesMore.toString_isName]. }
  split; [done|]. rewrite Ha, MatchFacts.match_parts by done.
  unfold pathParts.
  rewrite Hsvc.
  replace (d +:+ "/" +:+ Number_toString (ContractIdentity.chainId identity)
           +:+ "/" +:+ ContractIdentity.address identity)
    with ((d +:+ "/")
          +:+ Number_toString (ContractIdentity.chainId identity)
          +:+ "/" +:+ ContractIdentity.address identity)
    by (by rewrite StrFacts.app_assoc).
  rewrite StrFacts.stripPrefix_app. cbn [mbind option_bind].
  pose proof (PathMore.toString_digits (ContractIdentity.chainId identity))
    as [Hne Hds]%MatchMore.isDecimalInteger_spec.
  destruct (Number_toString (ContractIdentity.chainId identity))
    as [|c ds]; [done|].
  rewrite StrFacts.app_cons, MatchFacts.stripPrefix_sep.
  cbn [Str.forallb] in Hds. apply andb_prop in Hds as [Hc _].
  rewrite <- MatchFacts.digitRange_spec in Hc.
  by rewrite (MatchFacts.digit_not_sep c Hc).
Qed.

Lemma match_trailing_separator_witness :
  plainDirname Sample2.slashService = true
  ∧ dirname Sample2.slashService = "contracts" +:+ "/"
  ∧ isNormalPath "contracts" = true
  ∧ (ContractIdentity.chainId Sample.identity < 2 ^ 53)%N
  ∧ Path.isName (ContractIdentity.address Sample.identity) = true
  ∧ getAddressDirname Sample2.slashService Sample.identity
    = "contracts" +:+ "/" +:+ Number_toString 1 +:+ "/" +:+ Sample.address
  ∧ match_ Sample2.slashService
      (getAddressDirname Sample2.slashService Sample.identity)
    = Normal None.
Proof.
  split; [reflexivity|]. split; [reflexivity|]. split; [reflexivity|].
  split; [reflexivity|]. split; [reflexivity|].
  apply (match_trailing_separator Sample2.slashService "contracts"
           Sample.identity); reflexivity.
Defined.

(** ** The store operations, further *)

Module StoreMore.

Lemma addrDirnamesOf_spec (rootdir chainDir : string) (st : gmap string node) :
  addrDirnamesOf rootdir chainDir st =
    (match fs.find (Path.join [rootdir; chainDir]) st with
     | Throw e => Throw e
     | Normal (File _) => Throw ENOTDIR
     | Normal (Directory addrDirs) =>
         Normal ((λ addrDir,
                    Path.join [Path.join [rootdir; chainDir]; addrDir])
                 <$> addrDirs)
     end, st).
Proof.
  unfold addrDirnamesOf, andThen, resolve. rewrite FsFacts.readdir_find.
  by destruct (fs.find _ st) as [[]|].
Qed.

Lemma runAll_addrDirnamesOf (rootdir : string) (chainDirs : list string)
    (st : gmap string node) :
  runAll (addrDirnamesOf rootdir <$> chainDirs) st =
    ((λ chainDir, (addrDirnamesOf rootdir chainDir st).1) <$> chainDirs, st).
Proof.
  induction chainDirs as [|chainDir chainDirs IH]; [done|].
  cbn [fmap list_fmap runAll]. rewrite addrDirnamesOf_spec.
  cbn [fst]. fold (fmap (M:=list) (addrDirnamesOf rootdir)).
  by rewrite IH.
Qed.

Lemma omap_rejection_nil {A} (rs : list (Completion A)) :
  omap rejection rs = [] ↔ Forall (λ r, ∃ a, r = Normal a) rs.
Proof.
  induction rs as [|[a|e] rs IH]; simpl.
  - split; [by constructor|done].
  - rewrite IH. split; [intros H; constructor; eauto|by inversion 1].
  - split; [done|]. inversion 1 as [|? ? [a Ha] ?]. done.
Qed.

Lemma firstRejection_None {A} (settled : list nat) (rs : list (Completion A)) :
  firstRejection settled rs = None ↔ Forall (λ r, ∃ a, r = Normal a) rs.
Proof.
  unfold firstRejection. rewrite <- omap_rejection_nil.
  destruct (omap (λ i, rs !! i ≫= rejection) settled) as [|e es] eqn:E.
  - by destruct (omap rejection rs).
  - split; [done|]. intros Hnil.
    assert (He : e ∈ omap (λ i, rs !! i ≫= rejection) settled)
      by (rewrite E; apply list_elem_of_here).
    apply list_elem_of_omap in He as (i & _ & Hi).
    destruct (rs !! i) as [r|] eqn:Er; [|done]. simpl in Hi.
    assert (Hin : e ∈ omap rejection rs).
    { apply list_elem_of_omap. exists r. split; [|done].
      by eapply list_elem_of_lookup_2. }
    rewrite Hnil in Hin. by apply elem_of_nil in Hin.
Qed.

Lemma firstRejection_Some {A} (settled : list nat) (rs : list (Completion A))
    (e : Error) :
  firstRejection settled rs = Some e → Throw e ∈ rs.
Proof.
  unfold firstRejection.
  assert (Hr : ∀ r : Completion A, rejection r = Some e → r = Throw e).
  { intros [a|e'] [=]. by subst. }
  destruct (omap (λ i, rs !! i ≫= rejection) settled) as [|e' es] eqn:E.
  - intros He. apply head_Some_elem_of in He.
    apply list_elem_of_omap in He as (r & Hin & ->%Hr). done.
  - intros [= ->].
    assert (He : e ∈ omap (λ i, rs !! i ≫= rejection) settled)
      by (rewrite E; apply list_elem_of_here).
    apply list_elem_of_omap in He as (i & _ & Hi).
    destruct (rs !! i) as [r|] eqn:Er; [|done]. simpl in Hi.
    apply Hr in Hi as ->. by eapply list_elem_of_lookup_2.
Qed.

Lemma matchContractFiles_normal (filenames : list string)
    (svc : ContractService) :
  plainDirname svc = true →
  ∃ chains, matchContractFiles filenames svc = Normal chains.
Proof.
  intros Hplain.
  destruct (ChainsFacts.matchContractFilesFrom_spec svc filenames ∅ Hplain)
    as (chains & H & _). by exists chains.
Qed.

End StoreMore.

Module ListingMore.
Import Str StrFacts Path PathFacts PathMore.

Lemma forallb_app (f : ascii → bool) (s t : string) :
  forallb f (s +:+ t) = forallb f s && forallb f t.
Proof.
  induction s as [|c s IH]; [done|].
  rewrite app_cons. cbn [forallb]. by rewrite IH, andb_assoc.
Qed.

Lemma isSep_notSep (c : ascii) : Shape.notSep c = negb (isSep c).
Proof. done. Qed.

(** Two texts cut at their first [/] are equal part by part. *)
Lemma app_sep_inj (s1 s2 t1 t2 : string) :
  noSep s1 → noSep s2 →
  s1 +:+ String "/" t1 = s2 +:+ String "/" t2 → s1 = s2 ∧ t1 = t2.
Proof.
  intros H1 H2 Heq.
  destruct (takeWhile_app (λ c, negb (isSep c)) s1 "/" t1 H1 eq_refl)
    as [Ht1 Hd1].
  destruct (takeWhile_app (λ c, negb (isSep c)) s2 "/" t2 H2 eq_refl)
    as [Ht2 Hd2].
  rewrite Heq, Ht2 in Ht1. rewrite Heq, Hd2 in Hd1.
  split; [done|]. by injection Hd1.
Qed.

(** The match of an entry of a chain directory: the entry is an address,
    and the match is that of its address directory. *)
Lemma match_entry (svc : ContractService) (n : N) (e : string)
    (m : ContractFileMatch) :
  plainDirname svc = true →
  isNormalPath (dirname svc) = true →
  (n < 2 ^ 53)%N →
  isName e = true →
  match_ svc (join [getChainDirname svc n; e]) = Normal (Some m) ↔
    Shape.isAddressSegment e = true
    ∧ m = {| original := getChainDirname svc n +:+ "/" +:+ e;
             dir := getChainDirname svc n +:+ "/" +:+ e;
             chainId := Finite n;
             address := e;
             subpath := "" |}.
Proof.
  intros Hplain Hd Hn He.
  pose proof (NamesMore.getChainDirname_normal svc n Hd) as Hc.
  assert (Hcn : isNormalPath (getChainDirname svc n) = true).
  { rewrite Hc. apply isNormalPath_snoc; [done|apply NamesMore.toString_isName]. }
  rewrite join_normal by done. rewrite Hc.
  pose proof He as (_ & _ & _ & He4)%isName_spec.
  split.
  - rewrite MatchFacts.match_parts by done.
    destruct (pathParts (dirname svc) _) as [[[ds hx] aft]|] eqn:E; [|done].
    intros [= <-].
    apply MatchFacts.pathParts_Some in E as (Heq & Hne & Hds & Hlen & Hhx & Haft).
    rewrite app_assoc in Heq.
    apply app_inv_head in Heq.
    change (String "/" (Number_toString n) +:+ String "/" e)
      with (String "/" (Number_toString n +:+ String "/" e)) in Heq.
    change ("/" +:+ ds +:+ "/" +:+ "0x" +:+ hx +:+ aft)
      with (String "/" (ds +:+ String "/" ("0x" +:+ hx +:+ aft))) in Heq.
    injection Heq as Heq.
    apply app_sep_inj in Heq as [<- ->];
      [|apply digit_noSep;
        by apply MatchMore.isDecimalInteger_spec, toString_digits
       |apply digit_noSep; by apply MatchMore.shape_of_digits].
    assert (aft = "") as ->.
    { destruct Haft as [->|[t ->]]; [done|]. exfalso.
      unfold noSep in He4.
      change ("0x" +:+ hx +:+ String "/" t)
        with (String "0" (String "x" (hx +:+ String "/" t))) in He4.
      cbn [forallb] in He4. rewrite forallb_app in He4.
      cbn [forallb] in He4.
      rewrite !andb_true_iff in He4. by destruct He4 as (_ & _ & _ & [? _]). }
    rewrite !(app_nil_r hx). split.
    + change (Nat.eqb (String.length hx) 40
              && forallb Shape.isLowerHexDigit hx = true).
      rewrite Hlen. by apply MatchMore.shape_of_hex.
    + cbn [upToLineTerminator takeWhile].
      rewrite parseInt_decimal by done.
      rewrite toString_value, round_binary64_exact by done.
      f_equal; by rewrite app_assoc.
  - intros [(hx & -> & Hlen & Hhx)%isAddressSegment_inv ->].
    pose proof (RoundTrip.match_directory svc n hx Hplain Hn Hlen Hhx ""
                  (or_introl eq_refl)) as H.
    rewrite (app_nil_r hx) in H.
    assert (Hp : (dirname svc +:+ String "/" (Number_toString n))
                 +:+ String "/" ("0x" +:+ hx)
                 = dirname svc +:+ "/" +:+ Number_toString n +:+ "/"
                   +:+ "0x" +:+ hx).
    { by rewrite app_assoc. }
    change ((dirname svc +:+ String "/" (Number_toString n))
            +:+ "/" +:+ "0x" +:+ hx)
      with ((dirname svc +:+ String "/" (Number_toString n))
            +:+ String "/" ("0x" +:+ hx)).
    by rewrite Hp, H.
Qed.

End ListingMore.

(** X10. For a service whose directory name has no pattern syntax,
    [getChainContracts] never changes the store, and rejects only because
    of the chain directory: with the error of the path resolution when the
    path leads nowhere, which is ENOENT when a component is missing and
    ENOTDIR when a component is a file, with ENOTDIR when the path leads to
    a file, and not at all when it leads to a directory.  When the
    directory name is a normal path and the chain id is below 2^53: the
    call rejects with ENOTDIR when the root directory is a file, and with
    ENOENT when the root is a directory and the store has nothing at
    [<dirname>/<chainId in decimal>]. *)
Theorem getChainContracts_rejections (svc : ContractService) (chainId' : N)
    (st : gmap string node) :
  plainDirname svc = true →
  (getChainContracts svc chainId' st).2 = st
  ∧ (∀ e, (getChainContracts svc chainId' st).1 = Throw e ↔
       fs.find (getChainDirname svc chainId') st = Throw e
       ∨ (e = ENOTDIR
          ∧ ∃ content,
              fs.find (getChainDirname svc chainId') st
              = Normal (File content)))
  ∧ (∀ e, (getChainContracts svc chainId' st).1 = Throw e →
       e = ENOENT ∨ e = ENOTDIR)
  ∧ (isNormalPath (dirname svc) = true →
     (chainId' < 2 ^ 53)%N →
     (∀ content, fs.find (dirname svc) st = Normal (File content) →
        getChainContracts svc chainId' st = (Throw ENOTDIR, st))
     ∧ (∀ chainDirs, fs.find (dirname svc) st = Normal (Directory chainDirs) →
          st !! (dirname svc +:+ "/" +:+ Number_toString chainId') = None →
          getChainContracts svc chainId' st = (Throw ENOENT, st))).
Proof.
  intros Hplain.
  assert (Hrun : getChainContracts svc chainId' st =
    (match fs.find (getChainDirname svc chainId') st with
     | Throw e => Throw e
     | Normal (File _) => Throw ENOTDIR
     | Normal (Directory entries) =>
         (getChainContracts svc chainId' st).1
     end, st)
    ∧ ∀ entries,
        fs.find (getChainDirname svc chainId') st = Normal (Directory entries) →
        ∃ found, (getChainContracts svc chainId' st).1 = Normal found).
  { unfold getChainContracts, andThen. rewrite FsFacts.readdir_find.
    destruct (fs.find (getChainDirname svc chainId') st)
      as [[content|entries]|e] eqn:E; try (split; [done|by intros ? [=]]).
    unfold lift, resolve.
    destruct (StoreMore.matchContractFiles_normal
                ((λ name, Path.join [getChainDirname svc chainId'; name])
                 <$> entries) svc Hplain) as (chains & ->).
    split; [done|]. intros ? _. by eexists. }
  destruct Hrun as [Hrun Hdir].
  assert (Hiff : ∀ e, (getChainContracts svc chainId' st).1 = Throw e ↔
    fs.find (getChainDirname svc chainId') st = Throw e
    ∨ (e = ENOTDIR
       ∧ ∃ content,
           fs.find (getChainDirname svc chainId') st = Normal (File content))).
  { intros e. rewrite Hrun at 1. cbn [fst].
    destruct (fs.find (getChainDirname svc chainId') st)
      as [[content|entries]|e0] eqn:E.
    - split; [intros [= <-]; right; eauto|]. by intros [?|[-> _]].
    - destruct (Hdir entries eq_refl) as [found ->].
      split; [done|]. by intros [?|(_ & ? & ?)].
    - split; [intros [= <-]; by left|]. by intros [[= ->]|(_ & ? & ?)]. }
  split; [by rewrite Hrun|]. split; [exact Hiff|]. split.
  - intros e [He|[-> _]]%Hiff; [|by right]. by eapply FsFacts.find_errors.
  - intros Hd _.
    rewrite Hrun, (NamesMore.getChainDirname_normal svc chainId' Hd).
    rewrite FsFacts.find_snoc by (done || apply NamesMore.toString_isName).
    split.
    + by intros content ->.
    + intros chainDirs -> Hnone.
      change (dirname svc +:+ "/" +:+ Number_toString chainId')
        with (dirname svc +:+ String "/" (Number_toString chainId')) in Hnone.
      by rewrite Hnone.
Qed.

Lemma getChainContracts_rejections_witness :
  plainDirname Sample.service = true
  ∧ isNormalPath (dirname Sample.service) = true
  ∧ (1 < 2 ^ 53)%N
  ∧ fs.find (dirname Sample.service) Sample2.fileRoot = Normal (File "")
  ∧ getChainContracts Sample.service 1 Sample2.fileRoot
    = (Throw ENOTDIR, Sample2.fileRoot)
  ∧ fs.find (dirname Sample.service) Sample2.emptyRoot = Normal (Directory [])
  ∧ Sample2.emptyRoot !! ("contracts" +:+ "/" +:+ Number_toString 1) = None
  ∧ getChainContracts Sample.service 1 Sample2.emptyRoot
    = (Throw ENOENT, Sample2.emptyRoot).
Proof.
  split; [reflexivity|]. split; [reflexivity|]. split; [reflexivity|].
  assert (H1 : fs.find (dirname Sample.service) Sample2.fileRoot
               = Normal (File "")) by (vm_compute; reflexivity).
  assert (H2 : fs.find (dirname Sample.service) Sample2.emptyRoot
               = Normal (Directory [])) by (vm_compute; reflexivity).
  assert (H3 : Sample2.emptyRoot !! ("contracts" +:+ "/" +:+ Number_toString 1)
               = None) by (vm_compute; reflexivity).
  split; [exact H1|]. split.
  { exact (proj1 (proj2 (proj2 (proj2 (getChainContracts_rejections
             Sample.service 1 Sample2.fileRoot eq_refl))) eq_refl eq_refl)
             "" H1). }
  split; [exact H2|]. split; [exact H3|].
  exact (proj2 (proj2 (proj2 (proj2 (getChainContracts_rejections
           Sample.service 1 Sample2.emptyRoot eq_refl))) eq_refl eq_refl)
           [] H2 H3).
Defined.

(** X11. The contracts of a chain.  For a service whose directory name is a
    normal path without pattern syntax, a chain id below 2^53 and a chain
    directory whose entries are single names, [getChainContracts] resolves
    with the mapping whose keys are the entries that are addresses (0x and
    40 lowercase hexadecimal digits); each is mapped to the match of its
    address directory, with the chain id asked for and an empty subpath.
    Every other entry is left out. *)
Theorem getChainContracts_listing (svc : ContractService) (chainId' : N)
    (st : gmap string node) (entries : list string) :
  plainDirname svc = true →
  isNormalPath (dirname svc) = true →
  (chainId' < 2 ^ 53)%N →
  fs.find (getChainDirname svc chainId') st = Normal (Directory entries) →
  Forall (λ entry, Path.isName entry = true) entries →
  ∃ found : gmap string ContractFileMatch,
    getChainContracts svc chainId' st = (Normal found, st)
    ∧ ∀ addr m,
        found !! addr = Some m ↔
          addr ∈ entries
          ∧ Shape.isAddressSegment addr = true
          ∧ m = {| original := getChainDirname svc chainId' +:+ "/" +:+ addr;
                   dir := getChainDirname svc chainId' +:+ "/" +:+ addr;
                   chainId := Finite chainId';
                   address := addr;
                   subpath := "" |}.
Proof.
  intros Hplain Hd Hn Hst Hentries.
  unfold getChainContracts, andThen. rewrite FsFacts.readdir_find, Hst.
  unfold lift, matchContractFiles, resolve.
  set (chainDir := getChainDirname svc chainId').
  destruct (ChainsFacts.matchContractFilesFrom_spec svc
              ((λ name, Path.join [chainDir; name]) <$> entries) ∅ Hplain)
    as (chains & -> & Hsound & _ & Hcompl).
  eexists. split; [done|].
  assert (Hfiled : ∀ addr m,
    default ∅ (contracts <$> chains !! Finite chainId') !! addr = Some m ↔
    filed chains (Finite chainId') addr m).
  { intros addr m. unfold filed.
    destruct (chains !! Finite chainId') as [mc|] eqn:E; simpl.
    - split; [by exists mc|]. by intros (? & [= <-] & ?).
    - rewrite lookup_empty. split; [done|]. by intros (? & [=] & _). }
  assert (Hinv : ∀ addr m, filed chains (Finite chainId') addr m →
    addr ∈ entries ∧ Shape.isAddressSegment addr = true
    ∧ m = {| original := chainDir +:+ "/" +:+ addr;
             dir := chainDir +:+ "/" +:+ addr;
             chainId := Finite chainId';
             address := addr;
             subpath := "" |}).
  { intros addr m Hf.
    destruct (Hsound _ _ _ Hf) as [Hold|(Haddr & _ & path & Hin & Hpath)].
    { by apply ChainsFacts.filed_empty in Hold. }
    apply list_elem_of_fmap in Hin as (name & -> & Hin).
    pose proof (proj1 (Forall_forall _ _) Hentries name Hin) as Hname.
    apply (ListingMore.match_entry svc chainId' name m Hplain Hd Hn Hname)
      in Hpath as [Hshape ->].
    simpl in Haddr. subst addr. done. }
  intros addr m. rewrite Hfiled. split; [apply Hinv|].
  intros (Hin & Hshape & ->).
  pose proof (proj1 (Forall_forall _ _) Hentries addr Hin) as Hname.
  destruct (Hcompl (Path.join [chainDir; addr])
              {| original := chainDir +:+ "/" +:+ addr;
                 dir := chainDir +:+ "/" +:+ addr;
                 chainId := Finite chainId';
                 address := addr;
                 subpath := "" |}) as (m'' & Hm'').
  { apply list_elem_of_fmap. eauto. }
  { by apply (ListingMore.match_entry svc chainId' addr _ Hplain Hd Hn Hname). }
  simpl in Hm''. by destruct (Hinv _ _ Hm'') as (_ & _ & <-).
Qed.

Lemma getChainContracts_listing_witness :
  plainDirname Sample.service = true
  ∧ isNormalPath (dirname Sample.service) = true
  ∧ (1 < 2 ^ 53)%N
  ∧ fs.find (getChainDirname Sample.service 1) Sample2.tree
    = Normal (Directory ["0xdeadbeefdeadbeefdeadbeefdeadbeefdeadbeef";
                         "0xDEADBEEFDEADBEEFDEADBEEFDEADBEEFDEADBEEF";
                         "notes.txt"])
  ∧ ∃ found : gmap string ContractFileMatch,
      getChainContracts Sample.service 1 Sample2.tree
      = (Normal found, Sample2.tree)
      ∧ ∀ addr m,
          found !! addr = Some m ↔
            addr ∈ ["0xdeadbeefdeadbeefdeadbeefdeadbeefdeadbeef";
                    "0xDEADBEEFDEADBEEFDEADBEEFDEADBEEFDEADBEEF";
                    "notes.txt"]
            ∧ Shape.isAddressSegment addr = true
            ∧ m = {| original :=
                       getChainDirname Sample.service 1 +:+ "/" +:+ addr;
                     dir := getChainDirname Sample.service 1 +:+ "/" +:+ addr;
                     chainId := Finite 1;
                     address := addr;
                     subpath := "" |}.
Proof.
  split; [reflexivity|]. split; [reflexivity|]. split; [reflexivity|].
  split; [vm_compute; reflexivity|].
  apply (getChainContracts_listing Sample.service 1 Sample2.tree);
    try reflexivity; try (vm_compute; reflexivity).
  repeat constructor.
Defined.

(** X19. For a chain id, [getChainContracts] rejects when the chain
    directory does not exist, with the error of the path resolution: ENOENT
    when a component of its path is missing and ENOTDIR when one is a file;
    it rejects with ENOTDIR too when a file has the name of the chain
    directory.  When the chain directory is there, and the directory name
    of the service has no pattern syntax, the promise resolves, the store
    is unchanged, and the mapping holds matches of entries of that one
    directory only: each match is filed under its address, has the chain id
    asked for and is the match of the path of an entry of the directory;
    and the address of every entry whose path matches with that chain id is
    in the mapping.  The chain directory is the entry of the root directory
    named by the decimal digits of the chain id (for a directory name in
    normal form and a chain id below 2^53). *)
Theorem getChainContracts_spec (svc : ContractService) (chainId' : N)
    (st : gmap string node) :
  (∀ e, fs.find (getChainDirname svc chainId') st = Throw e →
     getChainContracts svc chainId' st = (Throw e, st)
     ∧ (e = ENOENT ∨ e = ENOTDIR))
  ∧ (∀ content,
       fs.find (getChainDirname svc chainId') st = Normal (File content) →
       getChainContracts svc chainId' st = (Throw ENOTDIR, st))
  ∧ (plainDirname svc = true →
     ∀ entries,
       fs.find (getChainDirname svc chainId') st
       = Normal (Directory entries) →
       ∃ found : gmap string ContractFileMatch,
         getChainContracts svc chainId' st = (Normal found, st)
         ∧ (∀ addr m, found !! addr = Some m →
              address m = addr ∧ chainId m = Finite chainId'
              ∧ ∃ name, name ∈ entries
                  ∧ match_ svc (Path.join [getChainDirname svc chainId'; name])
                    = Normal (Some m))
         ∧ (∀ name m, name ∈ entries →
              match_ svc (Path.join [getChainDirname svc chainId'; name])
              = Normal (Some m) →
              chainId m = Finite chainId' →
              is_Some (found !! address m)))
  ∧ (isNormalPath (dirname svc) = true →
     (chainId' < 2 ^ 53)%N →
     getChainDirname svc chainId'
     = dirname svc +:+ "/" +:+ Number_toString chainId'
     ∧ Shape.isDecimalInteger (Number_toString chainId') = true
     ∧ decimalValue (Number_toString chainId') = chainId').
Proof.
  unfold getChainContracts, andThen. rewrite FsFacts.readdir_find.
  split; [|split; [|split]].
  - intros e He. rewrite He. split; [done|]. by eapply FsFacts.find_errors.
  - by intros content ->.
  - intros Hplain entries ->. unfold lift, matchContractFiles, resolve.
    set (chainDir := getChainDirname svc chainId').
    destruct (ChainsFacts.matchContractFilesFrom_spec svc
                ((λ name, Path.join [chainDir; name]) <$> entries) ∅ Hplain)
      as (chains & -> & Hsound & _ & Hcompl).
    eexists. split; [done|]. split.
    + intros addr m Hm.
      assert (Hf : filed chains (Finite chainId') addr m).
      { destruct (chains !! Finite chainId') as [mc|] eqn:E; simpl in Hm.
        - by exists mc.
        - by rewrite lookup_empty in Hm. }
      destruct (Hsound _ _ _ Hf) as [Hold|(? & ? & path & Hin & Hpath)].
      { by apply ChainsFacts.filed_empty in Hold. }
      apply list_elem_of_fmap in Hin as (name & -> & Hin). eauto 10.
    + intros name m Hin Hm Hchain.
      destruct (Hcompl (Path.join [chainDir; name]) m) as (m'' & mc & Hmc & Hm'');
        [apply list_elem_of_fmap; eauto|done|].
      rewrite Hchain in Hmc. rewrite Hmc. simpl. eauto.
  - intros Hd _.
    split; [by apply NamesMore.getChainDirname_normal|].
    split; [apply PathMore.toString_digits|apply PathMore.toString_value].
Qed.

Lemma getChainContracts_spec_witness :
  (fs.find (getChainDirname Sample.service 1) Sample2.fileRoot = Throw ENOTDIR
   ∧ getChainContracts Sample.service 1 Sample2.fileRoot
     = (Throw ENOTDIR, Sample2.fileRoot))
  ∧ (fs.find (getChainDirname Sample.service 1) Sample2.emptyRoot = Throw ENOENT
     ∧ getChainContracts Sample.service 1 Sample2.emptyRoot
       = (Throw ENOENT, Sample2.emptyRoot))
  ∧ plainDirname Sample.service = true
  ∧ fs.find (getChainDirname Sample.service 1) Sample2.tree
    = Normal (Directory ["0xdeadbeefdeadbeefdeadbeefdeadbeefdeadbeef";
                         "0xDEADBEEFDEADBEEFDEADBEEFDEADBEEFDEADBEEF";
                         "notes.txt"])
  ∧ (∃ found : gmap string ContractFileMatch,
       getChainContracts Sample.service 1 Sample2.tree
       = (Normal found, Sample2.tree)
       ∧ (∀ addr m, found !! addr = Some m →
            address m = addr ∧ chainId m = Finite 1
            ∧ ∃ name,
                name ∈ ["0xdeadbeefdeadbeefdeadbeefdeadbeefdeadbeef";
                        "0xDEADBEEFDEADBEEFDEADBEEFDEADBEEFDEADBEEF";
                        "notes.txt"]
                ∧ match_ Sample.service
                    (Path.join [getChainDirname Sample.service 1; name])
                  = Normal (Some m))
       ∧ (∀ name m,
            name ∈ ["0xdeadbeefdeadbeefdeadbeefdeadbeefdeadbeef";
                    "0xDEADBEEFDEADBEEFDEADBEEFDEADBEEFDEADBEEF";
                    "notes.txt"] →
            match_ Sample.service
              (Path.join [getChainDirname Sample.service 1; name])
            = Normal (Some m) →
            chainId m = Finite 1 →
            is_Some (found !! address m)))
  ∧ isNormalPath (dirname Sample.service) = true
  ∧ (1 < 2 ^ 53)%N
  ∧ getChainDirname Sample.service 1 = "contracts" +:+ "/" +:+ Number_toString 1
  ∧ Shape.isDecimalInteger (Number_toString 1) = true
  ∧ decimalValue (Number_toString 1) = 1%N.
Proof.
  assert (H1 : fs.find (getChainDirname Sample.service 1) Sample2.fileRoot
               = Throw ENOTDIR) by (vm_compute; reflexivity).
  assert (H2 : fs.find (getChainDirname Sample.service 1) Sample2.emptyRoot
               = Throw ENOENT) by (vm_compute; reflexivity).
  assert (H3 : fs.find (getChainDirname Sample.service 1) Sample2.tree
               = Normal (Directory
                   ["0xdeadbeefdeadbeefdeadbeefdeadbeefdeadbeef";
                    "0xDEADBEEFDEADBEEFDEADBEEFDEADBEEFDEADBEEF";
                    "notes.txt"])) by (vm_compute; reflexivity).
  split; [split; [exact H1|]|].
  { exact (proj1 (proj1 (getChainContracts_spec Sample.service 1
                           Sample2.fileRoot) ENOTDIR H1)). }
  split; [split; [exact H2|]|].
  { exact (proj1 (proj1 (getChainContracts_spec Sample.service 1
                           Sample2.emptyRoot) ENOENT H2)). }
  split; [reflexivity|]. split; [exact H3|].
  split.
  { exact (proj1 (proj2 (proj2 (getChainContracts_spec Sample.service 1
                                  Sample2.tree))) eq_refl _ H3). }
  split; [reflexivity|]. split; [reflexivity|].
  exact (proj2 (proj2 (proj2 (getChainContracts_spec Sample.service 1
                                Sample2.tree))) eq_refl eq_refl).
Defined.

(** X12. For a service whose directory name has no pattern syntax,
    [getContracts] never changes the store.  It rejects with the error of
    the path resolution when the directory name leads nowhere (ENOENT for a
    missing component, ENOTDIR for a component that is a file) and with
    ENOTDIR when it leads to a file.  When the root is a directory, it
    resolves if every entry of the root is itself a directory, and it
    rejects, with ENOENT or ENOTDIR, as soon as one entry is not: a plain
    file beside the chain directories makes the whole enumeration fail.
    This holds for every order in which the listings of the chain
    directories settle. *)
Theorem getContracts_settles (settled : list nat) (svc : ContractService)
    (st : gmap string node) :
  plainDirname svc = true →
  (getContracts settled svc st).2 = st
  ∧ (∀ e, fs.find (dirname svc) st = Throw e →
     getContracts settled svc st = (Throw e, st)
     ∧ (e = ENOENT ∨ e = ENOTDIR))
  ∧ (∀ content, fs.find (dirname svc) st = Normal (File content) →
     getContracts settled svc st = (Throw ENOTDIR, st))
  ∧ (∀ chainDirs, fs.find (dirname svc) st = Normal (Directory chainDirs) →
     (Forall (λ chainDir,
                ∃ addrDirs,
                  fs.find (Path.join [dirname svc; chainDir]) st
                  = Normal (Directory addrDirs)) chainDirs →
      ∃ chains, getContracts settled svc st = (Normal chains, st))
     ∧ (∀ chainDir,
          chainDir ∈ chainDirs →
          (∀ addrDirs, fs.find (Path.join [dirname svc; chainDir]) st
                       ≠ Normal (Directory addrDirs)) →
          ∃ e, getContracts settled svc st = (Throw e, st)
               ∧ (e = ENOENT ∨ e = ENOTDIR))).
Proof.
  intros Hplain. unfold getContracts, andThen. rewrite FsFacts.readdir_find.
  destruct (fs.find (dirname svc) st) as [[content|chainDirs]|e0] eqn:E.
  { split; [done|]. split; [done|]. split; [done|]. by intros ? [=]. }
  2:{ split; [done|]. split; [|split; [done|by intros ? [=]]].
      intros e [= <-]. split; [done|]. by eapply FsFacts.find_errors. }
  unfold Promise_all. rewrite StoreMore.runAll_addrDirnamesOf.
  set (rs := (λ chainDir, (addrDirnamesOf (dirname svc) chainDir st).1)
             <$> chainDirs).
  assert (Hrs : ∀ r, r ∈ rs →
    ∃ chainDir, chainDir ∈ chainDirs
      ∧ r = match fs.find (Path.join [dirname svc; chainDir]) st with
            | Throw e => Throw e
            | Normal (File _) => Throw ENOTDIR
            | Normal (Directory addrDirs) =>
                Normal ((λ addrDir,
                   Path.join [Path.join [dirname svc; chainDir]; addrDir])
                   <$> addrDirs)
            end).
  { intros r (chainDir & -> & Hin)%list_elem_of_fmap.
    exists chainDir. split; [done|].
    by rewrite StoreMore.addrDirnamesOf_spec. }
  destruct (firstRejection settled rs) as [e|] eqn:Ef.
  - apply StoreMore.firstRejection_Some in Ef.
    destruct (Hrs _ Ef) as (chainDir & Hin & Hr).
    assert (He : (e = ENOENT ∨ e = ENOTDIR)
                 ∧ ∀ addrDirs, fs.find (Path.join [dirname svc; chainDir]) st
                               ≠ Normal (Directory addrDirs)).
    { destruct (fs.find (Path.join [dirname svc; chainDir]) st)
        as [[?|?]|e1] eqn:Ed; simplify_eq; split; auto.
      by eapply FsFacts.find_errors. }
    split; [done|]. split; [done|]. split; [done|].
    intros ? [= <-]. split;
      [|intros ? _ _; exists e; split; [done|apply He]].
    intros Hall. exfalso.
    destruct (proj1 (Forall_forall _ _) Hall chainDir Hin) as [addrDirs Hd].
    by destruct He as [_ He]; apply (He addrDirs).
  - destruct (StoreMore.matchContractFiles_normal
                (mjoin (omap fulfilment rs)) svc Hplain) as (chains & Hm).
    unfold lift. rewrite Hm.
    split; [done|]. split; [done|]. split; [done|].
    intros ? [= <-]. split; [by eauto|].
    intros chainDir Hin Hnot. exfalso.
    apply StoreMore.firstRejection_None in Ef.
    assert (Hr : (addrDirnamesOf (dirname svc) chainDir st).1 ∈ rs).
    { unfold rs. apply list_elem_of_fmap. eauto. }
    destruct (proj1 (Forall_forall _ _) Ef _ Hr) as [a Ha].
    rewrite StoreMore.addrDirnamesOf_spec in Ha. simpl in Ha.
    destruct (fs.find (Path.join [dirname svc; chainDir]) st)
      as [[?|addrDirs]|?] eqn:Ed; try done.
    by apply (Hnot addrDirs).
Qed.

Lemma getContracts_settles_witness :
  plainDirname Sample.service = true
  ∧ fs.find (dirname Sample.service) Sample2.tree
    = Normal (Directory ["1"; "README"])
  ∧ "README" ∈ ["1"; "README"]
  ∧ (∃ e, getContracts [1; 0] Sample.service Sample2.tree
          = (Throw e, Sample2.tree)
          ∧ (e = ENOENT ∨ e = ENOTDIR))
  ∧ fs.find (dirname Sample.service) Sample2.fileRoot = Normal (File "")
  ∧ getContracts [] Sample.service Sample2.fileRoot
    = (Throw ENOTDIR, Sample2.fileRoot)
  ∧ fs.find (dirname Sample.service) Sample.store = Normal (Directory ["1"])
  ∧ ∃ chains,
      getContracts [0] Sample.service Sample.store
      = (Normal chains, Sample.store).
Proof.
  split; [reflexivity|].
  assert (Hroot : fs.find (dirname Sample.service) Sample2.tree
                  = Normal (Directory ["1"; "README"]))
    by (vm_compute; reflexivity).
  assert (Hfile : fs.find (dirname Sample.service) Sample2.fileRoot
                  = Normal (File "")) by (vm_compute; reflexivity).
  assert (Hin : "README" ∈ ["1"; "README"])
    by (apply list_elem_of_further, list_elem_of_here).
  split; [exact Hroot|]. split; [exact Hin|]. split.
  { pose proof (getContracts_settles [1; 0] Sample.service Sample2.tree eq_refl)
      as (_ & _ & _ & H).
    destruct (H ["1"; "README"] Hroot) as [_ Hrej].
    apply (Hrej "README" Hin). intros addrDirs. vm_compute. discriminate. }
  split; [exact Hfile|]. split.
  { exact (proj1 (proj2 (proj2 (getContracts_settles [] Sample.service
                                  Sample2.fileRoot eq_refl))) "" Hfile). }
  assert (Hstore : fs.find (dirname Sample.service) Sample.store
                   = Normal (Directory ["1"])) by (vm_compute; reflexivity).
  split; [exact Hstore|].
  pose proof (getContracts_settles [0] Sample.service Sample.store eq_refl)
    as (_ & _ & _ & H).
  destruct (H ["1"] Hstore) as [Hres _]. apply Hres.
  repeat constructor. eexists. vm_compute. reflexivity.
Defined.

Section StoreMoreFacts.

Variable JSONValue : Type.
Variable JSON_parse : string → option JSONValue.
Variable JSON_stringify_pretty : JSONValue → string.
Variable Buffer_toString : string → string.
Variable fabs : string → string.

(** X13. [getInput] never changes the store.  It rejects with the error
    of the path resolution when the absolute name of the input file leads
    nowhere (ENOENT for a missing component, ENOTDIR for a component that
    is a file), with EISDIR when it leads to a directory, and with the
    SyntaxError of [JSON.parse] when the file does not hold JSON; it
    resolves with the parsed value otherwise, and these are all its
    outcomes.  The input file is the entry named by the input basename in
    the address directory of the identity (for a directory name in normal
    form, a chain id below 2^53, and an address and a basename that are
    single names). *)
Theorem getInput_spec (svc : ContractService) (identity : ContractIdentity.t)
    (st : gmap string node) :
  (getInput JSON_parse Buffer_toString fabs svc identity st).2 = st
  ∧ (∀ e, fs.find (fabs (getInputFilename svc identity)) st = Throw e →
       getInput JSON_parse Buffer_toString fabs svc identity st = (Throw e, st)
       ∧ (e = ENOENT ∨ e = ENOTDIR))
  ∧ (∀ entries,
       fs.find (fabs (getInputFilename svc identity)) st
       = Normal (Directory entries) →
       getInput JSON_parse Buffer_toString fabs svc identity st
       = (Throw EISDIR, st))
  ∧ (∀ content,
       fs.find (fabs (getInputFilename svc identity)) st
       = Normal (File content) →
       getInput JSON_parse Buffer_toString fabs svc identity st
       = (match JSON_parse (Buffer_toString content) with
          | Some input => Normal input
          | None => Throw SyntaxError
          end, st))
  ∧ (∀ e, (getInput JSON_parse Buffer_toString fabs svc identity st).1
          = Throw e →
       e = ENOENT ∨ e = ENOTDIR ∨ e = EISDIR ∨ e = SyntaxError)
  ∧ (isNormalPath (dirname svc) = true →
     (ContractIdentity.chainId identity < 2 ^ 53)%N →
     Path.isName (ContractIdentity.address identity) = true →
     Path.isName (inputBasename svc) = true →
     getInputFilename svc identity
     = (dirname svc +:+ "/"
        +:+ Number_toString (ContractIdentity.chainId identity)
        +:+ "/" +:+ ContractIdentity.address identity)
       +:+ "/" +:+ inputBasename svc).
Proof.
  assert (Hname : isNormalPath (dirname svc) = true →
    (ContractIdentity.chainId identity < 2 ^ 53)%N →
    Path.isName (ContractIdentity.address identity) = true →
    Path.isName (inputBasename svc) = true →
    getInputFilename svc identity
    = (dirname svc +:+ "/"
       +:+ Number_toString (ContractIdentity.chainId identity)
       +:+ "/" +:+ ContractIdentity.address identity)
      +:+ "/" +:+ inputBasename svc).
  { intros Hd _ Haddr Hbase. by apply NamesMore.file_normal. }
  unfold getInput, andThen. rewrite FsFacts.readFile_find.
  unfold resolve, parseJSON, reject.
  destruct (fs.find (fabs (getInputFilename svc identity)) st)
    as [[content|entries]|e0] eqn:E.
  - split; [by destruct (JSON_parse _)|].
    split; [done|]. split; [done|]. split; [|split; [|exact Hname]].
    + intros ? [= <-]. by destruct (JSON_parse _).
    + destruct (JSON_parse _); [done|]. intros e [= <-]. auto.
  - split; [done|]. split; [done|]. split; [done|]. split; [done|].
    split; [|exact Hname]. intros e [= <-]. auto.
  - split; [done|]. split.
    { intros e [= <-]. split; [done|]. by eapply FsFacts.find_errors. }
    split; [done|]. split; [done|]. split; [|exact Hname].
    intros e [= <-]. apply FsFacts.find_errors in E. tauto.
Qed.

(** X14. Saving and asking.  After a save that succeeds, [hasMetadata] of
    the identity is true; a save that the storage fails rejects with
    WriteError and leaves the store as it was; and, for addresses and a
    metadata basename that are single names, a save for one identity does
    not change what [hasMetadata] answers for any other identity. *)
Theorem saveMetadata_hasMetadata (svc : ContractService)
    (identity other : ContractIdentity.t) (metadata : JSONValue)
    (st : gmap string node) :
  Path.isName (ContractIdentity.address identity) = true →
  Path.isName (ContractIdentity.address other) = true →
  Path.isName (metadataBasename svc) = true →
  other ≠ identity →
  (hasMetadata svc identity
     (saveMetadata JSON_stringify_pretty false svc identity metadata st).2).1
  = Normal true
  ∧ saveMetadata JSON_stringify_pretty true svc identity metadata st
    = (Throw WriteError, st)
  ∧ (hasMetadata svc other
       (saveMetadata JSON_stringify_pretty false svc identity metadata st).2).1
    = (hasMetadata svc other st).1.
Proof.
  intros Hi Ho Hbase Hne.
  unfold hasMetadata, fexists, saveMetadata, writeJsonFile. simpl.
  split; [|split; [done|]].
  - f_equal. apply bool_decide_eq_true_2. rewrite lookup_insert_eq. eauto.
  - f_equal. apply bool_decide_ext. rewrite lookup_insert_ne; [done|].
    intros Heq. apply Hne. symmetry.
    by apply (NamesMore.file_inj svc identity other (metadataBasename svc)).
Qed.

(** X15. The artifacts never collide.  For addresses and basenames that are
    single names, with the three basenames different, the config, input and
    metadata file names of any identities are different files; so a save of
    metadata leaves what is at every config and input file name as it
    was. *)
Theorem artifacts_distinct (svc : ContractService)
    (i1 i2 : ContractIdentity.t) (metadata : JSONValue) (fault : bool)
    (st : gmap string node) :
  Path.isName (ContractIdentity.address i1) = true →
  Path.isName (ContractIdentity.address i2) = true →
  Path.isName (configBasename svc) = true →
  Path.isName (inputBasename svc) = true →
  Path.isName (metadataBasename svc) = true →
  configBasename svc ≠ inputBasename svc →
  configBasename svc ≠ metadataBasename svc →
  inputBasename svc ≠ metadataBasename svc →
  getConfigFilename svc i1 ≠ getInputFilename svc i2
  ∧ getConfigFilename svc i1 ≠ getMetadataFilename svc i2
  ∧ getInputFilename svc i1 ≠ getMetadataFilename svc i2
  ∧ (saveMetadata JSON_stringify_pretty fault svc i2 metadata st).2
      !! getConfigFilename svc i1
    = st !! getConfigFilename svc i1
  ∧ (saveMetadata JSON_stringify_pretty fault svc i2 metadata st).2
      !! getInputFilename svc i1
    = st !! getInputFilename svc i1.
Proof.
  intros H1 H2 Hc Hi Hm Hci Hcm Him.
  assert (Hcm' : getConfigFilename svc i1 ≠ getMetadataFilename svc i2).
  { intros Heq. by apply Hcm, (NamesMore.file_last svc i1 i2). }
  assert (Him' : getInputFilename svc i1 ≠ getMetadataFilename svc i2).
  { intros Heq. by apply Him, (NamesMore.file_last svc i1 i2). }
  split; [|split; [done|split; [done|]]].
  - intros Heq. by apply Hci, (NamesMore.file_last svc i1 i2).
  - unfold saveMetadata, writeJsonFile.
    destruct fault; simpl; [done|].
    by rewrite !lookup_insert_ne.
Qed.

End StoreMoreFacts.

Lemma getInput_spec_witness :
  (fs.find (Sample2.fabs (getInputFilename Sample.service Sample.identity))
     Sample2.served = Normal (File "{}")
   ∧ getInput Sample.parse id Sample2.fabs Sample.service Sample.identity
       Sample2.served
     = (Normal tt, Sample2.served))
  ∧ (fs.find (Sample2.fabs (getInputFilename Sample.service Sample2.identity2))
       Sample2.served = Throw ENOTDIR
     ∧ getInput Sample.parse id Sample2.fabs Sample.service Sample2.identity2
         Sample2.served
       = (Throw ENOTDIR, Sample2.served)).
Proof.
  assert (H1 : fs.find
                 (Sample2.fabs (getInputFilename Sample.service Sample.identity))
                 Sample2.served = Normal (File "{}")) by (vm_compute; reflexivity).
  assert (H2 : fs.find
                 (Sample2.fabs (getInputFilename Sample.service Sample2.identity2))
                 Sample2.served = Throw ENOTDIR) by (vm_compute; reflexivity).
  split; [split; [exact H1|]|split; [exact H2|]].
  - exact (proj1 (proj2 (proj2 (proj2 (getInput_spec unit Sample.parse id
             Sample2.fabs Sample.service Sample.identity Sample2.served))))
             "{}" H1).
  - exact (proj1 (proj1 (proj2 (getInput_spec unit Sample.parse id
             Sample2.fabs Sample.service Sample2.identity2 Sample2.served))
             ENOTDIR H2)).
Defined.

Lemma artifacts_distinct_witness :
  Path.isName (ContractIdentity.address Sample.identity) = true
  ∧ Path.isName (configBasename Sample.service) = true
  ∧ Path.isName (inputBasename Sample.service) = true
  ∧ Path.isName (metadataBasename Sample.service) = true
  ∧ configBasename Sample.service ≠ inputBasename Sample.service
  ∧ configBasename Sample.service ≠ metadataBasename Sample.service
  ∧ inputBasename Sample.service ≠ metadataBasename Sample.service
  ∧ getConfigFilename Sample.service Sample.identity
    ≠ getInputFilename Sample.service Sample.identity
  ∧ getConfigFilename Sample.service Sample.identity
    ≠ getMetadataFilename Sample.service Sample.identity
  ∧ getInputFilename Sample.service Sample.identity
    ≠ getMetadataFilename Sample.service Sample.identity
  ∧ (saveMetadata (λ _ : unit, "{}") false Sample.service Sample.identity tt
       Sample.configStore).2
      !! getConfigFilename Sample.service Sample.identity
    = Sample.configStore !! getConfigFilename Sample.service Sample.identity
  ∧ (saveMetadata (λ _ : unit, "{}") false Sample.service Sample.identity tt
       Sample.configStore).2
      !! getInputFilename Sample.service Sample.identity
    = Sample.configStore !! getInputFilename Sample.service Sample.identity.
Proof.
  assert (H12 : configBasename Sample.service ≠ inputBasename Sample.service)
    by discriminate.
  assert (H13 : configBasename Sample.service ≠ metadataBasename Sample.service)
    by discriminate.
  assert (H23 : inputBasename Sample.service ≠ metadataBasename Sample.service)
    by discriminate.
  split; [reflexivity|]. split; [reflexivity|]. split; [reflexivity|].
  split; [reflexivity|]. split; [exact H12|]. split; [exact H13|].
  split; [exact H23|].
  apply (artifacts_distinct unit (λ _, "{}") Sample.service Sample.identity
           Sample.identity tt false Sample.configStore);
    try reflexivity; assumption.
Defined.

(** X16. The service built without options.  Its directory name and
    basenames are the defaults, and for every identity with a chain id
    below 2^53 and an address of 0x and 40 lowercase hexadecimal digits the
    files are [contracts/<chainId>/<address>/configs.json], [input.json]
    and [metadata.json] there, and [match] reads the identity back from
    the name of each. *)
Theorem default_service_files (identity : ContractIdentity.t) :
  (ContractIdentity.chainId identity < 2 ^ 53)%N →
  Shape.isAddressSegment (ContractIdentity.address identity) = true →
  let svc := new_ContractService None in
  let addressDir :=
    "contracts/" +:+ Number_toString (ContractIdentity.chainId identity)
    +:+ "/" +:+ ContractIdentity.address identity in
  let found (basename : string) :=
    match_ svc (addressDir +:+ basename)
    = Normal (Some
        {| original := addressDir +:+ basename;
           dir := addressDir;
           chainId := Finite (ContractIdentity.chainId identity);
           address := ContractIdentity.address identity;
           subpath := basename |}) in
  getAddressDirname svc identity = addressDir
  ∧ getConfigFilename svc identity = addressDir +:+ "/configs.json"
  ∧ getInputFilename svc identity = addressDir +:+ "/input.json"
  ∧ getMetadataFilename svc identity = addressDir +:+ "/metadata.json"
  ∧ found "/configs.json" ∧ found "/input.json" ∧ found "/metadata.json".
Proof.
  intros Hn Haddr svc addressDir found.
  pose proof (PathMore.isName_address _ Haddr) as Hname.
  assert (Hd : isNormalPath (dirname svc) = true) by reflexivity.
  destruct (NamesMore.getAddressDirname_normal svc identity Hd Hname)
    as [Ha _].
  assert (Hdir : getAddressDirname svc identity = addressDir).
  { rewrite Ha. unfold addressDir. reflexivity. }
  assert (Hfile : ∀ base, Path.isName base = true →
            Path.join [getAddressDirname svc identity; base]
            = addressDir +:+ "/" +:+ base).
  { intros base Hbase. rewrite NamesMore.file_normal by done. reflexivity. }
  assert (Hfound : ∀ base, Path.isName base = true →
            noLineTerminator base = true → found ("/" +:+ base)).
  { intros base Hbase Hlt. unfold found.
    pose proof (RoundTrip.match_file svc identity base eq_refl Hd Hn Haddr
                  Hbase Hlt) as H.
    by rewrite Hfile, Hdir in H. }
  split; [done|].
  split; [by apply (Hfile "configs.json")|].
  split; [by apply (Hfile "input.json")|].
  split; [by apply (Hfile "metadata.json")|].
  split; [by apply (Hfound "configs.json")|].
  split; [by apply (Hfound "input.json")|by apply (Hfound "metadata.json")].
Qed.

Lemma default_service_files_witness :
  (ContractIdentity.chainId Sample.identity < 2 ^ 53)%N
  ∧ Shape.isAddressSegment (ContractIdentity.address Sample.identity) = true
  ∧ getMetadataFilename (new_ContractService None) Sample.identity
    = ("contracts/" +:+ Number_toString 1 +:+ "/" +:+ Sample.address)
      +:+ "/metadata.json"
  ∧ match_ (new_ContractService None)
      (("contracts/" +:+ Number_toString 1 +:+ "/" +:+ Sample.address)
       +:+ "/metadata.json")
    = Normal (Some
        {| original :=
             ("contracts/" +:+ Number_toString 1 +:+ "/" +:+ Sample.address)
             +:+ "/metadata.json";
           dir := "contracts/" +:+ Number_toString 1 +:+ "/" +:+ Sample.address;
           chainId := Finite 1;
           address := Sample.address;
           subpath := "/metadata.json" |}).
Proof.
  split; [reflexivity|]. split; [reflexivity|].
  pose proof (default_service_files Sample.identity eq_refl eq_refl)
    as (_ & _ & _ & Hm & _ & _ & Hf).
  split; [exact Hm|exact Hf].
Defined.

Lemma saveMetadata_hasMetadata_witness :
  Path.isName (ContractIdentity.address Sample.identity) = true
  ∧ Path.isName (ContractIdentity.address Sample.IDENTITY) = true
  ∧ Path.isName (metadataBasename Sample.service) = true
  ∧ Sample.IDENTITY ≠ Sample.identity
  ∧ (hasMetadata Sample.service Sample.identity
       (saveMetadata (λ _ : unit, "{}") false Sample.service Sample.identity tt
          ∅).2).1
    = Normal true
  ∧ saveMetadata (λ _ : unit, "{}") true Sample.service Sample.identity tt ∅
    = (Throw WriteError, ∅)
  ∧ (hasMetadata Sample.service Sample.IDENTITY
       (saveMetadata (λ _ : unit, "{}") false Sample.service Sample.identity tt
          ∅).2).1
    = (hasMetadata Sample.service Sample.IDENTITY ∅).1.
Proof.
  split; [reflexivity|]. split; [reflexivity|]. split; [reflexivity|].
  assert (Hne : Sample.IDENTITY ≠ Sample.identity) by discriminate.
  split; [exact Hne|].
  apply (saveMetadata_hasMetadata unit (λ _, "{}") Sample.service
           Sample.identity Sample.IDENTITY tt ∅); try reflexivity.
  exact Hne.
Defined.
